(** * The Ace editor wrapper and the document settings page

    A shallow embedding of [app/client/components/AceEditor.js] (the
    [AceEditor] wrapper class) and of the document settings page that follows
    it in the same excerpt ([DocSettingsPage], [buildLocaleSelect]), with the
    properties the specification states about them.

    Layout: JavaScript values; the editor widget the wrapper drives; the
    wrapper object, the browser around it and a state-and-exception monad; the
    wrapper's methods; the settings page; then the theorems. *)

From Stdlib Require Import ZArith String Ascii List Lia Bool Permutation Sorted.
From Stdlib Require SpecFloat.
From stdpp Require Import base option list.
Import ListNotations.

Local Open Scope string_scope.
Local Open Scope list_scope.
Local Open Scope Z_scope.

(* ===================================================================== *)
(** ** JavaScript values *)
(* ===================================================================== *)

Module JS.

(** The values that reach the code under study. Strings are sequences of
    code units, numbers are the integers the code compares and adds, and
    [NaN]. *)
Inductive value : Type :=
| Undefined
| Null
| Bool (b : bool)
| Num (n : Z)
| NaN
| Str (s : string).

(** [ToBoolean]: what [if (v)], [!v], [v && w] and [v || w] test. *)
Definition truthy (v : value) : bool :=
  match v with
  | Undefined | Null => false
  | Bool b => b
  | Num n => negb (n =? 0)
  | NaN => false
  | Str s => negb (String.eqb s "")
  end.

(** [v === false]. *)
Definition strictly_false (v : value) : bool :=
  match v with
  | Bool false => true
  | _ => false
  end.

Definition is_string (v : value) : bool :=
  match v with
  | Str _ => true
  | _ => false
  end.

(** What a [throw] carries: the [Error] the code constructs itself, or the
    [TypeError] the engine raises on a property access through [null]. *)
Inductive exn : Type :=
| Error (message : string)
| TypeError (message : string).

(** *** Numbers in division and in [parseInt]

    Where the code divides and parses, a number is the IEEE 754 double
    it is in the engine, in the form [SpecFloat] gives it: sign,
    mantissa and binary exponent. *)
Definition double : Type := SpecFloat.spec_float.

(** The double nearest to a whole number. *)
Definition number_of (z : Z) : double :=
  SpecFloat.binary_normalize 53 1024 z 0 false.

(** [a / b] and [a - b]. *)
Definition divide (a b : double) : double := SpecFloat.SFdiv 53 1024 a b.
Definition subtract (a b : double) : double := SpecFloat.SFsub 53 1024 a b.

(** The whole part of the double [m * 2^e]. *)
Definition whole (m e : Z) : Z :=
  if 0 <=? e then m * 2 ^ e else m / 2 ^ (- e).

(** The whole number a double is, once it is known to be one. *)
Definition integer_of (x : double) : Z :=
  match x with
  | SpecFloat.S754_finite s m e =>
      if s then - whole (Zpos m) e else whole (Zpos m) e
  | _ => 0
  end.

(** The first decimal digit [d] of the positive fraction [num / den] and
    its power of ten [j]: [d * 10^j <= num / den < (d + 1) * 10^j]. No
    double needs 400 steps. *)
Fixpoint scale_down (fuel : nat) (num den j : Z) : Z * Z :=
  match fuel with
  | O => (num / den, j)
  | S fuel' =>
      if 10 * den <=? num then scale_down fuel' num (10 * den) (j + 1)
      else (num / den, j)
  end.

Fixpoint scale_up (fuel : nat) (num den j : Z) : Z * Z :=
  match fuel with
  | O => (num / den, j)
  | S fuel' =>
      if num <? den then scale_up fuel' (10 * num) den (j - 1)
      else (num / den, j)
  end.

Definition first_digit (num den : Z) : Z * Z :=
  if den <=? num then scale_down 400 num den 0 else scale_up 400 num den 0.

(** [Number::toString] writes the shortest decimal that reads back as
    the same double. This is its first digit and the power of ten of
    that digit, for the positive double [m * 2^e]: those of the double
    itself, unless the next decimal of one digit, [d2 * 10^j2], still
    rounds to the double, that is, does not lie above the midpoint to
    the next double (the midpoint itself rounds to the even mantissa). *)
Definition shortest (m e : Z) : Z * Z :=
  let num := if 0 <=? e then m * 2 ^ e else m in
  let den := if 0 <=? e then 1 else 2 ^ (- e) in
  let '(d, j) := first_digit num den in
  let '(d2, j2) := if d =? 9 then (1, j + 1) else (d + 1, j) in
  let next := d2 * 10 ^ Z.max j2 0 * (2 * den) in
  let midpoint := (2 * num + 1) * 10 ^ Z.max (- j2) 0 in
  if (if Z.even m then next <=? midpoint else next <? midpoint)
  then (d2, j2) else (d, j).

(** [parseInt(x, 10)] of a number: the digits its string starts with,
    [None] for [NaN]. The string is in exponent form, and starts with
    one digit, when that digit stands for less than [1e-6] or for
    [1e21] or more; otherwise it starts with the whole part of the
    number. ["NaN"] and ["Infinity"] start with no digit. *)
Definition parseInt (x : double) : option Z :=
  match x with
  | SpecFloat.S754_nan | SpecFloat.S754_infinity _ => None
  | SpecFloat.S754_zero _ => Some 0
  | SpecFloat.S754_finite s m e =>
      let '(d, j) := shortest (Zpos m) e in
      let n := if (j <=? -7) || (21 <=? j) then d else whole (Zpos m) e in
      Some (if s then - n else n)
  end.

End JS.

(* ===================================================================== *)
(** ** The editor widget

    The widget comes from the [brace] package, which the repository only
    imports. What follows is the part of its documented behaviour that the
    wrapper relies on: a document is a non-empty array of lines, text is cut
    into lines at line breaks and glued back with the document's line-break
    string, and positions are row/column pairs. *)
(* ===================================================================== *)

Module Ace.

Definition LF : ascii := "010"%char.
Definition CR : ascii := "013"%char.

Definition is_LF (c : ascii) : bool := Ascii.eqb c LF.
Definition is_CR (c : ascii) : bool := Ascii.eqb c CR.

(** [text.split(/\r\n|\r|\n/)] *)
Fixpoint split (text : string) : list string :=
  match text with
  | EmptyString => [EmptyString]
  | String c rest =>
      if is_LF c then EmptyString :: split rest
      else if is_CR c then
        match rest with
        | String c' rest' =>
            if is_LF c' then EmptyString :: split rest'
            else EmptyString :: split rest
        | EmptyString => EmptyString :: split rest
        end
      else
        match split rest with
        | line :: more => String c line :: more
        | [] => [String c EmptyString]
        end
  end.

(** [$detectNewLine]: the first line break of the text, or a line feed when
    the text has none. *)
Fixpoint detectNewLine (text : string) : string :=
  match text with
  | EmptyString => String LF EmptyString
  | String c rest =>
      if is_LF c then String LF EmptyString
      else if is_CR c then
        match rest with
        | String c' _ =>
            if is_LF c' then String CR (String LF EmptyString)
            else String CR EmptyString
        | EmptyString => String CR EmptyString
        end
      else detectNewLine rest
  end.

(** [lines.join(newLine)] *)
Fixpoint join (newLine : string) (lines : list string) : string :=
  match lines with
  | [] => EmptyString
  | [line] => line
  | line :: more => String.append line (String.append newLine (join newLine more))
  end.

Record position : Type := Position { row : nat; column : nat }.

Definition fileStart : position := Position 0 0.

(** Last row, behind its last character. *)
Definition fileEnd (lines : list string) : position :=
  Position (length lines - 1) (String.length (List.last lines EmptyString)).

(** [Document.indexToPosition(index)]: walk the lines, taking the length of
    each line and of the line break off the index, until it fits in a line;
    an index past the end lands in the last row. *)
Fixpoint indexToPosition_from
    (newLineLength : nat) (lines : list string) (i : nat) (index : nat)
    : position :=
  match lines with
  | [] => Position (i - 1) index
  | line :: more =>
      let span := (String.length line + newLineLength)%nat in
      if (index <? span)%nat then Position i index
      else
        match more with
        | [] => Position i index
        | _ :: _ => indexToPosition_from newLineLength more (S i) (index - span)
        end
  end.

(** [Document.positionToIndex(pos)]: the lengths of the rows above, each
    with its line break, plus the column. *)
Fixpoint offset (newLineLength : nat) (lines : list string) (rows : nat)
    : nat :=
  match rows, lines with
  | S rows', line :: more =>
      (String.length line + newLineLength + offset newLineLength more rows')%nat
  | _, _ => 0%nat
  end.

Definition positionToIndex_in (newLineLength : nat) (lines : list string)
    (p : position) : nat :=
  (offset newLineLength lines (Nat.min (row p) (length lines)) + column p)%nat.

(** [Anchor.$clipPositionToDocument]: what a requested cursor position
    becomes. *)
Definition clip (lines : list string) (p : position) : position :=
  if (length lines <=? row p)%nat then fileEnd lines
  else Position (row p)
         (Nat.min (String.length (nth (row p) lines EmptyString)) (column p)).

(** A command as [commands.addCommand] receives it. [exec] is a closure in
    the source; the wrapper registers two kinds. *)
Inductive exec : Type :=
| ExecWriteObservable              (* () => { this.writeObservable(); return true; } *)
| ExecGroupCommand (name : string) (* () => !commandGroup.commands[command]() *).

Record command : Type := Command {
  name : string;
  bindKey_win : string;
  bindKey_mac : string;
  bindKey_sender : string;
  run : exec
}.

(** The listeners the wrapper registers with [editor.on]. *)
Inductive listener : Type :=
| Resize             (* this.resize.bind(this) *)
| WriteObservable    (* () => { this.writeObservable(); } *).

(** One editor instance, with its session, document and renderer. *)
Record Editor : Type := mkEditor {
  container : nat;                 (* the element handed to ace.edit *)
  lines : list string;             (* session.doc.$lines *)
  autoNewLine : string;            (* session.doc.$autoNewLine *)
  cursor : position;               (* selection lead *)
  allSelected : bool;
  readOnly : bool;
  cursorOpacity : Z;               (* renderer.$cursorLayer.element.style.opacity *)
  commands : list command;
  onChange : list listener;
  onBlur : list listener;
  useWrapMode : bool;
  fontSize : Z;
  settings : list (string * JS.value)   (* mode, theme, gutter, tab size, ... *)
}.

(** [new Editor(...)] on an empty element. *)
Definition create (el : nat) : Editor :=
  {| container := el; lines := [EmptyString];
     autoNewLine := String LF EmptyString;
     cursor := fileStart; allSelected := false; readOnly := false;
     cursorOpacity := 100; commands := []; onChange := []; onBlur := [];
     useWrapMode := false; fontSize := 12; settings := [] |}.

Definition getValue (e : Editor) : string := join (autoNewLine e) (lines e).

Definition with_document (ls : list string) (nl : string) (c : position)
    (e : Editor) : Editor :=
  {| container := container e; lines := ls; autoNewLine := nl; cursor := c;
     allSelected := false; readOnly := readOnly e;
     cursorOpacity := cursorOpacity e; commands := commands e;
     onChange := onChange e; onBlur := onBlur e;
     useWrapMode := useWrapMode e; fontSize := fontSize e;
     settings := settings e |}.

(** [doc.remove] of the whole text: one empty line is left and the cursor
    falls back to the start. *)
Definition removeAll (e : Editor) : Editor :=
  with_document [EmptyString] (autoNewLine e) fileStart e.

(** [doc.insert({row: 0, column: 0}, text)] into the emptied document; the
    line break is detected from the text and the cursor follows the text. *)
Definition insertText (text : string) (e : Editor) : Editor :=
  with_document (split text) (detectNewLine text) (fileEnd (split text)) e.

(** The navigation that closes [editor.setValue(val, cursorPos)]: falsy
    selects all, 1 goes to the end, -1 to the start. *)
Definition navigate (cursorPos : Z) (e : Editor) : Editor :=
  {| container := container e; lines := lines e; autoNewLine := autoNewLine e;
     cursor := if cursorPos =? -1 then fileStart
               else if (cursorPos =? 1) || (cursorPos =? 0) then fileEnd (lines e)
               else cursor e;
     allSelected := cursorPos =? 0; readOnly := readOnly e;
     cursorOpacity := cursorOpacity e; commands := commands e;
     onChange := onChange e; onBlur := onBlur e;
     useWrapMode := useWrapMode e; fontSize := fontSize e;
     settings := settings e |}.

Definition moveCursorTo (r c : nat) (e : Editor) : Editor :=
  with_document (lines e) (autoNewLine e) (clip (lines e) (Position r c)) e.

Definition indexToPosition (e : Editor) (index : nat) : position :=
  indexToPosition_from (String.length (autoNewLine e)) (lines e) 0 index.

Definition positionToIndex (e : Editor) (p : position) : nat :=
  positionToIndex_in (String.length (autoNewLine e)) (lines e) p.

(** [setReadOnly(flag)] together with the opacity of the cursor layer. *)
Definition protect (flag : bool) (opacity : Z) (e : Editor) : Editor :=
  {| container := container e; lines := lines e; autoNewLine := autoNewLine e;
     cursor := cursor e; allSelected := allSelected e; readOnly := flag;
     cursorOpacity := opacity; commands := commands e;
     onChange := onChange e; onBlur := onBlur e;
     useWrapMode := useWrapMode e; fontSize := fontSize e;
     settings := settings e |}.

(** [commands.addCommand(c)]: a command of the same name is replaced. *)
Definition addCommand (c : command) (e : Editor) : Editor :=
  {| container := container e; lines := lines e; autoNewLine := autoNewLine e;
     cursor := cursor e; allSelected := allSelected e; readOnly := readOnly e;
     cursorOpacity := cursorOpacity e;
     commands :=
       List.filter (fun c' => negb (String.eqb (name c') (name c)))
         (commands e)
       ++ [c];
     onChange := onChange e; onBlur := onBlur e;
     useWrapMode := useWrapMode e; fontSize := fontSize e;
     settings := settings e |}.

(** [editor.on('change', l)] and [editor.on('blur', l)]. *)
Definition on_change (l : listener) (e : Editor) : Editor :=
  {| container := container e; lines := lines e; autoNewLine := autoNewLine e;
     cursor := cursor e; allSelected := allSelected e; readOnly := readOnly e;
     cursorOpacity := cursorOpacity e; commands := commands e;
     onChange := onChange e ++ [l]; onBlur := onBlur e;
     useWrapMode := useWrapMode e; fontSize := fontSize e;
     settings := settings e |}.

Definition on_blur (l : listener) (e : Editor) : Editor :=
  {| container := container e; lines := lines e; autoNewLine := autoNewLine e;
     cursor := cursor e; allSelected := allSelected e; readOnly := readOnly e;
     cursorOpacity := cursorOpacity e; commands := commands e;
     onChange := onChange e; onBlur := onBlur e ++ [l];
     useWrapMode := useWrapMode e; fontSize := fontSize e;
     settings := settings e |}.

Definition setUseWrapMode (flag : bool) (e : Editor) : Editor :=
  {| container := container e; lines := lines e; autoNewLine := autoNewLine e;
     cursor := cursor e; allSelected := allSelected e; readOnly := readOnly e;
     cursorOpacity := cursorOpacity e; commands := commands e;
     onChange := onChange e; onBlur := onBlur e;
     useWrapMode := flag; fontSize := fontSize e;
     settings := settings e |}.

Definition setFontSize (px : Z) (e : Editor) : Editor :=
  {| container := container e; lines := lines e; autoNewLine := autoNewLine e;
     cursor := cursor e; allSelected := allSelected e; readOnly := readOnly e;
     cursorOpacity := cursorOpacity e; commands := commands e;
     onChange := onChange e; onBlur := onBlur e;
     useWrapMode := useWrapMode e; fontSize := px;
     settings := settings e |}.

(** Every other setter ([setMode], [setTheme], [setTabSize], ...): the
    value is kept under the setter's name. *)
Definition configure (key : string) (v : JS.value) (e : Editor) : Editor :=
  {| container := container e; lines := lines e; autoNewLine := autoNewLine e;
     cursor := cursor e; allSelected := allSelected e; readOnly := readOnly e;
     cursorOpacity := cursorOpacity e; commands := commands e;
     onChange := onChange e; onBlur := onBlur e;
     useWrapMode := useWrapMode e; fontSize := fontSize e;
     settings := (key, v) :: settings e |}.

End Ace.

(* ===================================================================== *)
(** ** The wrapper object and the browser around it *)
(* ===================================================================== *)

(** [{width, height}] as [calcSize] receives and returns it. *)
Record Size : Type := mkSize { width : Z; height : Z }.

(** [style.width] and [style.height] of an element; [None] is ['auto']. *)
Record Style : Type := mkStyle { style_width : option Z; style_height : Z }.

(** A caller's [calcSize(elem, desiredSize)]. It receives the [desiredSize]
    object itself, so it may write to it: the first component is the size it
    returns, the second what [desiredSize] holds when it returns. *)
Definition CalcSize : Type := option nat -> Size -> Size * Size.

(** [(elem, size) => size], the default of the constructor. *)
Definition identityCalcSize : CalcSize := fun _ size => (size, size).

(** The fields of an [AceEditor] instance. Elements, editors, timers and the
    observable are references: an element or a timer is its number, an editor
    its index in the browser's [heap]. *)
Record AceEditor : Type := mkAceEditor {
  observable : option nat;
  saveValueOnBlurEvent : bool;
  calcSize : CalcSize;
  gristDoc : option nat;
  editor : option nat;
  editorDom : option nat;
  session : option nat;
  _fullDom : option nat;
  _setupCallback : option (Ace.Editor -> Ace.Editor);
  _setupTimer : option nat;
  textPadding : Z
}.

(** What the renderer measures; the wrapper only reads these numbers. *)
Record Metrics : Type := mkMetrics {
  getScreenWidth : Ace.Editor -> Z;      (* session.getScreenWidth() *)
  getScreenLength : Ace.Editor -> Z;     (* session.getScreenLength() *)
  characterWidth : Ace.Editor -> Z;      (* renderer.characterWidth *)
  lineHeight : Ace.Editor -> Z;          (* renderer.lineHeight *)
  clientWidth : Ace.Editor -> Z          (* renderer.scroller.clientWidth *)
}.

(** Everything outside the instance that its methods read or change. *)
Record Browser : Type := mkBrowser {
  heap : list Ace.Editor;          (* the editors ace.edit has created *)
  timers : list nat;               (* pending setTimeout callbacks *)
  nextTimer : nat;
  nextElem : nat;
  styles : list (nat * Style);     (* latest assignment first *)
  disposables : list nat;          (* autoDisposeWith('destroy', editor) *)
  observed : option string;        (* what the bound observable holds *)
  saved : list JS.value;           (* modelUtil.setSaveValue calls, oldest first *)
  subscriptions : list nat;        (* elements that own a subscription *)
  calcSizeCalls : list Size;       (* arguments of calcSize, oldest first *)
  setups : nat;                    (* how often _setup has run *)
  metrics : Metrics;
  editReturnsExisting : bool       (* ace.edit on an element that has an editor *)
}.

Record state : Type := mkState { self : AceEditor; browser : Browser }.

Section Setters.

Definition set_editor (v : option nat) (o : AceEditor) : AceEditor :=
  mkAceEditor
    (observable o) (saveValueOnBlurEvent o) (calcSize o) (gristDoc o) v
    (editorDom o) (session o) (_fullDom o) (_setupCallback o)
    (_setupTimer o) (textPadding o).

Definition set_editorDom (v : option nat) (o : AceEditor) : AceEditor :=
  mkAceEditor
    (observable o) (saveValueOnBlurEvent o) (calcSize o) (gristDoc o)
    (editor o) v (session o) (_fullDom o) (_setupCallback o)
    (_setupTimer o) (textPadding o).

Definition set_session (v : option nat) (o : AceEditor) : AceEditor :=
  mkAceEditor
    (observable o) (saveValueOnBlurEvent o) (calcSize o) (gristDoc o)
    (editor o) (editorDom o) v (_fullDom o) (_setupCallback o)
    (_setupTimer o) (textPadding o).

Definition set_fullDom (v : option nat) (o : AceEditor) : AceEditor :=
  mkAceEditor
    (observable o) (saveValueOnBlurEvent o) (calcSize o) (gristDoc o)
    (editor o) (editorDom o) (session o) v (_setupCallback o)
    (_setupTimer o) (textPadding o).

Definition set_setupCallback (v : option (Ace.Editor -> Ace.Editor)) (o : AceEditor) : AceEditor :=
  mkAceEditor
    (observable o) (saveValueOnBlurEvent o) (calcSize o) (gristDoc o)
    (editor o) (editorDom o) (session o) (_fullDom o) v (_setupTimer o)
    (textPadding o).

Definition set_setupTimer (v : option nat) (o : AceEditor) : AceEditor :=
  mkAceEditor
    (observable o) (saveValueOnBlurEvent o) (calcSize o) (gristDoc o)
    (editor o) (editorDom o) (session o) (_fullDom o) (_setupCallback o) v
    (textPadding o).

Definition set_heap (v : list Ace.Editor) (b : Browser) : Browser :=
  mkBrowser
    v (timers b) (nextTimer b) (nextElem b) (styles b) (disposables b)
    (observed b) (saved b) (subscriptions b) (calcSizeCalls b) (setups b)
    (metrics b) (editReturnsExisting b).

Definition set_timers (v : list nat) (b : Browser) : Browser :=
  mkBrowser
    (heap b) v (nextTimer b) (nextElem b) (styles b) (disposables b)
    (observed b) (saved b) (subscriptions b) (calcSizeCalls b) (setups b)
    (metrics b) (editReturnsExisting b).

Definition set_nextTimer (v : nat) (b : Browser) : Browser :=
  mkBrowser
    (heap b) (timers b) v (nextElem b) (styles b) (disposables b)
    (observed b) (saved b) (subscriptions b) (calcSizeCalls b) (setups b)
    (metrics b) (editReturnsExisting b).

Definition set_nextElem (v : nat) (b : Browser) : Browser :=
  mkBrowser
    (heap b) (timers b) (nextTimer b) v (styles b) (disposables b)
    (observed b) (saved b) (subscriptions b) (calcSizeCalls b) (setups b)
    (metrics b) (editReturnsExisting b).

Definition set_styles (v : list (nat * Style)) (b : Browser) : Browser :=
  mkBrowser
    (heap b) (timers b) (nextTimer b) (nextElem b) v (disposables b)
    (observed b) (saved b) (subscriptions b) (calcSizeCalls b) (setups b)
    (metrics b) (editReturnsExisting b).

Definition set_disposables (v : list nat) (b : Browser) : Browser :=
  mkBrowser
    (heap b) (timers b) (nextTimer b) (nextElem b) (styles b) v
    (observed b) (saved b) (subscriptions b) (calcSizeCalls b) (setups b)
    (metrics b) (editReturnsExisting b).

Definition set_observed (v : option string) (b : Browser) : Browser :=
  mkBrowser
    (heap b) (timers b) (nextTimer b) (nextElem b) (styles b)
    (disposables b) v (saved b) (subscriptions b) (calcSizeCalls b)
    (setups b) (metrics b) (editReturnsExisting b).

Definition set_saved (v : list JS.value) (b : Browser) : Browser :=
  mkBrowser
    (heap b) (timers b) (nextTimer b) (nextElem b) (styles b)
    (disposables b) (observed b) v (subscriptions b) (calcSizeCalls b)
    (setups b) (metrics b) (editReturnsExisting b).

Definition set_subscriptions (v : list nat) (b : Browser) : Browser :=
  mkBrowser
    (heap b) (timers b) (nextTimer b) (nextElem b) (styles b)
    (disposables b) (observed b) (saved b) v (calcSizeCalls b) (setups b)
    (metrics b) (editReturnsExisting b).

Definition set_calcSizeCalls (v : list Size) (b : Browser) : Browser :=
  mkBrowser
    (heap b) (timers b) (nextTimer b) (nextElem b) (styles b)
    (disposables b) (observed b) (saved b) (subscriptions b) v (setups b)
    (metrics b) (editReturnsExisting b).

Definition set_setups (v : nat) (b : Browser) : Browser :=
  mkBrowser
    (heap b) (timers b) (nextTimer b) (nextElem b) (styles b)
    (disposables b) (observed b) (saved b) (subscriptions b)
    (calcSizeCalls b) v (metrics b) (editReturnsExisting b).

End Setters.

(* ===================================================================== *)
(** ** Statements that change the state and may throw *)
(* ===================================================================== *)

(** How a call ends: it returns a value or throws, and either way leaves the
    state it has reached. *)
Inductive outcome (A : Type) : Type :=
| Returns (a : A) (s : state)
| Throws (e : JS.exn) (s : state).

Arguments Returns {A} a s.
Arguments Throws {A} e s.

Definition M (A : Type) : Type := state -> outcome A.

Definition ret {A} (a : A) : M A := fun s => Returns a s.

Definition bind {A B} (m : M A) (k : A -> M B) : M B :=
  fun s =>
    match m s with
    | Returns a s' => k a s'
    | Throws e s' => Throws e s'
    end.

Definition throw {A} (e : JS.exn) : M A := fun s => Throws e s.

Definition this : M AceEditor := fun s => Returns (self s) s.
Definition window : M Browser := fun s => Returns (browser s) s.

Definition assign (f : AceEditor -> AceEditor) : M unit :=
  fun s => Returns tt (mkState (f (self s)) (browser s)).

Definition effect (f : Browser -> Browser) : M unit :=
  fun s => Returns tt (mkState (self s) (f (browser s))).

Declare Scope js_scope.
Delimit Scope js_scope with js.
Notation "x <- m ;; k" := (bind m (fun x => k))
  (at level 100, m at next level, right associativity) : js_scope.
Notation "m ;; k" := (bind m (fun _ => k))
  (at level 100, right associativity) : js_scope.
Local Open Scope js_scope.

(** The state a call leaves behind, whichever way it ended. *)
Definition final {A} (o : outcome A) : state :=
  match o with
  | Returns _ s => s
  | Throws _ s => s
  end.

(** Dereferencing a field that may hold [null]: reading a property of
    [null] is a [TypeError]. *)
Definition deref {A} (what : string) (field : option A) : M A :=
  match field with
  | Some a => ret a
  | None => throw (JS.TypeError what)
  end.

(** The editor object a reference stands for. *)
Definition load (r : nat) : M Ace.Editor :=
  b <- window ;;
  deref "dangling editor reference" (heap b !! r).

(** A method of the widget that changes it in place. *)
Definition update (r : nat) (f : Ace.Editor -> Ace.Editor) : M unit :=
  e <- load r ;;
  effect (fun b => set_heap (<[r := f e]> (heap b)) b).

(* ===================================================================== *)
(** ** The methods of [AceEditor] *)
(* ===================================================================== *)

(** The [options] argument of the constructor. A property that is absent
    reads as [undefined] ([None] for the object-valued ones). *)
Record Options : Type := mkOptions {
  opt_observable : option nat;
  opt_saveValueOnBlurEvent : JS.value;
  opt_calcSize : option CalcSize;
  opt_gristDoc : option nat
}.

(** [function AceEditor(options)]; the argument itself may be missing. *)
Definition new_AceEditor (options : option Options) : AceEditor :=
  {| observable :=
       match options with Some o => opt_observable o | None => None end;
     saveValueOnBlurEvent :=
       negb match options with
            | Some o => JS.strictly_false (opt_saveValueOnBlurEvent o)
            | None => false
            end;
     calcSize :=
       match options with
       | Some o => default identityCalcSize (opt_calcSize o)
       | None => identityCalcSize
       end;
     gristDoc :=
       match options with Some o => opt_gristDoc o | None => None end;
     editor := None;
     editorDom := None;
     session := None;
     _fullDom := None;
     _setupCallback := None;
     _setupTimer := None;
     textPadding := 10 |}.

(** A page in which nothing has happened yet. *)
Definition new_Browser (m : Metrics) (reuse : bool) (held : option string)
    : Browser :=
  {| heap := []; timers := []; nextTimer := 1; nextElem := 0; styles := [];
     disposables := []; observed := held; saved := []; subscriptions := [];
     calcSizeCalls := []; setups := 0; metrics := m;
     editReturnsExisting := reuse |}.

Definition getEditor : M (option nat) :=
  o <- this ;; ret (editor o).

(** [return this.editor && this.editor.getValue();] *)
Definition getValue : M JS.value :=
  o <- this ;;
  match editor o with
  | None => ret JS.Null
  | Some r => e <- load r ;; ret (JS.Str (Ace.getValue e))
  end.

(** [modelUtil.setSaveValue] belongs to a module outside the excerpt; the
    call and the value handed to it are recorded. *)
Definition writeObservable : M unit :=
  o <- this ;;
  match observable o with
  | Some _ =>
      v <- getValue ;;
      effect (fun b => set_saved (saved b ++ [v]) b)
  | None => ret tt
  end.

Definition isBuilt : M bool :=
  o <- this ;;
  ret match editor o with None => false | Some _ => true end.

Definition _getContentWidth : M Z :=
  o <- this ;;
  s <- deref "this.session is null" (session o) ;;
  se <- load s ;;
  r <- deref "this.editor is null" (editor o) ;;
  e <- load r ;;
  b <- window ;;
  ret (getScreenWidth (metrics b) se * characterWidth (metrics b) e).

Definition _getContentHeight : M Z :=
  o <- this ;;
  s <- deref "this.session is null" (session o) ;;
  se <- load s ;;
  r <- deref "this.editor is null" (editor o) ;;
  e <- load r ;;
  b <- window ;;
  ret (Z.max 1 (getScreenLength (metrics b) se) * lineHeight (metrics b) e).

(** [this.calcSize(this._fullDom, desiredSize)]: the size returned and the
    content of [desiredSize] afterwards. *)
Definition call_calcSize (desiredSize : Size) : M (Size * Size) :=
  o <- this ;;
  effect (fun b => set_calcSizeCalls (calcSizeCalls b ++ [desiredSize]) b) ;;
  ret (calcSize o (_fullDom o) desiredSize).

Definition resize : M unit :=
  o <- this ;;
  s <- deref "this.session is null" (session o) ;;
  se <- load s ;;
  let wrap := Ace.useWrapMode se in
  contentWidth <- (if wrap then ret 0 else _getContentWidth) ;;
  h <- _getContentHeight ;;
  let desiredSize :=
    mkSize (if wrap then 0 else contentWidth + textPadding o) h in
  first <- call_calcSize desiredSize ;;
  let desiredSize := snd first in
  size <- (if width (fst first) <? contentWidth then
             let desiredSize :=
               mkSize (width desiredSize) (height desiredSize + 20) in
             second <- call_calcSize desiredSize ;;
             ret (fst second)
           else ret (fst first)) ;;
  d <- deref "this.editorDom is null" (editorDom o) ;;
  effect (fun b =>
    set_styles
      ((d, mkStyle (if width size =? 0 then None else Some (width size))
                   (height size)) :: styles b) b) ;;
  r <- deref "this.editor is null" (editor o) ;;
  _ <- load r ;;
  ret tt.

(** Calling the listeners of an event in the order they were added. *)
Fixpoint fire (listeners : list Ace.listener) : M unit :=
  match listeners with
  | [] => ret tt
  | Ace.Resize :: more => resize ;; fire more
  | Ace.WriteObservable :: more => writeObservable ;; fire more
  end.

Definition emit_change (r : nat) : M unit :=
  e <- load r ;; fire (Ace.onChange e).

Definition emit_blur (r : nat) : M unit :=
  e <- load r ;; fire (Ace.onBlur e).

(** The widget's own [editor.setValue(val, cursorPos)]: the old text is
    removed, the new one inserted (each step announces a change unless it
    changes nothing), then the cursor is placed. *)
Definition editor_setValue (r : nat) (val : string) (cursorPos : Z) : M unit :=
  e <- load r ;;
  match Ace.lines e with
  | [EmptyString] => ret tt
  | _ => update r Ace.removeAll ;; emit_change r
  end ;;
  update r (Ace.insertText val) ;;
  match val with
  | EmptyString => ret tt
  | String _ _ => emit_change r
  end ;;
  update r (Ace.navigate cursorPos).

Definition setValue (val : string) (optCursorPos : option Z) : M unit :=
  o <- this ;;
  r <- deref "this.editor is null" (editor o) ;;
  editor_setValue r val match optCursorPos with Some 0 => -1 | _ => 1 end ;;
  match optCursorPos with
  | Some p =>
      if (0 <? p) && (p <? Z.of_nat (String.length val)) then
        o <- this ;;
        s <- deref "this.session is null" (session o) ;;
        d <- load s ;;
        let pos := Ace.indexToPosition d (Z.to_nat p) in
        r <- deref "this.editor is null" (editor o) ;;
        update r (Ace.moveCursorTo (Ace.row pos) (Ace.column pos))
      else ret tt
  | None => ret tt
  end.

(** [enable(bool)]; [gotoLine(Infinity, Infinity)] ends behind the last
    character and drops the selection. *)
Definition enable (flag : bool) : M unit :=
  o <- this ;;
  r <- deref "this.editor is null" (editor o) ;;
  update r (Ace.protect (negb flag) (if flag then 100 else 0)) ;;
  e <- load r ;;
  update r (Ace.moveCursorTo (length (Ace.lines e)) 0).

(** A command group: [knownKeys] maps a key to the name of its command. *)
Definition CommandGroup : Type := list (string * string).

Definition groupCommand (key command : string) : Ace.command :=
  Ace.Command command key key "editor|cli" (Ace.ExecGroupCommand command).

Fixpoint attachCommands (r : nat) (knownKeys : CommandGroup) : M unit :=
  match knownKeys with
  | [] => ret tt
  | (key, command) :: more =>
      update r (Ace.addCommand (groupCommand key command)) ;;
      attachCommands r more
  end.

Definition attachCommandGroup (commandGroup : CommandGroup) : M unit :=
  match commandGroup with
  | [] => ret tt
  | _ :: _ =>
      o <- this ;;
      r <- deref "this.editor is null" (editor o) ;;
      attachCommands r commandGroup
  end.

Definition saveFormula : Ace.command :=
  Ace.Command "saveFormula" "Shift+Enter" "Shift+Enter" "editor|cli"
    Ace.ExecWriteObservable.

Definition attachSaveCommand : M unit :=
  o <- this ;;
  match observable o with
  | None =>
      throw (JS.Error
        "Cannot attach save command to editor with no bound observable")
  | Some _ =>
      r <- deref "this.editor is null" (editor o) ;;
      update r (Ace.addCommand saveFormula)
  end.

(** [parseInt(contentWidth/characterWidth, 10) - 1]: the quotient is a
    double, [parseInt] reads the digits its string starts with, and [NaN]
    less one is [NaN]. *)
Definition wrapLimit (contentWidth characterWidth : Z) : JS.value :=
  match
    JS.parseInt
      (JS.divide (JS.number_of contentWidth) (JS.number_of characterWidth))
  with
  | Some n =>
      JS.Num (JS.integer_of (JS.subtract (JS.number_of n) (JS.number_of 1)))
  | None => JS.NaN
  end.

Definition adjustContentToWidth : M unit :=
  o <- this ;;
  r <- deref "this.editor is null" (editor o) ;;
  e <- load r ;;
  b <- window ;;
  let characterWidth := characterWidth (metrics b) e in
  let contentWidth := clientWidth (metrics b) e in
  if 0 <? contentWidth then
    update r (Ace.configure "wrapLimit" (wrapLimit contentWidth characterWidth))
  else ret tt.

Definition setFontSize (pxVal : Z) : M unit :=
  o <- this ;;
  r <- deref "this.editor is null" (editor o) ;;
  update r (Ace.setFontSize pxVal) ;;
  resize.

(** [ace.edit(el)]. A new editor takes the next free slot of the heap. When
    the element already carries an editor, the library either returns that
    one or builds another, depending on [editReturnsExisting]; without an
    element it makes one of its own. *)
Fixpoint hosted (el : nat) (r : nat) (editors : list Ace.Editor) : option nat :=
  match editors with
  | [] => None
  | e :: more =>
      if (Ace.container e =? el)%nat then Some r else hosted el (S r) more
  end.

Definition allocate (el : nat) : M nat :=
  b <- window ;;
  effect (fun b => set_heap (heap b ++ [Ace.create el]) b) ;;
  ret (length (heap b)).

Definition ace_edit (el : option nat) : M nat :=
  b <- window ;;
  match el with
  | Some el =>
      match hosted el 0 (heap b) with
      | Some r => if editReturnsExisting b then ret r else allocate el
      | None => allocate el
      end
  | None =>
      effect (set_nextElem (S (nextElem b))) ;;
      allocate (nextElem b)
  end.

Definition _setup : M unit :=
  effect (fun b => set_setups (S (setups b)) b) ;;
  (* Standard editor setup *)
  o <- this ;;
  r <- ace_edit (editorDom o) ;;
  effect (fun b => set_disposables (disposables b ++ [r]) b) ;;
  assign (set_editor (Some r)) ;;
  match gristDoc o with
  | Some _ => update r (Ace.configure "completers" (JS.Str "getSuggestions"))
  | None => ret tt
  end ;;
  update r (Ace.configure "enableLiveAutocompletion" (JS.Bool true)) ;;
  assign (set_session (Some r)) ;;
  update r (Ace.configure "mode" (JS.Str "ace/mode/python")) ;;
  update r (Ace.configure "theme" (JS.Str "ace/theme/chrome")) ;;
  (* Default line numbers to hidden *)
  update r (Ace.configure "showGutter" (JS.Bool false)) ;;
  update r (Ace.configure "tabSize" (JS.Num 2)) ;;
  update r (Ace.setUseWrapMode true) ;;
  update r (Ace.on_change Ace.Resize) ;;
  update r (Ace.configure "$blockScrolling" (JS.Str "Infinity")) ;;
  update r (Ace.setFontSize 11) ;;
  resize ;;
  (* Set up the bound observable if supplied *)
  o <- this ;;
  match observable o with
  | Some _ =>
      b <- window ;;
      match observed b with
      | Some val => setValue val None
      | None => ret tt
      end ;;
      d <- deref "dom(null, ...)" (editorDom o) ;;
      effect (fun b => set_subscriptions (subscriptions b ++ [d]) b) ;;
      if saveValueOnBlurEvent o then update r (Ace.on_blur Ace.WriteObservable)
      else ret tt
  | None => ret tt
  end ;;
  o <- this ;;
  match _setupCallback o with
  | Some callback =>
      update r callback ;;
      assign (set_setupCallback None)
  | None => ret tt
  end.

(** [buildDom(optSetupCallback)]: two fresh elements, the inner one first,
    and a timer that will run [_setup]. Returns the outer element. *)
Definition buildDom (optSetupCallback : option (Ace.Editor -> Ace.Editor))
    : M nat :=
  b <- window ;;
  let inner := nextElem b in
  let outer := S inner in
  effect (set_nextElem (S outer)) ;;
  assign (set_editorDom (Some inner)) ;;
  assign (set_fullDom (Some outer)) ;;
  assign (set_setupCallback optSetupCallback) ;;
  b <- window ;;
  let t := nextTimer b in
  effect (fun b => set_nextTimer (S t) (set_timers (timers b ++ [t]) b)) ;;
  assign (set_setupTimer (Some t)) ;;
  ret outer.

Definition clearTimeout (t : nat) : M unit :=
  effect (fun b =>
    set_timers (List.filter (fun t' => negb (t' =? t)%nat) (timers b)) b).

(** [if (this._setupTimer)]: a timer handle is a number, truthy unless 0. *)
Definition onAttach : M unit :=
  o <- this ;;
  match _setupTimer o with
  | Some (S _ as t) =>
      clearTimeout t ;;
      assign (set_setupTimer None) ;;
      _setup
  | _ => ret tt
  end.

(** *** What the browser does to the instance *)

(** The timer [t] expires: its callback, [() => this._setup()], runs once. *)
Definition timeout (t : nat) : M unit :=
  b <- window ;;
  if existsb (Nat.eqb t) (timers b) then clearTimeout t ;; _setup
  else ret tt.

(** The editor loses the focus. *)
Definition blur : M unit :=
  o <- this ;;
  match editor o with
  | Some r => emit_blur r
  | None => ret tt
  end.

(** The bound observable takes a new value; every subscription made by
    [_setup] runs [val => {if (val !== undefined) {this.setValue(val);}}]. *)
Fixpoint notify (subscribers : list nat) (val : option string) : M unit :=
  match subscribers with
  | [] => ret tt
  | _ :: more =>
      match val with
      | Some v => setValue v None
      | None => ret tt
      end ;;
      notify more val
  end.

Definition changed (val : option string) : M unit :=
  effect (set_observed val) ;;
  b <- window ;;
  notify (subscriptions b) val.

(** The user edits the text: the document holds [text] afterwards and the
    change is announced. *)
Definition typed (text : string) : M unit :=
  o <- this ;;
  match editor o with
  | Some r => update r (Ace.insertText text) ;; emit_change r
  | None => ret tt
  end.

(** *** Lifetimes *)

(** What can happen to an instance between its construction and its
    disposal: a call of one of its methods, or one of the events above. *)
Inductive action : Type :=
| BuildDom (optSetupCallback : option (Ace.Editor -> Ace.Editor))
| OnAttach
| WriteObservable
| GetEditor
| GetValue
| SetValue (val : string) (optCursorPos : option Z)
| IsBuilt
| Enable (flag : bool)
| AttachCommandGroup (commandGroup : CommandGroup)
| AttachSaveCommand
| AdjustContentToWidth
| SetFontSize (pxVal : Z)
| Resize
| Timeout (t : nat)
| Blur
| Changed (val : option string)
| Typed (text : string).

Definition discard {A} (m : M A) : M unit := _ <- m ;; ret tt.

Definition perform (a : action) : M unit :=
  match a with
  | BuildDom cb => discard (buildDom cb)
  | OnAttach => onAttach
  | WriteObservable => writeObservable
  | GetEditor => discard getEditor
  | GetValue => discard getValue
  | SetValue val pos => setValue val pos
  | IsBuilt => discard isBuilt
  | Enable flag => enable flag
  | AttachCommandGroup g => attachCommandGroup g
  | AttachSaveCommand => attachSaveCommand
  | AdjustContentToWidth => adjustContentToWidth
  | SetFontSize px => setFontSize px
  | Resize => resize
  | Timeout t => timeout t
  | Blur => blur
  | Changed val => changed val
  | Typed text => typed text
  end.

(** A lifetime is a sequence of actions. An action that throws ends there,
    and the next one starts from the state it left. *)
Fixpoint run (actions : list action) (s : state) : state :=
  match actions with
  | [] => s
  | a :: more => run more (final (perform a s))
  end.

(** The state right after [new AceEditor(options)]. *)
Definition start (options : option Options) (page : Browser) : state :=
  mkState (new_AceEditor options) page.

(* ===================================================================== *)
(** ** The document settings page *)
(* ===================================================================== *)

Module DocSettings.

(** [EngineCode]; a setting that was never written reads as [undefined],
    here [None]. *)
Inductive EngineCode : Type := python2 | python3.

Definition same_engine (a b : option EngineCode) : bool :=
  match a, b with
  | None, None => true
  | Some python2, Some python2 => true
  | Some python3, Some python3 => true
  | _, _ => false
  end.

(** The calls that leave the page. *)
Inductive request : Type :=
| SaveEngine (val : option EngineCode)   (* prop('engine').saveOnly(val) *)
| ForceReload                            (* getDocAPI(docId).forceReload() *)
| SaveLocale (code : option string)      (* locale.saveOnly(code) *).

(** How a piece of code ends: normally, or with an exception or a
    rejected promise. *)
Inductive completion (A : Type) : Type :=
| Done (a : A)
| Failed (e : JS.exn).

Arguments Done {A} a.
Arguments Failed {A} e.

(** What the page has done so far. *)
Record trace : Type := mkTrace {
  sent : list request;       (* oldest first *)
  reported : list JS.exn     (* what reportError received *)
}.

(** Code that may send requests. [server] tells which requests the other
    side fulfils. *)
Definition Task (A : Type) : Type :=
  (request -> bool) -> trace -> completion A * trace.

Definition pure {A} (a : A) : Task A := fun _ t => (Done a, t).

Definition raise {A} (e : JS.exn) : Task A := fun _ t => (Failed e, t).

(** [await m; k]: a rejection of [m] leaves the function at once. *)
Definition await {A B} (m : Task A) (k : A -> Task B) : Task B :=
  fun server t =>
    match m server t with
    | (Done a, t') => k a server t'
    | (Failed e, t') => (Failed e, t')
    end.

(** Issuing a request; its promise resolves or rejects as the server
    decides. *)
Definition send (r : request) : Task unit :=
  fun server t =>
    (if server r then Done tt else Failed (JS.Error "request failed"),
     mkTrace (sent t ++ [r]) (reported t)).

(** [m.catch(reportError)] *)
Definition catch_report (m : Task unit) : Task unit :=
  fun server t =>
    match m server t with
    | (Done a, t') => (Done a, t')
    | (Failed e, t') => (Done tt, mkTrace (sent t') (reported t' ++ [e]))
    end.

(** [_doSetEngine(val)]; [current] is what [this._engine.get()] returns. *)
Definition _doSetEngine (current val : option EngineCode) : Task unit :=
  if negb (same_engine current val) then
    await (send (SaveEngine val)) (fun _ =>
    await (send ForceReload) (fun _ =>
    pure tt))
  else pure tt.

(** [_setEngine(val)] opens the modal; its callback runs when the user
    confirms. *)
Definition _setEngine (current val : option EngineCode) (confirmed : bool)
    : Task unit :=
  if confirmed then _doSetEngine current val else pure tt.

(** *** The locale picker *)

(** An entry of [locales] in [app/common/Locales]. *)
Record Locale : Type := mkLocale { name : string; code : string }.

Record LocaleItem : Type := mkLocaleItem {
  value : string;
  label : string;
  locale : option string;
  cleanText : string
}.

Section WithEngine.

(** [String.prototype.trim] and [String.prototype.toLowerCase] are the
    engine's own and follow the Unicode tables; the page only applies
    one after the other. *)
Variables trim toLowerCase : string -> string.

Definition toItem (l : Locale) : LocaleItem :=
  {| value := name l;  (* Use name as a value *)
     label := name l;
     locale := Some (code l);
     cleanText := toLowerCase (trim (name l)) |}.

End WithEngine.

(** [.sort(propertyCompare("label"))]: a stable sort by label, strings
    compared code unit by code unit. *)
Fixpoint insertSorted (x : LocaleItem) (sorted : list LocaleItem) : list LocaleItem :=
  match sorted with
  | [] => [x]
  | y :: more =>
      if String.leb (label x) (label y) then x :: sorted
      else y :: insertSorted x more
  end.

Definition sort (items : list LocaleItem) : list LocaleItem :=
  fold_right insertSorted [] items.

(** [locales.map(...).sort(...)] *)
Definition localeList (trim toLowerCase : string -> string)
    (locales : list Locale) : list LocaleItem :=
  sort (map (toItem trim toLowerCase) locales).

Section WithLocales.

Variable locales : list Locale.

(** [textObs]: the name of the locale whose code the setting holds, or
    the code itself when no name is found. *)
Definition textObs (localeCode : string) : string :=
  match find (fun l => String.eqb (code l) localeCode) locales with
  | Some l =>
      match name l with
      | EmptyString => localeCode
      | n => n
      end
  | None => localeCode
  end.

End WithLocales.

(** The [save(_value, item)] handed to [buildACSelect]. *)
Definition save (_value : string) (item : option LocaleItem) : Task unit :=
  match item with
  | None => raise (JS.Error "Invalid locale")
  | Some item => catch_report (send (SaveLocale (locale item)))
  end.

End DocSettings.

(* ===================================================================== *)
(** ** Vocabulary of the properties *)
(* ===================================================================== *)

(** [wp m Q E s]: run from [s], [m] either returns a value and a state that
    satisfy [Q], or throws in a state that satisfies [E]. *)
Definition wp {A} (m : M A) (Q : A -> state -> Prop) (E : state -> Prop)
    (s : state) : Prop :=
  match m s with
  | Returns a s' => Q a s'
  | Throws _ s' => E s'
  end.

(** A built editor: [_setup] has run, so [editor] and [session] refer to an
    editor that exists, and [buildDom] has made the element it sits in. *)
Definition built (s : state) : Prop :=
  exists r d e,
    editor (self s) = Some r /\ session (self s) = Some r /\
    editorDom (self s) = Some d /\ heap (browser s) !! r = Some e.

(** What a call has left alone when it changed neither the fields of the
    instance, nor the number of editors, nor what is registered for
    disposal, nor the pending timers, nor the count of [_setup] runs. *)
Definition ordinary (s s' : state) : Prop :=
  self s' = self s /\
  length (heap (browser s')) = length (heap (browser s)) /\
  disposables (browser s') = disposables (browser s) /\
  timers (browser s') = timers (browser s) /\
  setups (browser s') = setups (browser s).

(** A statement all of whose runs are of that kind, however they end. *)
Definition frames {A} (m : M A) : Prop :=
  forall s, wp m (fun _ s' => ordinary s s') (fun s' => ordinary s s') s.

(** A statement that maintains [I], however it ends. *)
Definition keeps {A} (I : state -> Prop) (m : M A) : Prop :=
  forall s, I s -> wp m (fun _ => I) I s.

(** The instance owns the editor [r]: the editor exists (no method destroys
    one before the instance is disposed of) and is registered for disposal
    with the instance. *)
Definition owns (s : state) (r : nat) : Prop :=
  (r < length (heap (browser s)))%nat /\ In r (disposables (browser s)).

(** What holds between any two actions of a lifetime. *)
Definition consistent (s : state) : Prop :=
  session (self s) = editor (self s) /\
  (forall r, editor (self s) = Some r -> owns s r) /\
  (forall r, (r < length (heap (browser s)))%nat ->
     In r (disposables (browser s))) /\
  (length (heap (browser s)) <= setups (browser s))%nat /\
  (editorDom (self s) = None ->
     editor (self s) = None /\ _setupTimer (self s) = None /\
     timers (browser s) = []).

(** The state [_setup] works in once it has stored the editor [r]. *)
Definition settled (bound : option nat) (n r : nat) (s : state) : Prop :=
  consistent s /\ observable (self s) = bound /\
  setups (browser s) = n /\ editor (self s) = Some r.

(** The actions that may run [_setup]. *)
Definition weight (a : action) : nat :=
  match a with
  | OnAttach | Timeout _ => 1
  | _ => 0
  end.

(** What a lifetime maintains: consistency, the observable bound at
    construction, and a bound on the runs of [_setup]. *)
Definition sound (bound : option nat) (n : nat) (s : state) : Prop :=
  consistent s /\ observable (self s) = bound /\
  (setups (browser s) <= n)%nat.

(** The same as a test. *)
Definition is_built (s : state) : bool :=
  match editor (self s), session (self s), editorDom (self s) with
  | Some r, Some r', Some _ =>
      (r =? r')%nat &&
      match heap (browser s) !! r with Some _ => true | None => false end
  | _, _, _ => false
  end.

(** Control characters: the codes below 32, and 127. *)
Definition is_control (c : ascii) : bool :=
  ((nat_of_ascii c <? 32) || (nat_of_ascii c =? 127))%nat.

Fixpoint no_control (text : string) : bool :=
  match text with
  | EmptyString => true
  | String c rest => negb (is_control c) && no_control rest
  end.

(** No carriage return in the text: its line breaks are line feeds. *)
Fixpoint no_CR (text : string) : bool :=
  match text with
  | EmptyString => true
  | String c rest => negb (Ace.is_CR c) && no_CR rest
  end.

(** The length of the text a list of lines stands for. *)
Fixpoint extent (newLineLength : nat) (lines : list string) : nat :=
  match lines with
  | [] => 0%nat
  | [line] => String.length line
  | line :: more =>
      (String.length line + newLineLength + extent newLineLength more)%nat
  end.

(** No line break in the text. *)
Fixpoint no_break (text : string) : bool :=
  match text with
  | EmptyString => true
  | String c rest => negb (Ace.is_LF c) && negb (Ace.is_CR c) && no_break rest
  end.

(** The state after some listeners have run: they assign styles, call
    [calcSize] and push values to the observable, nothing else. *)
Definition repaint (st : list (nat * Style)) (cs : list Size)
    (sv : list JS.value) (s : state) : state :=
  mkState (self s)
    (set_saved sv (set_styles st (set_calcSizeCalls cs (browser s)))).

(** The state after the widget's [setValue]: the editor [r] holds the new
    document, and the listeners have run. *)
Definition rewritten (r : nat) (e' : Ace.Editor) st cs sv (s : state) : state :=
  mkState (self s)
    (set_heap (<[r := e']> (heap (browser s))) (browser (repaint st cs sv s))).

(** The row and the column of the character with index [p] of a text,
    counted from [row] and [col]: a line feed, a carriage return and the
    two in a row each end a row once. *)
Fixpoint position_of_index (val : string) (row col p : nat) : Ace.position :=
  match p, val with
  | S p', String c rest =>
      if Ace.is_LF c then position_of_index rest (S row) 0 p'
      else if Ace.is_CR c then
        match rest with
        | String c' _ =>
            if Ace.is_LF c' then position_of_index rest row (S col) p'
            else position_of_index rest (S row) 0 p'
        | EmptyString => position_of_index rest (S row) 0 p'
        end
      else position_of_index rest row (S col) p'
  | _, _ => Ace.Position row col
  end.

(** The editor after the wrapper's [setValue(val, optCursorPos)]. *)
Definition placed (val : string) (optCursorPos : option Z) (e : Ace.Editor)
    : Ace.Editor :=
  let e1 :=
    Ace.navigate match optCursorPos with Some 0 => -1 | _ => 1 end
      (Ace.insertText val e) in
  match optCursorPos with
  | Some p =>
      if (0 <? p) && (p <? Z.of_nat (String.length val)) then
        let pos := Ace.indexToPosition e1 (Z.to_nat p) in
        Ace.moveCursorTo (Ace.row pos) (Ace.column pos) e1
      else e1
  | None => e1
  end.

(** A renderer with a fixed-width font, for the examples: a character is 7
    wide, a line 14 high, and the screen shows every line in full. *)
Definition monospace : Metrics :=
  {| getScreenWidth := fun e =>
       Z.of_nat (list_max (map String.length (Ace.lines e)));
     getScreenLength := fun e => Z.of_nat (length (Ace.lines e));
     characterWidth := fun _ => 7;
     lineHeight := fun _ => 14;
     clientWidth := fun _ => 280 |}.

(** An instance bound to an observable that holds a formula, built and set
    up by the timer. *)
Definition formula_options : Options :=
  {| opt_observable := Some 0%nat; opt_saveValueOnBlurEvent := JS.Undefined;
     opt_calcSize := None; opt_gristDoc := None |}.

Definition formula_editor : state :=
  run [BuildDom None; Timeout 1]
    (start (Some formula_options) (new_Browser monospace true (Some "$A + 1"))).

(* ===================================================================== *)
(** ** Vocabulary of the further properties *)
(* ===================================================================== *)

(** Two states with an ordinary call between them that left [view] of
    every editor as it was. *)
Definition alike {V} (view : Ace.Editor -> V) (s s' : state) : Prop :=
  ordinary s s' /\
  map view (heap (browser s')) = map view (heap (browser s)).

(** A statement that, run on a built editor whose fields are [o], returns
    and leaves [view] of every editor alone. *)
Definition calm_at {V A} (view : Ace.Editor -> V) (o : AceEditor) (m : M A)
    : Prop :=
  forall s, built s -> self s = o ->
    wp m (fun _ s' => alike view s s') (fun _ => False) s.

(** Nothing of an editor. *)
Definition nothing (e : Ace.Editor) : unit := tt.

(** The document of an editor: its lines and the line break that joins
    them. *)
Definition document (e : Ace.Editor) : list string * string :=
  (Ace.lines e, Ace.autoNewLine e).

(** What [_setup] changes besides the editors. *)
Definition set_up (d : nat) (s s' : state) : Prop :=
  built s' /\
  editorDom (self s') = Some d /\
  _setupCallback (self s') = None /\
  observable (self s') = observable (self s) /\
  saveValueOnBlurEvent (self s') = saveValueOnBlurEvent (self s) /\
  _setupTimer (self s') = _setupTimer (self s) /\
  timers (browser s') = timers (browser s) /\
  setups (browser s') = S (setups (browser s)) /\
  (length (heap (browser s)) <= length (heap (browser s')))%nat /\
  (length (heap (browser s')) <= S (length (heap (browser s))))%nat.

(** The methods that use [this.editor] or [this.session] without a test. *)
Definition needs_editor (a : action) : bool :=
  match a with
  | SetValue _ _ | Enable _ | AttachCommandGroup (_ :: _)
  | AdjustContentToWidth | SetFontSize _ | Resize => true
  | _ => false
  end.

(** The actions that may change the text of the editor: the three that
    write it, and the two that may run [_setup]. *)
Definition edits (a : action) : bool :=
  match a with
  | SetValue _ _ | Changed (Some _) | Typed _ | OnAttach | Timeout _ => true
  | _ => false
  end.

(** Where an editor sits, what listens to it, and whether it wraps. *)
Definition wiring (e : Ace.Editor)
    : nat * list Ace.listener * list Ace.listener * bool :=
  (Ace.container e, Ace.onChange e, Ace.onBlur e, Ace.useWrapMode e).



(** The instance of [formula_editor] before its timer expires. *)
Definition formula_pending : state :=
  run [BuildDom None]
    (start (Some formula_options) (new_Browser monospace true (Some "$A + 1"))).

(** While following a statement: the fields of the instance are [o], the
    editor [r] is [e], and the observable holds [held]. *)
Definition holds (o : AceEditor) (r : nat) (e : Ace.Editor)
    (held : option string) (s : state) : Prop :=
  self s = o /\ heap (browser s) !! r = Some e /\ observed (browser s) = held.

(** What [_setup] makes of the editor [ace.edit] hands to it, for an
    instance with the fields [o] whose observable holds [held]. *)
Definition configured (o : AceEditor) (held : option string)
    (e : Ace.Editor) : Ace.Editor :=
  let e :=
    match gristDoc o with
    | Some _ => Ace.configure "completers" (JS.Str "getSuggestions") e
    | None => e
    end in
  let e := Ace.configure "enableLiveAutocompletion" (JS.Bool true) e in
  let e := Ace.configure "mode" (JS.Str "ace/mode/python") e in
  let e := Ace.configure "theme" (JS.Str "ace/theme/chrome") e in
  let e := Ace.configure "showGutter" (JS.Bool false) e in
  let e := Ace.configure "tabSize" (JS.Num 2) e in
  let e := Ace.setUseWrapMode true e in
  let e := Ace.on_change Ace.Resize e in
  let e := Ace.configure "$blockScrolling" (JS.Str "Infinity") e in
  let e := Ace.setFontSize 11 e in
  let e :=
    match observable o with
    | Some _ =>
        let e := match held with Some val => placed val None e | None => e end in
        if saveValueOnBlurEvent o then Ace.on_blur Ace.WriteObservable e else e
    | None => e
    end in
  match _setupCallback o with
  | Some callback => callback e
  | None => e
  end.

(** The editor after [attachCommands]: the commands of the group added in
    turn. *)
Definition attached (knownKeys : CommandGroup) (e : Ace.Editor) : Ace.Editor :=
  fold_left (fun e kc => Ace.addCommand (groupCommand (fst kc) (snd kc)) e)
    knownKeys e.

(** What the constructor takes from its options, and the padding. *)
Definition options_of (o : AceEditor)
    : option nat * bool * CalcSize * option nat * Z :=
  (observable o, saveValueOnBlurEvent o, calcSize o, gristDoc o, textPadding o).

(** The instance still has the options [c]. *)
Definition steady (c : option nat * bool * CalcSize * option nat * Z)
    (s : state) : Prop :=
  options_of (self s) = c.

(** Every action of the sequence returns, each run in the state the one
    before has left. *)
Fixpoint all_return (actions : list action) (s : state) : Prop :=
  match actions with
  | [] => True
  | a :: more => exists s', perform a s = Returns tt s' /\ all_return more s'
  end.

(* ===================================================================== *)
(** ** [AceEditor.makeRange] *)
(* ===================================================================== *)

Module RangeLoader.

(** A [Range] object: the constructor that made it, and its arguments. *)
Record Range : Type := mkRange {
  made_by : nat;
  startRow : Z;
  startColumn : Z;
  endRow : Z;
  endColumn : Z
}.

(** The variable [_RangeConstructor] of the module, and how often
    [ace.acequire] has been called. *)
Record Loader : Type := mkLoader {
  _RangeConstructor : option nat;
  acequired : nat
}.

(** [let _RangeConstructor = null;] *)
Definition initial : Loader := mkLoader None 0.

(** [AceEditor.makeRange(a, b, c, d)]; [constructors n] is the [Range]
    that call number [n] of [ace.acequire('ace/range')] returns. A
    constructor is a function, hence truthy. *)
Definition makeRange (constructors : nat -> nat) (a b c d : Z) (w : Loader)
    : Range * Loader :=
  match _RangeConstructor w with
  | Some k => (mkRange k a b c d, mkLoader (Some k) (acequired w))
  | None =>
      let k := constructors (acequired w) in
      (mkRange k a b c d, mkLoader (Some k) (S (acequired w)))
  end.

(** One call after the other. *)
Fixpoint makeRanges (constructors : nat -> nat) (calls : list (Z * Z * Z * Z))
    (w : Loader) : list Range * Loader :=
  match calls with
  | [] => ([], w)
  | (a, b, c, d) :: more =>
      let (first, w') := makeRange constructors a b c d w in
      let (rest, w'') := makeRanges constructors more w' in
      (first :: rest, w'')
  end.

End RangeLoader.


(* ===================================================================== *)
(** ** Properties of the settings page *)
(* ===================================================================== *)

Section SettingsFacts.

Import DocSettings.

Lemma same_engine_eq (a b : option EngineCode) :
  same_engine a b = true <-> a = b.
Proof.
  destruct a as [[|]|], b as [[|]|]; simpl; split; congruence.
Qed.

Lemma same_engine_neq (a b : option EngineCode) :
  same_engine a b = false <-> a <> b.
Proof.
  rewrite <- same_engine_eq. destruct (same_engine a b); split; congruence.
Qed.

(** Declining the modal sends nothing. *)
Lemma setEngine_declined current val server t :
  _setEngine current val false server t = (Done tt, t).
Proof. reflexivity. Qed.

(** C1, as the code has it. Once the user has confirmed: an engine equal
    to the stored one leaves the trace untouched; a different one sends
    one save of the engine setting, and one [forceReload] after it when
    the save succeeded, nothing after it when the save failed. *)
Theorem setEngine_requests current val server t :
  let t' := snd (_setEngine current val true server t) in
  (current = val -> t' = t) /\
  (current <> val -> server (SaveEngine val) = true ->
     sent t' = sent t ++ [SaveEngine val; ForceReload]) /\
  (current <> val -> server (SaveEngine val) = false ->
     sent t' = sent t ++ [SaveEngine val]).
Proof.
  unfold _setEngine, _doSetEngine. repeat split.
  - intros ->. now rewrite (proj2 (same_engine_eq val val) eq_refl).
  - intros Hne Hok. apply same_engine_neq in Hne. rewrite Hne. simpl.
    unfold await, send. rewrite Hok. simpl.
    destruct (server ForceReload); simpl; now rewrite <- app_assoc.
  - intros Hne Hko. apply same_engine_neq in Hne. rewrite Hne. simpl.
    unfold await, send. now rewrite Hko.
Qed.

Lemma setEngine_requests_witness :
  sent (snd (_setEngine (Some python2) (Some python3) true (fun _ => true)
               (mkTrace [] [])))
  = [SaveEngine (Some python3); ForceReload].
Proof.
  apply (proj1 (proj2 (setEngine_requests (Some python2) (Some python3)
                         (fun _ => true) (mkTrace [] [])))).
  - discriminate.
  - reflexivity.
Defined.

(** C1 as worded does not hold: when the save of the engine setting is
    rejected, the save is the only request and no reload follows. *)
Lemma setEngine_save_rejected :
  let server := fun r => match r with SaveEngine _ => false | _ => true end in
  let t' := snd (_setEngine (Some python2) (Some python3) true server
                   (mkTrace [] [])) in
  Some python2 <> Some python3 /\
  sent t' = [SaveEngine (Some python3)] /\
  sent t' <> [SaveEngine (Some python3); ForceReload].
Proof. repeat split; discriminate. Qed.

(** Sorting keeps the items. *)
Lemma In_insertSorted x y l : In x (insertSorted y l) <-> x = y \/ In x l.
Proof.
  induction l as [|z l IH]; simpl.
  - intuition.
  - destruct (String.leb (label y) (label z)); simpl; rewrite ?IH; intuition.
Qed.

Lemma In_sort x l : In x (sort l) <-> In x l.
Proof.
  unfold sort. induction l as [|y l IH]; simpl.
  - tauto.
  - rewrite In_insertSorted, IH. intuition.
Qed.

Lemma sort_length l : length (sort l) = length l.
Proof.
  unfold sort. induction l as [|y l IH]; simpl; [reflexivity|].
  rewrite <- IH. generalize (fold_right insertSorted [] l) as s.
  induction s as [|z s IHs]; simpl; [reflexivity|].
  destruct (String.leb (label y) (label z)); simpl; congruence.
Qed.

(** C5. Every locale of the list has an entry in the picker that shows
    its name; when that entry is the one selected, the save handler sends
    one save of the locale setting carrying the locale's code, and does
    not throw. *)
Theorem locale_saved_by_code (trim toLowerCase : string -> string)
    (locales : list Locale) (l : Locale) :
  In l locales ->
  exists item,
    In item (localeList trim toLowerCase locales) /\
    label item = name l /\
    value item = name l /\
    forall server t,
      let r := save (value item) (Some item) server t in
      fst r = Done tt /\
      sent (snd r) = sent t ++ [SaveLocale (Some (code l))].
Proof.
  intros Hin. exists (toItem trim toLowerCase l). repeat split.
  - apply In_sort, in_map, Hin.
  - unfold save, catch_report, send. simpl. now destruct (server _).
  - unfold save, catch_report, send. simpl. now destruct (server _).
Qed.

Lemma locale_saved_by_code_witness :
  exists item,
    In item (localeList (fun s => s) (fun s => s)
               [mkLocale "Deutschland (Deutsch)" "de-DE";
                mkLocale "Canada (English)" "en-CA"]) /\
    label item = "Canada (English)" /\
    value item = "Canada (English)" /\
    forall server t,
      let r := save (value item) (Some item) server t in
      fst r = Done tt /\
      sent (snd r) = sent t ++ [SaveLocale (Some "en-CA")].
Proof.
  apply (locale_saved_by_code (fun s => s) (fun s => s)
           [mkLocale "Deutschland (Deutsch)" "de-DE";
            mkLocale "Canada (English)" "en-CA"]
           (mkLocale "Canada (English)" "en-CA")).
  simpl. right. left. reflexivity.
Defined.

(** When no two locales share a name, the entry found under a locale's
    name is that locale's, so looking the entry up by the name shown gives
    the same code. *)
Lemma same_name_same_locale (locales : list Locale) (l l' : Locale) :
  List.NoDup (map name locales) ->
  In l locales -> In l' locales -> name l = name l' -> l = l'.
Proof.
  induction locales as [|x more IH]; simpl; [tauto|].
  intros Hnodup [->|Hl] [->|Hl'] Hname; auto.
  - inversion Hnodup as [|? ? Hnotin _]; subst. exfalso. apply Hnotin.
    rewrite Hname. now apply in_map.
  - inversion Hnodup as [|? ? Hnotin _]; subst. exfalso. apply Hnotin.
    rewrite <- Hname. now apply in_map.
  - inversion Hnodup; subst. auto.
Qed.

Lemma locale_found_by_name (trim toLowerCase : string -> string)
    (locales : list Locale) (l : Locale) item :
  List.NoDup (map name locales) ->
  In l locales ->
  In item (localeList trim toLowerCase locales) -> label item = name l ->
  locale item = Some (code l).
Proof.
  intros Hnodup Hl Hitem Hlabel.
  apply In_sort, in_map_iff in Hitem as (l' & <- & Hl').
  simpl in Hlabel.
  now rewrite (same_name_same_locale locales l' l Hnodup Hl' Hl Hlabel).
Qed.

(** C6. Without an item the save handler throws and sends nothing. *)
Theorem locale_missing_item_throws (v : string) server t :
  save v None server t = (Failed (JS.Error "Invalid locale"), t).
Proof. reflexivity. Qed.

End SettingsFacts.

(* ===================================================================== *)
(** ** Reasoning about statements *)
(* ===================================================================== *)

Section Logic.

Context {A : Type}.


Lemma wp_mono (m : M A) (Q Q' : A -> state -> Prop) (E E' : state -> Prop) s :
  wp m Q E s ->
  (forall a s', Q a s' -> Q' a s') ->
  (forall s', E s' -> E' s') ->
  wp m Q' E' s.
Proof. unfold wp. destruct (m s); auto. Qed.

Lemma wp_ret (a : A) Q E s : Q a s -> wp (ret a) Q E s.
Proof. exact id. Qed.

Lemma wp_throw e Q E s : E s -> wp (throw e : M A) Q E s.
Proof. exact id. Qed.

Lemma wp_deref what (field : option A) Q E s :
  (forall a, field = Some a -> Q a s) ->
  (field = None -> E s) ->
  wp (deref what field) Q E s.
Proof. destruct field; unfold wp; simpl; auto. Qed.

(** A call that cannot throw yields its result. *)
Lemma wp_returns (m : M A) Q s :
  wp m Q (fun _ => False) s -> exists a s', m s = Returns a s' /\ Q a s'.
Proof. unfold wp. destruct (m s); [eauto | tauto]. Qed.

Lemma wp_final (m : M A) (I : state -> Prop) s :
  wp m (fun _ => I) I s -> I (final (m s)).
Proof. unfold wp. now destruct (m s). Qed.

End Logic.

Lemma wp_bind {A B} (m : M A) (k : A -> M B) Q E s :
  wp m (fun a s' => wp (k a) Q E s') E s -> wp (bind m k) Q E s.
Proof. unfold wp, bind. now destruct (m s). Qed.

Lemma wp_this Q E s : Q (self s) s -> wp this Q E s.
Proof. exact id. Qed.

Lemma wp_window Q E s : Q (browser s) s -> wp window Q E s.
Proof. exact id. Qed.

Lemma wp_assign f (Q : unit -> state -> Prop) E s :
  Q tt (mkState (f (self s)) (browser s)) -> wp (assign f) Q E s.
Proof. exact id. Qed.

Lemma wp_effect f (Q : unit -> state -> Prop) E s :
  Q tt (mkState (self s) (f (browser s))) -> wp (effect f) Q E s.
Proof. exact id. Qed.

Lemma wp_load r Q E s :
  (forall e, heap (browser s) !! r = Some e -> Q e s) ->
  (heap (browser s) !! r = None -> E s) ->
  wp (load r) Q E s.
Proof.
  intros HQ HE. unfold load. apply wp_bind, wp_window, wp_deref; auto.
Qed.

Lemma wp_update r f (Q : unit -> state -> Prop) E s :
  (forall e, heap (browser s) !! r = Some e ->
     Q tt (mkState (self s) (set_heap (<[r := f e]> (heap (browser s))) (browser s)))) ->
  (heap (browser s) !! r = None -> E s) ->
  wp (update r f) Q E s.
Proof.
  intros HQ HE. unfold update. apply wp_bind, wp_load; [|exact HE].
  intros e He. apply wp_effect. auto.
Qed.

(** One step through a statement. *)
Ltac wp_step :=
  lazymatch goal with
  | |- wp (bind _ _) _ _ _ => apply wp_bind
  | |- wp (ret _) _ _ _ => apply wp_ret
  | |- wp (throw _) _ _ _ => apply wp_throw
  | |- wp this _ _ _ => apply wp_this
  | |- wp window _ _ _ => apply wp_window
  | |- wp (assign _) _ _ _ => apply wp_assign
  | |- wp (effect _) _ _ _ => apply wp_effect
  | |- wp (discard _) _ _ _ => unfold discard
  end; cbv beta.

Ltac wp_steps := repeat wp_step.

Lemma wp_deref_some {A} what (field : option A) a Q E s :
  field = Some a -> Q a s -> wp (deref what field) Q E s.
Proof. intros ->. exact id. Qed.

Lemma wp_load_some r e Q E s :
  heap (browser s) !! r = Some e -> Q e s -> wp (load r) Q E s.
Proof.
  intros H HQ. apply wp_load; [|congruence]. intros e' He'.
  assert (e' = e) by congruence. now subst.
Qed.

Lemma wp_update_some r e f (Q : unit -> state -> Prop) E s :
  heap (browser s) !! r = Some e ->
  Q tt (mkState (self s) (set_heap (<[r := f e]> (heap (browser s))) (browser s))) ->
  wp (update r f) Q E s.
Proof.
  intros H HQ. apply wp_update; [|congruence]. intros e' He'.
  assert (e' = e) by congruence. now subst.
Qed.

(** Reading a field of a state that was just built. *)
Ltac fields :=
  cbn [self browser
       observable saveValueOnBlurEvent calcSize gristDoc editor editorDom
       session _fullDom _setupCallback _setupTimer textPadding
       set_editor set_editorDom set_session set_fullDom set_setupCallback
       set_setupTimer
       heap timers nextTimer nextElem styles disposables observed saved
       subscriptions calcSizeCalls setups metrics editReturnsExisting
       set_heap set_timers set_nextTimer set_nextElem set_styles
       set_disposables set_observed set_saved set_subscriptions
       set_calcSizeCalls set_setups] in *.

(** Steps through straight-line code whose dereferences are settled by the
    hypotheses at hand. *)
Ltac wp_lookup :=
  lazymatch goal with
  | |- wp (deref _ _) _ _ _ => eapply wp_deref_some; [eassumption|]
  | |- wp (load _) _ _ _ => eapply wp_load_some; [eassumption|]
  | |- wp (update _ _) _ _ _ => eapply wp_update_some; [eassumption|]
  end.

Ltac wp_known := repeat (fields; first [ wp_step | wp_lookup ]).

(** Two states are equal when their fields are. *)
Lemma state_ext (s s' : state) :
  self s = self s' ->
  heap (browser s) = heap (browser s') ->
  timers (browser s) = timers (browser s') ->
  nextTimer (browser s) = nextTimer (browser s') ->
  nextElem (browser s) = nextElem (browser s') ->
  styles (browser s) = styles (browser s') ->
  disposables (browser s) = disposables (browser s') ->
  observed (browser s) = observed (browser s') ->
  saved (browser s) = saved (browser s') ->
  subscriptions (browser s) = subscriptions (browser s') ->
  calcSizeCalls (browser s) = calcSizeCalls (browser s') ->
  setups (browser s) = setups (browser s') ->
  metrics (browser s) = metrics (browser s') ->
  editReturnsExisting (browser s) = editReturnsExisting (browser s') ->
  s = s'.
Proof.
  destruct s as [o b], s' as [o' b']. destruct b, b'. simpl.
  intros; subst; reflexivity.
Qed.

Ltac by_fields := apply state_ext; fields; reflexivity.

(* ===================================================================== *)
(** ** Resizing *)
(* ===================================================================== *)


Lemma wp_of_returns {A} (m : M A) a s' (Q : A -> state -> Prop) E s :
  m s = Returns a s' -> Q a s' -> wp m Q E s.
Proof. unfold wp. now intros ->. Qed.

Section Resize.

Variables (s : state) (r d : nat) (e : Ace.Editor).
Hypothesis Heditor : editor (self s) = Some r.
Hypothesis Hsession : session (self s) = Some r.
Hypothesis HeditorDom : editorDom (self s) = Some d.
Hypothesis Hheap : heap (browser s) !! r = Some e.

(** What [resize] computes. *)
Lemma resize_computes :
  let m := metrics (browser s) in
  let o := self s in
  let contentWidth :=
    if Ace.useWrapMode e then 0
    else getScreenWidth m e * characterWidth m e in
  let desiredSize :=
    mkSize (if Ace.useWrapMode e then 0 else contentWidth + textPadding o)
           (Z.max 1 (getScreenLength m e) * lineHeight m e) in
  let first := calcSize o (_fullDom o) desiredSize in
  let taller := mkSize (width (snd first)) (height (snd first) + 20) in
  let second := calcSize o (_fullDom o) taller in
  let style_of size :=
    mkStyle (if width size =? 0 then None else Some (width size))
            (height size) in
  (0 <= lineHeight m e -> lineHeight m e <= height desiredSize) /\
  exists s',
    resize s = Returns tt s' /\
    self s' = self s /\
    heap (browser s') = heap (browser s) /\
    if width (fst first) <? contentWidth then
      calcSizeCalls (browser s')
        = calcSizeCalls (browser s) ++ [desiredSize; taller] /\
      styles (browser s') = (d, style_of (fst second)) :: styles (browser s)
    else
      calcSizeCalls (browser s')
        = calcSizeCalls (browser s) ++ [desiredSize] /\
      styles (browser s') = (d, style_of (fst first)) :: styles (browser s).
Proof using Heditor Hsession HeditorDom Hheap.
  intros m o contentWidth desiredSize first taller second style_of.
  split.
  { intros Hpos. subst desiredSize. cbn [height]. nia. }
  enough (wp resize
            (fun _ s' =>
               self s' = self s /\
               heap (browser s') = heap (browser s) /\
               if width (fst first) <? contentWidth then
                 calcSizeCalls (browser s')
                   = calcSizeCalls (browser s) ++ [desiredSize; taller] /\
                 styles (browser s')
                   = (d, style_of (fst second)) :: styles (browser s)
               else
                 calcSizeCalls (browser s')
                   = calcSizeCalls (browser s) ++ [desiredSize] /\
                 styles (browser s')
                   = (d, style_of (fst first)) :: styles (browser s))
            (fun _ => False) s) as H.
  { apply wp_returns in H as ([] & s' & Hrun & H). eauto. }
  unfold resize, _getContentWidth, _getContentHeight, call_calcSize.
  subst first second taller desiredSize contentWidth style_of m o.
  wp_known.
  destruct (Ace.useWrapMode e); wp_known.
  - destruct (_ <? 0) eqn:Hlt; wp_known; rewrite <- ?app_assoc; auto.
  - destruct (_ <? _) eqn:Hlt; wp_known; rewrite <- ?app_assoc; auto.
Qed.

(** All [resize] changes are the style and the record of [calcSize]. *)
Lemma resize_repaints :
  exists st cs,
    resize s = Returns tt (repaint st cs (saved (browser s)) s).
Proof using Heditor Hsession HeditorDom Hheap.
  enough (wp resize
            (fun _ s' =>
               exists st cs, s' = repaint st cs (saved (browser s)) s)
            (fun _ => False) s) as H.
  { apply wp_returns in H as ([] & s' & Hrun & st & cs & ->). eauto. }
  unfold resize, _getContentWidth, _getContentHeight, call_calcSize.
  wp_known.
  destruct (Ace.useWrapMode e); wp_known.
  - destruct (_ <? 0) eqn:Hlt; wp_known; eexists _, _; unfold repaint;
      by_fields.
  - destruct (_ <? _) eqn:Hlt; wp_known; eexists _, _; unfold repaint;
      by_fields.
Qed.

End Resize.

(** C7. On a built editor [resize] returns, and: the desired size is 0 wide
    in wrap mode and otherwise as wide as the content (screen width times
    character width) plus the padding; it is as high as the screen lines, at
    least one, times the line height, hence at least one line high;
    [calcSize] is applied to it; if the width it returns is smaller than the
    content width, [calcSize] is applied once more, to the desired size made
    20 higher, and the element gets the size of that second call, otherwise
    that of the first. *)
Theorem resize_sizes (s : state) :
  built s ->
  exists r d e,
    editor (self s) = Some r /\ editorDom (self s) = Some d /\
    heap (browser s) !! r = Some e /\
    let m := metrics (browser s) in
    let o := self s in
    let contentWidth :=
      if Ace.useWrapMode e then 0
      else getScreenWidth m e * characterWidth m e in
    let desiredSize :=
      mkSize (if Ace.useWrapMode e then 0 else contentWidth + textPadding o)
             (Z.max 1 (getScreenLength m e) * lineHeight m e) in
    let first := calcSize o (_fullDom o) desiredSize in
    let taller := mkSize (width (snd first)) (height (snd first) + 20) in
    let second := calcSize o (_fullDom o) taller in
    let style_of size :=
      mkStyle (if width size =? 0 then None else Some (width size))
              (height size) in
    (0 <= lineHeight m e -> lineHeight m e <= height desiredSize) /\
    exists s',
      resize s = Returns tt s' /\
      self s' = self s /\
      heap (browser s') = heap (browser s) /\
      if width (fst first) <? contentWidth then
        calcSizeCalls (browser s')
          = calcSizeCalls (browser s) ++ [desiredSize; taller] /\
        styles (browser s') = (d, style_of (fst second)) :: styles (browser s)
      else
        calcSizeCalls (browser s')
          = calcSizeCalls (browser s) ++ [desiredSize] /\
        styles (browser s') = (d, style_of (fst first)) :: styles (browser s).
Proof.
  intros (r & d & e & He & Hs & Hd & Hr). exists r, d, e.
  repeat (split; [assumption|]).
  exact (resize_computes s r d e He Hs Hd Hr).
Qed.

(* ===================================================================== *)
(** ** Listeners and [setValue] *)
(* ===================================================================== *)

Lemma repaint_repaint st cs sv st' cs' sv' s :
  repaint st' cs' sv' (repaint st cs sv s) = repaint st' cs' sv' s.
Proof. unfold repaint. by_fields. Qed.

Lemma repaint_self s :
  s = repaint (styles (browser s)) (calcSizeCalls (browser s))
        (saved (browser s)) s.
Proof. destruct s as [o b]. destruct b. reflexivity. Qed.

Lemma getValue_built s r e :
  editor (self s) = Some r -> heap (browser s) !! r = Some e ->
  getValue s = Returns (JS.Str (Ace.getValue e)) s.
Proof.
  intros He Hr.
  enough (wp getValue (fun v s' => v = JS.Str (Ace.getValue e) /\ s' = s)
            (fun _ => False) s) as H.
  { apply wp_returns in H as (v & s' & Hrun & -> & ->). exact Hrun. }
  unfold getValue. wp_known. rewrite He. wp_known. auto.
Qed.

Lemma writeObservable_built s r e :
  editor (self s) = Some r -> heap (browser s) !! r = Some e ->
  writeObservable s
  = Returns tt
      (repaint (styles (browser s)) (calcSizeCalls (browser s))
         (saved (browser s)
          ++ match observable (self s) with
             | Some _ => [JS.Str (Ace.getValue e)]
             | None => []
             end) s).
Proof.
  intros He Hr. unfold writeObservable, bind, this. simpl.
  destruct (observable (self s)).
  - rewrite (getValue_built s r e He Hr). reflexivity.
  - rewrite app_nil_r. unfold ret. f_equal. apply repaint_self.
Qed.

(** On a built editor the listeners run to the end, and leave the instance
    and the editors as they are. *)
Lemma fire_built listeners : forall s r d e,
  editor (self s) = Some r -> session (self s) = Some r ->
  editorDom (self s) = Some d -> heap (browser s) !! r = Some e ->
  exists st cs sv, fire listeners s = Returns tt (repaint st cs sv s).
Proof.
  induction listeners as [|l more IH]; intros s r d e He Hs Hd Hr.
  - exists (styles (browser s)), (calcSizeCalls (browser s)), (saved (browser s)).
    simpl. unfold ret. f_equal. apply repaint_self.
  - destruct l; simpl; unfold bind.
    + destruct (resize_repaints s r d e He Hs Hd Hr) as (st & cs & ->).
      destruct (IH (repaint st cs (saved (browser s)) s) r d e)
        as (st' & cs' & sv' & ->); auto.
      rewrite repaint_repaint. eauto.
    + rewrite (writeObservable_built s r e He Hr).
      match goal with |- context [fire more ?s1] =>
        destruct (IH s1 r d e) as (st' & cs' & sv' & ->); auto
      end.
      rewrite repaint_repaint. eauto.
Qed.

Lemma insertText_removeAll val e :
  Ace.insertText val (Ace.removeAll e) = Ace.insertText val e.
Proof. reflexivity. Qed.


Lemma editor_setValue_built s r d e val cursorPos :
  editor (self s) = Some r -> session (self s) = Some r ->
  editorDom (self s) = Some d -> heap (browser s) !! r = Some e ->
  exists st cs sv,
    editor_setValue r val cursorPos s
    = Returns tt
        (rewritten r (Ace.navigate cursorPos (Ace.insertText val e)) st cs sv s).
Proof.
  intros He Hs Hd Hr.
  assert (Hlt : (r < length (heap (browser s)))%nat)
    by (eapply lookup_lt_Some; eauto).
  enough (wp (editor_setValue r val cursorPos)
            (fun _ s' => exists st cs sv,
               s' = rewritten r (Ace.navigate cursorPos (Ace.insertText val e))
                      st cs sv s)
            (fun _ => False) s) as H.
  { apply wp_returns in H as ([] & s' & Hrun & st & cs & sv & ->). eauto. }
  unfold editor_setValue, emit_change.
  wp_known.
  (* removing the old text *)
  assert (Hremove :
    wp (update r Ace.removeAll;; e0 <- load r;; fire (Ace.onChange e0))
       (fun _ s' => exists st cs sv,
          s' = rewritten r (Ace.removeAll e) st cs sv s)
       (fun _ => False) s).
  { wp_known.
    eapply wp_load_some.
    { fields. apply list_lookup_insert_eq, Hlt. }
    match goal with |- wp (fire ?ls) _ _ ?s1 =>
      destruct (fire_built ls s1 r d (Ace.removeAll e)) as (st & cs & sv & Hf);
        auto; [fields; apply list_lookup_insert_eq, Hlt|];
        eapply wp_of_returns; [exact Hf|]
    end.
    exists st, cs, sv. unfold rewritten, repaint. by_fields. }
  assert (Hrest : forall e1 st cs sv,
    Ace.insertText val e1 = Ace.insertText val e ->
    wp (update r (Ace.insertText val);;
        match val with
        | EmptyString => ret tt
        | String _ _ => e0 <- load r;; fire (Ace.onChange e0)
        end;;
        update r (Ace.navigate cursorPos))
       (fun _ s' => exists st cs sv,
          s' = rewritten r (Ace.navigate cursorPos (Ace.insertText val e))
                 st cs sv s)
       (fun _ => False) (rewritten r e1 st cs sv s)).
  { intros e1 st cs sv He1.
    assert (Hl1 : heap (browser (rewritten r e1 st cs sv s)) !! r = Some e1).
    { unfold rewritten. fields. apply list_lookup_insert_eq, Hlt. }
    wp_step. eapply wp_update_some; [exact Hl1|].
    wp_step.
    match goal with |- wp _ _ _ ?s1 =>
      assert (Hl2 : heap (browser s1) !! r = Some (Ace.insertText val e))
    end.
    { unfold rewritten. fields. rewrite He1. apply list_lookup_insert_eq.
      now rewrite length_insert. }
    destruct val as [|c val'].
    - wp_step. eapply wp_update_some; [exact Hl2|].
      exists st, cs, sv. unfold rewritten, repaint. fields.
      rewrite !list_insert_insert_eq. by_fields.
    - wp_step. eapply wp_load_some; [exact Hl2|].
      match goal with |- wp (fire ?ls) _ _ ?s1 =>
        destruct (fire_built ls s1 r d (Ace.insertText (String c val') e))
          as (st' & cs' & sv' & Hf); auto;
          eapply wp_of_returns; [exact Hf|]
      end.
      eapply wp_update_some.
      { unfold repaint. fields. exact Hl2. }
      exists st', cs', sv'. unfold rewritten, repaint. fields.
      rewrite !list_insert_insert_eq. by_fields. }
  assert (Hplain :
    s = rewritten r e (styles (browser s)) (calcSizeCalls (browser s))
          (saved (browser s)) s).
  { unfold rewritten, repaint. fields. rewrite list_insert_id by exact Hr.
    destruct s as [o b]; destruct b; reflexivity. }
  destruct (Ace.lines e) as [|[|c l] [|l' ls]] eqn:Hlines.
  all: try (eapply wp_mono; [exact Hremove| |tauto];
            intros [] s' (st & cs & sv & ->); cbv beta;
            apply Hrest; reflexivity).
  wp_step. rewrite Hplain at 1. apply Hrest. reflexivity.
Qed.


Lemma setValue_built s r d e val optCursorPos :
  editor (self s) = Some r -> session (self s) = Some r ->
  editorDom (self s) = Some d -> heap (browser s) !! r = Some e ->
  exists st cs sv,
    setValue val optCursorPos s
    = Returns tt (rewritten r (placed val optCursorPos e) st cs sv s).
Proof.
  intros He Hs Hd Hr.
  assert (Hlt : (r < length (heap (browser s)))%nat)
    by (eapply lookup_lt_Some; eauto).
  enough (wp (setValue val optCursorPos)
            (fun _ s' => exists st cs sv,
               s' = rewritten r (placed val optCursorPos e) st cs sv s)
            (fun _ => False) s) as H.
  { apply wp_returns in H as ([] & s' & Hrun & st & cs & sv & ->). eauto. }
  unfold setValue. wp_known.
  destruct (editor_setValue_built s r d e val
              match optCursorPos with Some 0 => -1 | _ => 1 end He Hs Hd Hr)
    as (st & cs & sv & Hset).
  eapply wp_of_returns; [exact Hset|].
  set (e1 := Ace.navigate _ _) in *.
  assert (Hl1 : heap (browser (rewritten r e1 st cs sv s)) !! r = Some e1).
  { unfold rewritten. fields. apply list_lookup_insert_eq, Hlt. }
  unfold placed. fold e1.
  destruct optCursorPos as [p|].
  - destruct ((0 <? p) && (p <? Z.of_nat (String.length val))).
    + unfold rewritten in Hl1 |- *. unfold repaint in Hl1 |- *. wp_known.
      exists st, cs, sv. fields. rewrite list_insert_insert_eq. by_fields.
    + wp_step. eauto.
  - wp_step. eauto.
Qed.

(* ===================================================================== *)
(** ** Reading and writing the text *)
(* ===================================================================== *)

Lemma is_built_built s : is_built s = true -> built s.
Proof.
  unfold is_built, built.
  destruct (editor (self s)) as [r|]; [|discriminate].
  destruct (session (self s)) as [r'|]; [|discriminate].
  destruct (editorDom (self s)) as [d|]; [|discriminate].
  destruct (heap (browser s) !! r) as [e|] eqn:Hr;
    [|rewrite andb_false_r; discriminate].
  rewrite andb_true_r. intros ->%Nat.eqb_eq. eauto 10.
Qed.

Lemma formula_editor_built : built formula_editor.
Proof. apply is_built_built. vm_compute. reflexivity. Qed.

(** C9. Before the widget exists, [getValue] returns [null], which is falsy
    and not a string, without throwing and without changing anything, and
    [isBuilt] returns [false]. *)
Theorem getValue_before_setup (s : state) :
  editor (self s) = None ->
  getValue s = Returns JS.Null s /\
  JS.truthy JS.Null = false /\ JS.is_string JS.Null = false /\
  isBuilt s = Returns false s.
Proof.
  intros He. unfold getValue, isBuilt, bind, this, ret. rewrite He. auto.
Qed.

Lemma getValue_before_setup_witness :
  let s := start None (new_Browser monospace true None) in
  getValue s = Returns JS.Null s /\
  JS.truthy JS.Null = false /\ JS.is_string JS.Null = false /\
  isBuilt s = Returns false s.
Proof.
  apply (getValue_before_setup (start None (new_Browser monospace true None))).
  reflexivity.
Defined.

Lemma no_control_no_break text : no_control text = true -> no_break text = true.
Proof.
  induction text as [|c rest IH]; simpl; [reflexivity|].
  intros [Hc Hrest]%andb_prop. rewrite (IH Hrest), andb_true_r.
  unfold is_control in Hc. unfold Ace.is_LF, Ace.is_CR.
  destruct (Ascii.eqb_spec c Ace.LF) as [->|]; [discriminate|].
  destruct (Ascii.eqb_spec c Ace.CR) as [->|]; [discriminate|].
  reflexivity.
Qed.

Lemma split_no_break text : no_break text = true -> Ace.split text = [text].
Proof.
  induction text as [|c rest IH]; simpl; [reflexivity|].
  intros [[Hlf Hcr]%andb_prop Hrest]%andb_prop.
  apply negb_true_iff in Hlf, Hcr. rewrite Hlf, Hcr, (IH Hrest). reflexivity.
Qed.

Lemma getValue_placed val optCursorPos e :
  Ace.getValue (placed val optCursorPos e)
  = Ace.join (Ace.detectNewLine val) (Ace.split val).
Proof.
  unfold placed. destruct optCursorPos as [p|]; [|reflexivity].
  destruct (_ && _); reflexivity.
Qed.

(** C3. On a built editor, [setValue] with a string without control
    characters, wherever the cursor is put, returns, and [getValue] then
    returns that string. *)
Theorem setValue_getValue (s : state) (val : string) (optCursorPos : option Z) :
  built s ->
  no_control val = true ->
  exists s',
    setValue val optCursorPos s = Returns tt s' /\
    getValue s' = Returns (JS.Str val) s'.
Proof.
  intros (r & d & e & He & Hs & Hd & Hr) Hval.
  destruct (setValue_built s r d e val optCursorPos He Hs Hd Hr)
    as (st & cs & sv & Hset).
  eexists. split; [exact Hset|].
  erewrite getValue_built.
  - rewrite getValue_placed, (split_no_break val); [reflexivity|].
    now apply no_control_no_break.
  - exact He.
  - unfold rewritten. fields. apply list_lookup_insert_eq.
    eapply lookup_lt_Some; eauto.
Qed.

Lemma setValue_getValue_witness :
  exists s',
    setValue "SUM($B) / 2" (Some 3) formula_editor = Returns tt s' /\
    getValue s' = Returns (JS.Str "SUM($B) / 2") s'.
Proof.
  apply (setValue_getValue formula_editor "SUM($B) / 2" (Some 3)).
  - exact formula_editor_built.
  - reflexivity.
Defined.

(* ===================================================================== *)
(** ** The save command *)
(* ===================================================================== *)

(** C2, as the code has it. Without a bound observable [attachSaveCommand]
    throws its own error at once and changes nothing. With one, it returns
    on a built editor, whose commands then include [saveFormula]; before
    the widget exists it throws a [TypeError] and changes nothing. *)
Theorem attachSaveCommand_outcomes (s : state) :
  (observable (self s) = None ->
     attachSaveCommand s
     = Throws
         (JS.Error "Cannot attach save command to editor with no bound observable")
         s) /\
  (observable (self s) <> None -> built s ->
     exists s' r e',
       attachSaveCommand s = Returns tt s' /\
       self s' = self s /\
       editor (self s') = Some r /\ heap (browser s') !! r = Some e' /\
       In saveFormula (Ace.commands e')) /\
  (observable (self s) <> None -> editor (self s) = None ->
     attachSaveCommand s = Throws (JS.TypeError "this.editor is null") s).
Proof.
  unfold attachSaveCommand, bind, this. repeat split.
  - intros ->. reflexivity.
  - intros Hobs (r & d & e & He & Hs & Hd & Hr).
    destruct (observable (self s)); [|congruence].
    rewrite He. cbn [deref ret]. unfold update, load, bind, window, effect.
    rewrite Hr. cbn [deref ret].
    eexists _, r, _. repeat split.
    + exact He.
    + fields. apply list_lookup_insert_eq. eapply lookup_lt_Some; eauto.
    + simpl. apply in_or_app. right. left. reflexivity.
  - intros Hobs He. destruct (observable (self s)); [|congruence].
    rewrite He. reflexivity.
Qed.

Lemma attachSaveCommand_outcomes_witness :
  exists s' r e',
    attachSaveCommand formula_editor = Returns tt s' /\
    self s' = self formula_editor /\
    editor (self s') = Some r /\ heap (browser s') !! r = Some e' /\
    In saveFormula (Ace.commands e').
Proof.
  apply (proj1 (proj2 (attachSaveCommand_outcomes formula_editor))).
  - vm_compute. discriminate.
  - exact formula_editor_built.
Defined.

(** C2 as worded does not hold: right after [buildDom], before the timer
    has run [_setup], the observable is bound and [attachSaveCommand]
    throws. *)
Lemma attachSaveCommand_before_setup :
  let s := run [BuildDom None]
             (start (Some formula_options)
                (new_Browser monospace true (Some "$A + 1"))) in
  observable (self s) = Some 0%nat /\
  attachSaveCommand s = Throws (JS.TypeError "this.editor is null") s.
Proof. vm_compute. split; reflexivity. Qed.

(* ===================================================================== *)
(** ** An instance of the resize theorem *)
(* ===================================================================== *)

Lemma resize_sizes_witness :
  exists r d e,
    editor (self formula_editor) = Some r /\
    editorDom (self formula_editor) = Some d /\
    heap (browser formula_editor) !! r = Some e /\
    let m := metrics (browser formula_editor) in
    let o := self formula_editor in
    let contentWidth :=
      if Ace.useWrapMode e then 0
      else getScreenWidth m e * characterWidth m e in
    let desiredSize :=
      mkSize (if Ace.useWrapMode e then 0 else contentWidth + textPadding o)
             (Z.max 1 (getScreenLength m e) * lineHeight m e) in
    let first := calcSize o (_fullDom o) desiredSize in
    let taller := mkSize (width (snd first)) (height (snd first) + 20) in
    let second := calcSize o (_fullDom o) taller in
    let style_of size :=
      mkStyle (if width size =? 0 then None else Some (width size))
              (height size) in
    (0 <= lineHeight m e -> lineHeight m e <= height desiredSize) /\
    exists s',
      resize formula_editor = Returns tt s' /\
      self s' = self formula_editor /\
      heap (browser s') = heap (browser formula_editor) /\
      if width (fst first) <? contentWidth then
        calcSizeCalls (browser s')
          = calcSizeCalls (browser formula_editor) ++ [desiredSize; taller] /\
        styles (browser s')
          = (d, style_of (fst second)) :: styles (browser formula_editor)
      else
        calcSizeCalls (browser s')
          = calcSizeCalls (browser formula_editor) ++ [desiredSize] /\
        styles (browser s')
          = (d, style_of (fst first)) :: styles (browser formula_editor).
Proof.
  apply (resize_sizes formula_editor). exact formula_editor_built.
Defined.

(* ===================================================================== *)
(** ** Indices and positions in a text with line feeds *)
(* ===================================================================== *)

Lemma split_cons text : exists line more, Ace.split text = line :: more.
Proof.
  induction text as [|c rest (line & more & IH)]; simpl; [eauto|].
  destruct (Ace.is_LF c); [eauto|].
  destruct (Ace.is_CR c).
  - destruct rest as [|c' rest']; [eauto|]. destruct (Ace.is_LF c'); eauto.
  - rewrite IH. eauto.
Qed.

Lemma detectNewLine_no_CR text :
  no_CR text = true -> Ace.detectNewLine text = String Ace.LF EmptyString.
Proof.
  induction text as [|c rest IH]; simpl; [reflexivity|].
  intros [Hc Hrest]%andb_prop. apply negb_true_iff in Hc. rewrite Hc.
  destruct (Ace.is_LF c); auto.
Qed.

(** Such a text is what its lines give when joined again. *)
Lemma join_split_no_CR text :
  no_CR text = true ->
  Ace.join (String Ace.LF EmptyString) (Ace.split text) = text.
Proof.
  induction text as [|c rest IH]; simpl; [reflexivity|].
  intros [Hc Hrest]%andb_prop. apply negb_true_iff in Hc. rewrite Hc.
  specialize (IH Hrest).
  destruct (split_cons rest) as (line & more & Hsplit).
  rewrite Hsplit in *.
  destruct (Ace.is_LF c) eqn:Hlf.
  - apply Ascii.eqb_eq in Hlf. subst c.
    change (Ace.join (String Ace.LF EmptyString) (EmptyString :: line :: more))
      with (String Ace.LF
              (Ace.join (String Ace.LF EmptyString) (line :: more))).
    now rewrite IH.
  - destruct more as [|next more'].
    + simpl in *. now rewrite IH.
    + change (Ace.join (String Ace.LF EmptyString)
                (String c line :: next :: more'))
        with (String c
                (Ace.join (String Ace.LF EmptyString) (line :: next :: more'))).
      now rewrite IH.
Qed.

Lemma length_append (a b : string) :
  String.length (String.append a b) = (String.length a + String.length b)%nat.
Proof. induction a as [|c a IH]; simpl; [reflexivity|now rewrite IH]. Qed.

Lemma length_join newLine lines :
  String.length (Ace.join newLine lines) = extent (String.length newLine) lines.
Proof.
  induction lines as [|line [|next more] IH]; simpl in *; try reflexivity.
  rewrite !length_append, IH. lia.
Qed.

Lemma extent_split_no_CR text :
  no_CR text = true -> extent 1 (Ace.split text) = String.length text.
Proof.
  intros H. rewrite <- (join_split_no_CR text H) at 2.
  now rewrite length_join.
Qed.

(** With one-character line breaks, [indexToPosition] of an index inside the
    text is a position of the text, and [positionToIndex] leads back. *)
Lemma indexToPosition_from_inverse lines : forall i index,
  lines <> [] ->
  (index <= extent 1 lines)%nat ->
  let p := Ace.indexToPosition_from 1 lines i index in
  exists k,
    Ace.row p = (i + k)%nat /\ (k < length lines)%nat /\
    (Ace.column p <= String.length (nth k lines EmptyString))%nat /\
    (Ace.offset 1 lines k + Ace.column p = index)%nat.
Proof.
  induction lines as [|line more IH]; intros i index Hne Hle; [congruence|].
  cbn [Ace.indexToPosition_from].
  destruct (index <? String.length line + 1)%nat eqn:Hlt.
  - apply Nat.ltb_lt in Hlt. exists 0%nat. simpl. repeat split; lia.
  - apply Nat.ltb_ge in Hlt. destruct more as [|next more'].
    + simpl in Hle. lia.
    + destruct (IH (S i) (index - (String.length line + 1))%nat)
        as (k & Hrow & Hk & Hcol & Hoff); [discriminate| |].
      { change (extent 1 (line :: next :: more'))
          with (String.length line + 1 + extent 1 (next :: more'))%nat in Hle.
        lia. }
      exists (S k). cbn zeta in *. rewrite Hrow.
      change (length (line :: next :: more'))
        with (S (length (next :: more'))).
      change (nth (S k) (line :: next :: more') EmptyString)
        with (nth k (next :: more') EmptyString).
      change (Ace.offset 1 (line :: next :: more') (S k))
        with (String.length line + 1 + Ace.offset 1 (next :: more') k)%nat.
      repeat split; lia.
Qed.

(** After [setValue(val, p)] with a text whose line breaks are line feeds
    and [p] strictly inside it, the cursor is at a position of the document,
    the one [p] characters into the text, and the document reads [val]. *)
Lemma cursor_in_text_after_setValue (s : state) (val : string) (p : Z) :
  built s ->
  no_CR val = true ->
  0 < p < Z.of_nat (String.length val) ->
  exists s' r e',
    setValue val (Some p) s = Returns tt s' /\
    editor (self s') = Some r /\ heap (browser s') !! r = Some e' /\
    Ace.getValue e' = val /\
    Ace.cursor e' = Ace.indexToPosition e' (Z.to_nat p) /\
    (Ace.row (Ace.cursor e') < length (Ace.lines e'))%nat /\
    (Ace.column (Ace.cursor e')
     <= String.length (nth (Ace.row (Ace.cursor e')) (Ace.lines e') EmptyString))%nat /\
    Ace.positionToIndex e' (Ace.cursor e') = Z.to_nat p.
Proof.
  intros (r & d & e & He & Hs & Hd & Hr) Hval Hp.
  destruct (setValue_built s r d e val (Some p) He Hs Hd Hr)
    as (st & cs & sv & Hset).
  exists (rewritten r (placed val (Some p) e) st cs sv s), r,
         (placed val (Some p) e).
  split; [exact Hset|]. split; [exact He|].
  split.
  { unfold rewritten. fields. apply list_lookup_insert_eq.
    eapply lookup_lt_Some; eauto. }
  split.
  { rewrite getValue_placed, (detectNewLine_no_CR val Hval).
    now apply join_split_no_CR. }
  destruct (split_cons val) as (line & more & Hsplit).
  destruct (indexToPosition_from_inverse (Ace.split val) 0 (Z.to_nat p))
    as (k & Hrow & Hk & Hcol & Hoff).
  { rewrite Hsplit. discriminate. }
  { rewrite (extent_split_no_CR val Hval). lia. }
  cbn zeta in *. simpl in Hrow.
  assert (Hmid : (0 <? p) && (p <? Z.of_nat (String.length val)) = true).
  { apply andb_true_intro. split; apply Z.ltb_lt; lia. }
  assert (Hindex :
    Ace.indexToPosition
      (Ace.navigate 1 (Ace.insertText val e)) (Z.to_nat p)
    = Ace.indexToPosition_from 1 (Ace.split val) 0 (Z.to_nat p)).
  { unfold Ace.indexToPosition. simpl.
    now rewrite (detectNewLine_no_CR val Hval). }
  assert (Hplaced :
    placed val (Some p) e
    = Ace.moveCursorTo
        (Ace.row (Ace.indexToPosition_from 1 (Ace.split val) 0 (Z.to_nat p)))
        (Ace.column (Ace.indexToPosition_from 1 (Ace.split val) 0 (Z.to_nat p)))
        (Ace.navigate 1 (Ace.insertText val e))).
  { unfold placed. rewrite Hmid.
    destruct p; try lia. cbv zeta. now rewrite Hindex. }
  rewrite Hplaced.
  set (pos := Ace.indexToPosition_from 1 (Ace.split val) 0 (Z.to_nat p)) in *.
  assert (Hclip : Ace.clip (Ace.split val) (Ace.Position (Ace.row pos) (Ace.column pos))
                  = pos).
  { unfold Ace.clip. cbn [Ace.row Ace.column]. rewrite Hrow.
    destruct (length (Ace.split val) <=? k)%nat eqn:Hge;
      [apply Nat.leb_le in Hge; lia|].
    rewrite Nat.min_r by lia. destruct pos as [pr pc]. simpl in *.
    now subst pr. }
  unfold Ace.positionToIndex, Ace.positionToIndex_in, Ace.indexToPosition.
  cbn [Ace.moveCursorTo Ace.with_document Ace.cursor Ace.lines
       Ace.autoNewLine Ace.navigate Ace.insertText].
  rewrite Hclip, (detectNewLine_no_CR val Hval). cbn [String.length].
  fold pos. rewrite Hrow. rewrite Nat.min_l by lia.
  repeat split; auto; lia.
Qed.

(** The text need not be free of control characters to come back as it
    went in: line feeds are kept too. *)
Lemma lines_survive_setValue (s : state) (val : string)
    (optCursorPos : option Z) :
  built s ->
  no_CR val = true ->
  exists s',
    setValue val optCursorPos s = Returns tt s' /\
    getValue s' = Returns (JS.Str val) s'.
Proof.
  intros (r & d & e & He & Hs & Hd & Hr) Hval.
  destruct (setValue_built s r d e val optCursorPos He Hs Hd Hr)
    as (st & cs & sv & Hset).
  eexists. split; [exact Hset|].
  erewrite getValue_built.
  - rewrite getValue_placed, (detectNewLine_no_CR val Hval),
      (join_split_no_CR val Hval). reflexivity.
  - exact He.
  - unfold rewritten. fields. apply list_lookup_insert_eq.
    eapply lookup_lt_Some; eauto.
Qed.

(** Carriage returns are another matter: the document keeps one kind of
    line break, the first it meets, so a text that mixes them comes back
    changed. *)
Example mixed_breaks_do_not_survive :
  let CRLF := String Ace.CR (String Ace.LF EmptyString) in
  let LF := String Ace.LF EmptyString in
  let val := String.append "a" (String.append CRLF (String.append "b"
               (String.append LF "c"))) in
  let back := String.append "a" (String.append CRLF (String.append "b"
                (String.append CRLF "c"))) in
  forall s', setValue val None formula_editor = Returns tt s' ->
             getValue s' = Returns (JS.Str back) s'.
Proof.
  intros CRLF LF val back s'. vm_compute. intros [= <-]. reflexivity.
Qed.

(** Rows only grow as [indexToPosition] walks the lines. *)
Lemma indexToPosition_from_row n more : forall line i index,
  (i <= Ace.row (Ace.indexToPosition_from n (line :: more) i index))%nat.
Proof.
  induction more as [|next more' IH]; intros line i index.
  - cbn [Ace.indexToPosition_from].
    destruct (index <? String.length line + n)%nat; cbn [Ace.row]; lia.
  - change (Ace.indexToPosition_from n (line :: next :: more') i index)
      with (if (index <? String.length line + n)%nat then Ace.Position i index
            else Ace.indexToPosition_from n (next :: more') (S i)
                   (index - (String.length line + n))).
    destruct (index <? String.length line + n)%nat; cbn [Ace.row]; [lia|].
    specialize (IH next (S i) (index - (String.length line + n))%nat). lia.
Qed.

(** In a text whose line breaks are line feeds, [indexToPosition] of an
    index inside the text is the row and the column of the character with
    that index. *)
Lemma position_of_index_split val : forall i col p,
  no_CR val = true ->
  (p <= String.length val)%nat ->
  position_of_index val i col p
  = let q := Ace.indexToPosition_from 1 (Ace.split val) i p in
    if (Ace.row q =? i)%nat then Ace.Position i (col + Ace.column q) else q.
Proof.
  induction val as [|c rest IH]; intros i col p Hval Hp.
  - simpl in Hp. assert (p = 0)%nat as -> by lia. simpl.
    rewrite Nat.eqb_refl. now rewrite Nat.add_0_r.
  - simpl in Hval. apply andb_prop in Hval as [Hc Hrest].
    apply negb_true_iff in Hc.
    destruct p as [|p'].
    { cbn [position_of_index]. cbv zeta.
      assert (Hq : Ace.indexToPosition_from 1 (Ace.split (String c rest)) i 0
                   = Ace.Position i 0).
      { destruct (split_cons (String c rest)) as (line & more & ->).
        simpl. now rewrite Nat.add_1_r. }
      rewrite Hq. simpl. rewrite Nat.eqb_refl. now rewrite Nat.add_0_r. }
    simpl in Hp. assert (Hp' : (p' <= String.length rest)%nat) by lia.
    cbn [position_of_index Ace.split]. rewrite Hc.
    destruct (split_cons rest) as (line & more & Hsplit).
    destruct (Ace.is_LF c).
    + rewrite (IH (S i) 0%nat p' Hrest Hp'). cbv zeta.
      rewrite Hsplit.
      change (Ace.indexToPosition_from 1 (EmptyString :: line :: more) i (S p'))
        with (Ace.indexToPosition_from 1 (line :: more) (S i) (S p' - 1)).
      replace (S p' - 1)%nat with p' by lia.
      pose proof (indexToPosition_from_row 1 more line (S i) p') as Hrow.
      destruct (Ace.indexToPosition_from 1 (line :: more) (S i) p')
        as [qr qc]. cbn [Ace.row Ace.column] in *.
      replace (qr =? i)%nat with false by (symmetry; apply Nat.eqb_neq; lia).
      destruct (Nat.eqb_spec qr (S i)) as [->|]; reflexivity.
    + rewrite (IH i (S col) p' Hrest Hp'). cbv zeta. rewrite Hsplit.
      cbn [Ace.indexToPosition_from String.length].
      destruct (Nat.ltb_spec p' (String.length line + 1)) as [Hlt|Hge].
      * replace (S p' <? S (String.length line) + 1)%nat with true
          by (symmetry; apply Nat.ltb_lt; lia).
        cbn [Ace.row Ace.column]. rewrite Nat.eqb_refl. f_equal. lia.
      * replace (S p' <? S (String.length line) + 1)%nat with false
          by (symmetry; apply Nat.ltb_ge; lia).
        destruct more as [|next more'].
        -- cbn [Ace.row Ace.column]. rewrite Nat.eqb_refl. f_equal. lia.
        -- replace (S p' - (S (String.length line) + 1))%nat
             with (p' - (String.length line + 1))%nat by lia.
           pose proof (indexToPosition_from_row 1 more' next (S i)
                         (p' - (String.length line + 1))) as Hrow.
           destruct (Ace.indexToPosition_from 1 (next :: more') (S i)
                       (p' - (String.length line + 1))) as [qr qc].
           cbn [Ace.row Ace.column] in *.
           replace (qr =? i)%nat with false
             by (symmetry; apply Nat.eqb_neq; lia).
           reflexivity.
Qed.

(** The editor [setValue(val, p)] leaves, for a text whose line breaks are
    line feeds and [p] strictly inside it. *)
Lemma placed_in_text val p e :
  no_CR val = true ->
  0 < p < Z.of_nat (String.length val) ->
  Ace.getValue (placed val (Some p) e) = val /\
  Ace.cursor (placed val (Some p) e)
  = position_of_index val 0 0 (Z.to_nat p).
Proof.
  intros Hval Hp. split.
  { rewrite getValue_placed, (detectNewLine_no_CR val Hval).
    now apply join_split_no_CR. }
  destruct (split_cons val) as (line & more & Hsplit).
  destruct (indexToPosition_from_inverse (Ace.split val) 0 (Z.to_nat p))
    as (k & Hrow & Hk & Hcol & Hoff).
  { rewrite Hsplit. discriminate. }
  { rewrite (extent_split_no_CR val Hval). lia. }
  cbn zeta in *. simpl in Hrow.
  assert (Hmid : (0 <? p) && (p <? Z.of_nat (String.length val)) = true).
  { apply andb_true_intro. split; apply Z.ltb_lt; lia. }
  assert (Hindex :
    Ace.indexToPosition
      (Ace.navigate 1 (Ace.insertText val e)) (Z.to_nat p)
    = Ace.indexToPosition_from 1 (Ace.split val) 0 (Z.to_nat p)).
  { unfold Ace.indexToPosition. simpl.
    now rewrite (detectNewLine_no_CR val Hval). }
  assert (Hplaced :
    placed val (Some p) e
    = Ace.moveCursorTo
        (Ace.row (Ace.indexToPosition_from 1 (Ace.split val) 0 (Z.to_nat p)))
        (Ace.column (Ace.indexToPosition_from 1 (Ace.split val) 0 (Z.to_nat p)))
        (Ace.navigate 1 (Ace.insertText val e))).
  { unfold placed. rewrite Hmid.
    destruct p; try lia. cbv zeta. now rewrite Hindex. }
  rewrite Hplaced.
  rewrite (position_of_index_split val 0 0 (Z.to_nat p) Hval) by lia.
  cbv zeta.
  set (pos := Ace.indexToPosition_from 1 (Ace.split val) 0 (Z.to_nat p)) in *.
  cbn [Ace.moveCursorTo Ace.with_document Ace.cursor Ace.lines
       Ace.navigate Ace.insertText].
  assert (Hclip : Ace.clip (Ace.split val)
                    (Ace.Position (Ace.row pos) (Ace.column pos)) = pos).
  { unfold Ace.clip. cbn [Ace.row Ace.column]. rewrite Hrow.
    destruct (length (Ace.split val) <=? k)%nat eqn:Hge;
      [apply Nat.leb_le in Hge; lia|].
    rewrite Nat.min_r by lia. destruct pos as [pr pc]. simpl in *.
    now subst pr. }
  rewrite Hclip. destruct pos as [pr pc]. cbn [Ace.row Ace.column].
  destruct (Nat.eqb_spec pr 0) as [->|]; reflexivity.
Qed.

(** C4, as the code has it. On a built editor, [setValue(val, p)] with
    [0 <= p <= val.length] returns with the document holding the lines of
    [val] and the cursor at the start of the document when [p = 0] and at
    its end when [p = val.length]; when [p] lies strictly between and the
    line breaks of [val] are line feeds, the document reads [val] and the
    cursor is at the row and column of the character with index [p]. With
    the offset left out the cursor is at the end. *)
Theorem setValue_cursor (s : state) (val : string) (p : Z) :
  built s ->
  0 <= p <= Z.of_nat (String.length val) ->
  (exists s' r e',
     setValue val (Some p) s = Returns tt s' /\
     editor (self s') = Some r /\ heap (browser s') !! r = Some e' /\
     Ace.lines e' = Ace.split val /\
     (p = 0 -> Ace.cursor e' = Ace.fileStart) /\
     (p = Z.of_nat (String.length val) ->
        Ace.cursor e' = Ace.fileEnd (Ace.lines e')) /\
     (0 < p < Z.of_nat (String.length val) -> no_CR val = true ->
        Ace.getValue e' = val /\
        Ace.cursor e' = position_of_index val 0 0 (Z.to_nat p))) /\
  (exists s' r e',
     setValue val None s = Returns tt s' /\
     editor (self s') = Some r /\ heap (browser s') !! r = Some e' /\
     Ace.lines e' = Ace.split val /\
     Ace.cursor e' = Ace.fileEnd (Ace.lines e')).
Proof.
  intros (r & d & e & He & Hs & Hd & Hr) Hp.
  assert (Hlt : (r < length (heap (browser s)))%nat)
    by (eapply lookup_lt_Some; eauto).
  split.
  - destruct (setValue_built s r d e val (Some p) He Hs Hd Hr)
      as (st & cs & sv & Hset).
    exists (rewritten r (placed val (Some p) e) st cs sv s), r,
           (placed val (Some p) e).
    split; [exact Hset|]. split; [exact He|].
    split; [unfold rewritten; fields; apply list_lookup_insert_eq, Hlt|].
    split; [|split; [|split]].
    + unfold placed. destruct (_ && _); reflexivity.
    + intros ->. reflexivity.
    + intros ->. unfold placed. rewrite Z.ltb_irrefl, andb_false_r.
      destruct (Z.of_nat (String.length val)) eqn:Hlen; try reflexivity.
      destruct val; [reflexivity|discriminate Hlen].
    + intros Hmid Hval. now apply placed_in_text.
  - destruct (setValue_built s r d e val None He Hs Hd Hr)
      as (st & cs & sv & Hset).
    exists (rewritten r (placed val None e) st cs sv s), r, (placed val None e).
    split; [exact Hset|]. split; [exact He|].
    split; [unfold rewritten; fields; apply list_lookup_insert_eq, Hlt|].
    split; reflexivity.
Qed.

Lemma setValue_cursor_witness :
  let val := String.append "SUM($B)"
               (String Ace.LF (String.append "  / 2" (String Ace.LF "+ 1"))) in
  (exists s' r e',
     setValue val (Some 10) formula_editor = Returns tt s' /\
     editor (self s') = Some r /\ heap (browser s') !! r = Some e' /\
     Ace.lines e' = Ace.split val /\
     (10 = 0 -> Ace.cursor e' = Ace.fileStart) /\
     (10 = Z.of_nat (String.length val) ->
        Ace.cursor e' = Ace.fileEnd (Ace.lines e')) /\
     (0 < 10 < Z.of_nat (String.length val) -> no_CR val = true ->
        Ace.getValue e' = val /\
        Ace.cursor e' = position_of_index val 0 0 (Z.to_nat 10))) /\
  (exists s' r e',
     setValue val None formula_editor = Returns tt s' /\
     editor (self s') = Some r /\ heap (browser s') !! r = Some e' /\
     Ace.lines e' = Ace.split val /\
     Ace.cursor e' = Ace.fileEnd (Ace.lines e')).
Proof.
  apply (setValue_cursor formula_editor
           (String.append "SUM($B)"
              (String Ace.LF (String.append "  / 2" (String Ace.LF "+ 1"))))
           10).
  - exact formula_editor_built.
  - simpl. lia.
Defined.

(** C4 as worded does not hold: the document keeps one kind of line break,
    so in a text that mixes them the indices of the document are not those
    of the text. In [a], line feed, [b], carriage return, line feed, [c],
    the character with index 5 is the [c], in row 2 at column 0, and
    [setValue] with the offset 5 puts the cursor behind it. *)
Lemma setValue_cursor_mixed_breaks :
  let val := String "a" (String Ace.LF (String "b"
               (String Ace.CR (String Ace.LF "c")))) in
  let s' := final (setValue val (Some 5) formula_editor) in
  let e' := default (Ace.create 0) (heap (browser s') !! 0%nat) in
  0 < 5 < Z.of_nat (String.length val) /\
  setValue val (Some 5) formula_editor = Returns tt s' /\
  editor (self s') = Some 0%nat /\ heap (browser s') !! 0%nat = Some e' /\
  position_of_index val 0 0 5 = Ace.Position 2 0 /\
  Ace.cursor e' = Ace.Position 2 1.
Proof. vm_compute. repeat split; reflexivity. Qed.


(* ===================================================================== *)
(** ** Saving on blur *)
(* ===================================================================== *)

Lemma strictly_false_iff v : JS.strictly_false v = true <-> v = JS.Bool false.
Proof.
  destruct v as [| |[|]| | |]; simpl; split; congruence.
Qed.

(** The constructor switches saving on blur off for one value of the option
    only, [false] itself. *)
Lemma saveValueOnBlurEvent_off (options : option Options) :
  saveValueOnBlurEvent (new_AceEditor options) = false <->
  exists o, options = Some o /\ opt_saveValueOnBlurEvent o = JS.Bool false.
Proof.
  destruct options as [o|]; simpl.
  - rewrite negb_false_iff, strictly_false_iff. split; [eauto|].
    now intros (o' & [= <-] & H).
  - split; [discriminate|]. now intros (o & H & _).
Qed.

Lemma wp_run_cons (P : state -> Prop) a more s :
  wp (perform a) (fun _ s' => P (run more s')) (fun s' => P (run more s')) s ->
  P (run (a :: more) s).
Proof. intros H. simpl. unfold wp in H. now destruct (perform a s). Qed.


(** Evaluation of a state, an editor or a list built from known parts. *)
Ltac evaluate t :=
  eval cbn [self browser
       observable saveValueOnBlurEvent calcSize gristDoc editor editorDom
       session _fullDom _setupCallback _setupTimer textPadding
       set_editor set_editorDom set_session set_fullDom set_setupCallback
       set_setupTimer new_AceEditor
       opt_observable opt_saveValueOnBlurEvent opt_calcSize opt_gristDoc
       heap timers nextTimer nextElem styles disposables observed saved
       subscriptions calcSizeCalls setups metrics editReturnsExisting
       set_heap set_timers set_nextTimer set_nextElem set_styles
       set_disposables set_observed set_saved set_subscriptions
       set_calcSizeCalls set_setups
       insert list_insert lookup list_lookup app length
       Ace.container Ace.lines Ace.autoNewLine Ace.cursor Ace.allSelected
       Ace.readOnly Ace.cursorOpacity Ace.commands Ace.onChange Ace.onBlur
       Ace.useWrapMode Ace.fontSize Ace.settings
       Ace.create Ace.with_document Ace.removeAll Ace.insertText Ace.navigate
       Ace.moveCursorTo Ace.protect Ace.addCommand Ace.on_change Ace.on_blur
       Ace.setUseWrapMode Ace.setFontSize Ace.configure] in t.

Ltac tidy :=
  lazymatch goal with
  | |- wp _ _ _ ?s =>
      let s1 :=
        eval cbv [self browser
          observable saveValueOnBlurEvent calcSize gristDoc editor editorDom
          session _fullDom _setupCallback _setupTimer textPadding
          set_editor set_editorDom set_session set_fullDom set_setupCallback
          set_setupTimer new_AceEditor
          opt_observable opt_saveValueOnBlurEvent opt_calcSize opt_gristDoc
          heap timers nextTimer nextElem styles disposables observed saved
          subscriptions calcSizeCalls setups metrics editReturnsExisting
          set_heap set_timers set_nextTimer set_nextElem set_styles
          set_disposables set_observed set_saved set_subscriptions
          set_calcSizeCalls set_setups] in s in
      let s' := evaluate s1 in
      change s with s'
  end.

(** Like [wp_known], for code that runs on editors whose place in the heap
    is known outright. *)
Ltac wp_resize :=
  lazymatch goal with
  | |- wp resize _ _ ?s1 =>
      let st := fresh "st" in
      let cs := fresh "cs" in
      let H := fresh "Hresize" in
      edestruct (resize_repaints s1) as (st & cs & H);
      [reflexivity | reflexivity | reflexivity | reflexivity |];
      eapply wp_of_returns; [exact H|]; clear H; unfold repaint
  end.

Ltac wp_heap :=
  lazymatch goal with
  | |- wp (deref _ _) _ _ _ => eapply wp_deref_some; [reflexivity|]
  | |- wp (load _) _ _ _ => eapply wp_load_some; [reflexivity|]
  | |- wp (update _ _) _ _ _ => eapply wp_update_some; [reflexivity|]
  end.

Ltac wp_run := repeat (tidy; first [ wp_step | wp_resize | wp_heap ]).

Ltac head_of t :=
  lazymatch t with
  | ?f _ => head_of f
  | _ => t
  end.

(** Case analysis on whatever a statement branches on, and evaluation of
    the editors' listener lists. *)
Ltac wp_branch :=
  lazymatch goal with
  | |- wp (match ?x with _ => _ end) _ _ _ =>
      let x' := evaluate x in
      change x with x'; cbn beta iota;
      lazymatch goal with
      | |- wp (match ?y with _ => _ end) _ _ _ => destruct y eqn:?
      | |- _ => idtac
      end
  | |- wp (fire ?l) _ _ _ =>
      let l' := evaluate l in
      change l with l'; cbn [fire]
  | |- wp ?m _ _ _ =>
      let h := head_of m in
      first [ unfold h | fail 1 "stuck at" m ]
  end.

Ltac wp_all := repeat (wp_run; try wp_branch).

(** C10. Whatever the options: after [buildDom] and the timer, with some
    text typed, a blur pushes nothing when [options.saveValueOnBlurEvent] is
    [false] itself; it pushes nothing when no observable is bound; and it
    pushes the current text, once, when an observable is bound and the
    option is anything but [false] ([undefined], [null], [0], a missing
    options object, ...). Nothing is pushed before the blur. *)
Theorem save_on_blur (options : option Options) (m : Metrics) (reuse : bool)
    (held : option string) (text : string) :
  let flag :=
    match options with
    | Some o => opt_saveValueOnBlurEvent o
    | None => JS.Undefined
    end in
  let bound :=
    match options with Some o => opt_observable o | None => None end in
  let current := JS.Str (Ace.join (Ace.detectNewLine text) (Ace.split text)) in
  let s := run [BuildDom None; Timeout 1; Typed text]
             (start options (new_Browser m reuse held)) in
  getValue s = Returns current s /\
  saved (browser s) = [] /\
  (flag = JS.Bool false -> saved (browser (run [Blur] s)) = []) /\
  (bound = None -> saved (browser (run [Blur] s)) = []) /\
  (flag <> JS.Bool false -> bound <> None ->
     saved (browser (run [Blur] s)) = [current]).
Proof.
  intros flag bound current s. subst s flag bound.
  destruct options as [[obs flag calc gd]|];
    cbn [opt_observable opt_saveValueOnBlurEvent].
  (* buildDom, then the timer *)
  all: lazymatch goal with
       | |- context [run (BuildDom ?c :: ?l) ?s0] =>
           pattern (run (BuildDom c :: l) s0)
       end;
       apply wp_run_cons; unfold perform, start, new_Browser, buildDom; wp_run.
  all: lazymatch goal with
       | |- context [run (Timeout ?c :: ?l) ?s0] =>
           pattern (run (Timeout c :: l) s0)
       end;
       apply wp_run_cons; unfold perform, timeout; wp_run;
       simpl existsb; cbn iota;
       unfold clearTimeout, _setup, ace_edit, allocate; wp_run;
       simpl hosted; cbn iota; wp_all.
  (* the user types *)
  all: lazymatch goal with
       | |- context [run (Typed ?c :: ?l) ?s0] =>
           pattern (run (Typed c :: l) s0)
       end;
       apply wp_run_cons; unfold perform; wp_all; cbn [run].
  all: split;
       [erewrite (getValue_built _ 0%nat) by reflexivity; reflexivity|].
  all: split; [reflexivity|].
  (* the editor loses the focus *)
  all: repeat split; intros.
  all: lazymatch goal with
       | |- saved (browser (final (?m ?s0))) = ?v =>
           apply (wp_final m (fun x => saved (browser x) = v) s0)
       end;
       unfold perform, blur, emit_blur; wp_all.
  all: try reflexivity.
  all: try congruence.
  all: match goal with
       | H : negb (JS.strictly_false ?f) = false |- _ =>
           apply negb_false_iff, strictly_false_iff in H; congruence
       | H : negb (JS.strictly_false ?f) = true, H' : ?f = JS.Bool false |- _ =>
           rewrite H' in H; discriminate
       end.
Qed.

(** The flag only counts when it is [false] itself: [0] is falsy, and the
    text is still saved on blur. *)
Example blur_saves_with_flag_zero :
  let options :=
    Some (mkOptions (Some 0%nat) (JS.Num 0) None None) in
  let s := run [BuildDom None; Timeout 1; Typed "$A"; Blur]
             (start options (new_Browser monospace true None)) in
  saved (browser s) = [JS.Str "$A"].
Proof. vm_compute. reflexivity. Qed.

Lemma save_on_blur_witness :
  let options :=
    Some (mkOptions (Some 0%nat) (JS.Bool false) None None) in
  let s := run [BuildDom None; Timeout 1; Typed "$A"]
             (start options (new_Browser monospace true None)) in
  saved (browser (run [Blur] s)) = [].
Proof.
  apply (proj1 (proj2 (proj2
           (save_on_blur
              (Some (mkOptions (Some 0%nat) (JS.Bool false) None None))
              monospace true None "$A")))).
  reflexivity.
Defined.

(* ===================================================================== *)
(** ** What most methods leave alone *)
(* ===================================================================== *)

Lemma ordinary_refl s : ordinary s s.
Proof. unfold ordinary. auto. Qed.

Lemma ordinary_trans s1 s2 s3 : ordinary s1 s2 -> ordinary s2 s3 -> ordinary s1 s3.
Proof. unfold ordinary. intuition congruence. Qed.

Section Frames.

Context {A : Type}.

Lemma frames_ret (a : A) : frames (ret a).
Proof. intros s. apply ordinary_refl. Qed.

Lemma frames_throw e : frames (throw e : M A).
Proof. intros s. apply ordinary_refl. Qed.

Lemma frames_deref what (field : option A) : frames (deref what field).
Proof. intros s. destruct field; apply ordinary_refl. Qed.

Lemma frames_bind {B} (m : M A) (k : A -> M B) :
  frames m -> (forall a, frames (k a)) -> frames (bind m k).
Proof.
  intros Hm Hk s. apply wp_bind. eapply wp_mono; [apply Hm| |auto].
  intros a s' Hs'. cbv beta. eapply wp_mono; [apply Hk| |]; cbv beta.
  - intros b s''. now apply ordinary_trans.
  - intros s''. now apply ordinary_trans.
Qed.

(** Using a framed call inside a larger proof. *)
Lemma wp_frames (m : M A) (Q : A -> state -> Prop) (E : state -> Prop) s :
  frames m ->
  (forall a s', ordinary s s' -> Q a s') ->
  (forall s', ordinary s s' -> E s') ->
  wp m Q E s.
Proof. intros Hm HQ HE. eapply wp_mono; [apply Hm|auto|auto]. Qed.

End Frames.

Lemma frames_this : frames this.
Proof. intros s. apply ordinary_refl. Qed.

Lemma frames_window : frames window.
Proof. intros s. apply ordinary_refl. Qed.

Lemma frames_load r : frames (load r).
Proof.
  unfold load. apply frames_bind; [apply frames_window|].
  intros b. apply frames_deref.
Qed.

Lemma frames_update r f : frames (update r f).
Proof.
  intros s. apply wp_update; [|intros; apply ordinary_refl].
  intros e He. unfold ordinary. fields. rewrite length_insert. auto.
Qed.

Lemma frames_effect f :
  (forall b, length (heap (f b)) = length (heap b) /\
             disposables (f b) = disposables b /\
             timers (f b) = timers b /\ setups (f b) = setups b) ->
  frames (effect f).
Proof.
  intros Hf s. apply wp_effect. unfold ordinary. fields.
  destruct (Hf (browser s)) as (? & ? & ? & ?). auto.
Qed.

Create HintDb frames discriminated.

#[local] Hint Resolve frames_ret frames_throw frames_deref frames_this
  frames_window frames_load frames_update : frames.

(** Breaks a statement into its parts; what remains are the branches. *)
Ltac frames_go :=
  repeat first
    [ solve [auto with frames]
    | apply frames_bind; [|intro]
    | apply frames_effect; intro; fields; rewrite ?length_insert; auto
    | lazymatch goal with
      | |- frames (match ?x with _ => _ end) => destruct x
      end ].

Lemma frames_getValue : frames getValue.
Proof. unfold getValue. frames_go. Qed.

Lemma frames_writeObservable : frames writeObservable.
Proof.
  unfold writeObservable. frames_go.
Qed.

Lemma frames_getContentWidth : frames _getContentWidth.
Proof. unfold _getContentWidth. frames_go. Qed.

Lemma frames_getContentHeight : frames _getContentHeight.
Proof. unfold _getContentHeight. frames_go. Qed.

Lemma frames_call_calcSize size : frames (call_calcSize size).
Proof. unfold call_calcSize. frames_go. Qed.

#[local] Hint Resolve frames_getValue frames_writeObservable
  frames_getContentWidth frames_getContentHeight frames_call_calcSize : frames.

Lemma frames_resize : frames resize.
Proof. unfold resize. frames_go. Qed.

#[local] Hint Resolve frames_resize : frames.

Lemma frames_fire listeners : frames (fire listeners).
Proof.
  induction listeners as [|[] more IH]; simpl; frames_go.
Qed.

#[local] Hint Resolve frames_fire : frames.

Lemma frames_emit_change r : frames (emit_change r).
Proof. unfold emit_change. frames_go. Qed.

Lemma frames_emit_blur r : frames (emit_blur r).
Proof. unfold emit_blur. frames_go. Qed.

#[local] Hint Resolve frames_emit_change frames_emit_blur : frames.

Lemma frames_editor_setValue r val cursorPos :
  frames (editor_setValue r val cursorPos).
Proof. unfold editor_setValue. frames_go. Qed.

#[local] Hint Resolve frames_editor_setValue : frames.

Lemma frames_setValue val optCursorPos : frames (setValue val optCursorPos).
Proof. unfold setValue. frames_go. Qed.

#[local] Hint Resolve frames_setValue : frames.

Lemma frames_attachCommands knownKeys : forall r, frames (attachCommands r knownKeys).
Proof.
  induction knownKeys as [|[key command] more IH]; intros r; simpl; frames_go.
Qed.

Lemma frames_notify subscribers val : frames (notify subscribers val).
Proof.
  induction subscribers as [|d more IH]; simpl; frames_go.
Qed.

#[local] Hint Resolve frames_attachCommands frames_notify : frames.

(** Every method but [buildDom] and [onAttach], and every event but the
    timer, leaves the fields of the instance, the number of editors, what
    is registered for disposal, the pending timers and the count of
    [_setup] runs as they are. *)
Lemma frames_perform a :
  match a with
  | BuildDom _ | OnAttach | Timeout _ => True
  | _ => frames (perform a)
  end.
Proof.
  destruct a; try exact I; unfold perform, discard.
  - auto with frames.
  - unfold getEditor. frames_go.
  - frames_go.
  - auto with frames.
  - unfold isBuilt. frames_go.
  - unfold enable. frames_go.
  - unfold attachCommandGroup. frames_go.
  - unfold attachSaveCommand. frames_go.
  - unfold adjustContentToWidth. frames_go.
  - unfold setFontSize. frames_go.
  - auto with frames.
  - unfold blur. frames_go.
  - unfold changed. frames_go.
  - unfold typed. frames_go.
Qed.

(* ===================================================================== *)
(** ** Lifetimes *)
(* ===================================================================== *)

Section Keeps.

Variable I : state -> Prop.

Lemma keeps_ret {A} (a : A) : keeps I (ret a).
Proof. intros s Hs. exact Hs. Qed.

Lemma keeps_bind {A B} (m : M A) (k : A -> M B) :
  keeps I m -> (forall a, keeps I (k a)) -> keeps I (bind m k).
Proof.
  intros Hm Hk s Hs. apply wp_bind. eapply wp_mono; [apply Hm, Hs| |auto].
  intros a s' Hs'. cbv beta. apply Hk, Hs'.
Qed.

Lemma keeps_this : keeps I this.
Proof. intros s Hs. exact Hs. Qed.

Lemma keeps_assign f :
  (forall s, I s -> I (mkState (f (self s)) (browser s))) ->
  keeps I (assign f).
Proof. intros Hf s Hs. apply wp_assign. auto. Qed.

Hypothesis I_ordinary : forall s s', I s -> ordinary s s' -> I s'.

Lemma keeps_frames {A} (m : M A) : frames m -> keeps I m.
Proof using I_ordinary.
  intros Hm s Hs. apply wp_frames; eauto.
Qed.

Lemma keeps_wp {A} (m : M A) (Q : A -> state -> Prop) (E : state -> Prop) s :
  keeps I m -> I s ->
  (forall a s', I s' -> Q a s') -> (forall s', I s' -> E s') ->
  wp m Q E s.
Proof. intros Hm Hs HQ HE. eapply wp_mono; [apply Hm, Hs|auto|auto]. Qed.

End Keeps.

Lemma consistent_ordinary s s' : consistent s -> ordinary s s' -> consistent s'.
Proof.
  unfold consistent, ordinary, owns.
  intros (Hse & Hown & Hall & Hle & Hdom) (Hself & Hlen & Hdisp & Htim & Hset).
  rewrite Hself, Hlen, Hdisp, Htim, Hset. auto.
Qed.

Lemma hosted_lt el editors : forall r0 r,
  hosted el r0 editors = Some r -> (r < r0 + length editors)%nat.
Proof.
  induction editors as [|e more IH]; intros r0 r; simpl; [discriminate|].
  destruct (Ace.container e =? el)%nat.
  - intros [= ->]. lia.
  - intros H%IH. lia.
Qed.

(** [ace.edit] returns an editor that exists, and makes one new editor at
    most. *)
Lemma wp_ace_edit el (Q : nat -> state -> Prop) E s :
  (forall r s',
     self s' = self s ->
     (r < length (heap (browser s')))%nat ->
     (length (heap (browser s)) <= length (heap (browser s')))%nat ->
     (forall r', (r' < length (heap (browser s')))%nat ->
        r' = r \/ (r' < length (heap (browser s)))%nat) ->
     (length (heap (browser s')) <= S (length (heap (browser s))))%nat ->
     (r < length (heap (browser s)))%nat \/
       length (heap (browser s')) = S (length (heap (browser s))) ->
     disposables (browser s') = disposables (browser s) ->
     timers (browser s') = timers (browser s) ->
     setups (browser s') = setups (browser s) ->
     Q r s') ->
  wp (ace_edit el) Q E s.
Proof.
  intros HQ. unfold ace_edit, allocate.
  assert (Hnew : forall el' b,
    length (heap (browser s)) = length (heap b) ->
    disposables b = disposables (browser s) ->
    timers b = timers (browser s) -> setups b = setups (browser s) ->
    Q (length (heap b))
      (mkState (self s) (set_heap (heap b ++ [Ace.create el']) b))).
  { intros el' b Hlen Hd Ht Hs. apply HQ; fields; rewrite ?length_app; simpl;
      auto; try lia. }
  wp_steps. destruct el as [el|].
  - destruct (hosted el 0 (heap (browser s))) as [r|] eqn:Hh.
    + destruct (editReturnsExisting (browser s)).
      * wp_steps. apply hosted_lt in Hh. apply HQ; auto; try lia.
      * wp_steps. fields. now apply Hnew.
    + wp_steps. fields. now apply Hnew.
  - wp_steps. fields. apply (Hnew _ (set_nextElem _ (browser s))); reflexivity.
Qed.

Lemma settled_ordinary bound n r s s' :
  settled bound n r s -> ordinary s s' -> settled bound n r s'.
Proof.
  intros (Hc & Ho & Hn & He) Hord.
  pose proof (consistent_ordinary s s' Hc Hord) as Hc'.
  destruct Hord as (Hself & _ & _ & _ & Hset).
  unfold settled. rewrite Hself, Hset. auto.
Qed.

Ltac keeps_go :=
  repeat first
    [ apply keeps_frames;
        [ intros ? ?; apply settled_ordinary
        | solve [auto with frames | frames_go] ]
    | apply keeps_bind; [|intro]
    | apply keeps_ret
    | lazymatch goal with
      | |- keeps _ (match ?x with _ => _ end) => destruct x
      end ].

(** Whenever [_setup] runs in a consistent state after [buildDom], it
    leaves a consistent state, the same observable, and has run once
    more. *)
Lemma setup_consistent s :
  consistent s -> editorDom (self s) <> None ->
  let P s' :=
    consistent s' /\ observable (self s') = observable (self s) /\
    setups (browser s') = S (setups (browser s)) in
  wp _setup (fun _ => P) P s.
Proof.
  intros (Hse & Hown & Hall & Hle & Hdom) Hbuilt P.
  unfold _setup. wp_steps. fields.
  apply wp_ace_edit. fields.
  intros r s1 Hself Hr Hge Hnew Hle1 Hgrow Hdisp Htim Hset.
  wp_steps. fields.
  (* the state in which the editor and the session are stored *)
  assert (Hsettled : forall h,
    length h = length (heap (browser s1)) ->
    settled (observable (self s)) (S (setups (browser s))) r
      (mkState (set_session (Some r) (set_editor (Some r) (self s1)))
         (set_heap h
            (set_disposables (disposables (browser s1) ++ [r]) (browser s1))))).
  { intros h Hh. unfold settled, consistent, owns. fields.
    rewrite Hh, Hself, Hset, Hdisp. repeat split; auto; try contradiction.
    all: try match goal with H : Some _ = Some _ |- _ => injection H as <- end.
    - exact Hr.
    - apply in_or_app. right. now left.
    - intros r' Hr'. apply in_or_app.
      destruct (Hnew r' Hr') as [->|Hold]; [right; now left|left; auto].
    - lia. }
  (* what follows maintains it *)
  assert (Htail : forall s2,
    settled (observable (self s)) (S (setups (browser s))) r s2 -> P s2).
  { intros s2 (Hc & Ho & Hn & He). unfold P. auto. }
  assert (Hlookup : forall (h : list Ace.Editor),
    length h = length (heap (browser s1)) -> h !! r = None -> False).
  { intros h Hh Hnone. apply lookup_ge_None in Hnone. lia. }
  set (tail := (update r (Ace.configure "mode" _);; _)%js).
  assert (Hkeeps :
    keeps (settled (observable (self s)) (S (setups (browser s))) r) tail).
  { subst tail. keeps_go.
    - apply keeps_assign. intros s2 (Hc & Ho & Hn & He).
      unfold settled, consistent, owns in *. fields. auto. }
  assert (Hfrom : forall h,
    length h = length (heap (browser s1)) ->
    wp (update r (Ace.configure "enableLiveAutocompletion" (JS.Bool true));;
        assign (set_session (Some r));; tail)
       (fun _ => P) P
       (mkState (set_editor (Some r) (self s1))
          (set_heap h
             (set_disposables (disposables (browser s1) ++ [r]) (browser s1))))).
  { intros h Hh. wp_step. apply wp_update; fields.
    - intros e He. wp_steps. fields.
      match goal with |- wp _ _ _ (mkState _ (set_heap ?h' _)) =>
        specialize (Hsettled h')
      end.
      eapply keeps_wp; [exact Hkeeps| | |]; eauto.
      apply Hsettled. now rewrite length_insert.
    - intros Hnone. exfalso. eauto. }
  destruct (gristDoc (self s)).
  - apply wp_update; fields.
    + intros e He. apply Hfrom. now rewrite length_insert.
    + intros Hnone. exfalso. eauto.
  - wp_step. fields.
    replace (set_disposables _ _) with
      (set_heap (heap (browser s1))
         (set_disposables (disposables (browser s1) ++ [r]) (browser s1)))
      by (destruct (browser s1); reflexivity).
    now apply Hfrom.
Qed.

Lemma sound_ordinary bound n s s' :
  sound bound n s -> ordinary s s' -> sound bound n s'.
Proof.
  intros (Hc & Ho & Hn) Hord.
  pose proof (consistent_ordinary s s' Hc Hord) as Hc'.
  destruct Hord as (Hself & _ & _ & _ & Hset).
  unfold sound. rewrite Hself, Hset. auto.
Qed.

Lemma sound_setup bound n s :
  sound bound n s -> editorDom (self s) <> None ->
  wp _setup (fun _ => sound bound (n + 1)) (sound bound (n + 1)) s.
Proof.
  intros (Hc & Ho & Hn) Hdom.
  eapply wp_mono; [apply (setup_consistent s Hc Hdom)| |]; cbv beta.
  - intros _ s' (Hc' & Ho' & Hn').
    split; [exact Hc'|split; [congruence|lia]].
  - intros s' (Hc' & Ho' & Hn').
    split; [exact Hc'|split; [congruence|lia]].
Qed.

(** With a container element in place, consistency depends on the editors
    only. *)
Lemma consistent_rebuilt s s' :
  consistent s ->
  editor (self s') = editor (self s) ->
  session (self s') = session (self s) ->
  editorDom (self s') <> None ->
  length (heap (browser s')) = length (heap (browser s)) ->
  disposables (browser s') = disposables (browser s) ->
  setups (browser s') = setups (browser s) ->
  consistent s'.
Proof.
  unfold consistent, owns.
  intros (Hse & Hown & Hall & Hle & Hdom) He Hs Hd Hlen Hdisp Hset.
  rewrite He, Hs, Hlen, Hdisp, Hset.
  split; [exact Hse|]. split; [exact Hown|]. split; [exact Hall|].
  split; [exact Hle|]. intros Hnone. contradiction.
Qed.

Lemma sound_perform bound n a s :
  sound bound n s -> sound bound (n + weight a) (final (perform a s)).
Proof.
  intros Hs.
  assert (Hframes : frames (perform a) ->
            sound bound (n + weight a) (final (perform a s))).
  { intros Hf. apply wp_final. apply wp_frames; [exact Hf| |].
    - intros _ s' Hord. apply (sound_ordinary bound n s s') in Hord; auto.
      destruct Hord as (? & ? & ?). split; [|split]; auto. lia.
    - intros s' Hord. apply (sound_ordinary bound n s s') in Hord; auto.
      destruct Hord as (? & ? & ?). split; [|split]; auto. lia. }
  pose proof (frames_perform a) as Hf.
  destruct a; try (apply Hframes, Hf); clear Hframes Hf;
    apply wp_final; unfold perform, weight.
  - (* buildDom *)
    destruct Hs as (Hc & Ho & Hn).
    unfold buildDom, discard. wp_steps. fields.
    split; [|split]; fields; auto; try lia.
    apply (consistent_rebuilt s); fields; auto.
  - (* onAttach *)
    unfold onAttach. wp_steps.
    destruct (_setupTimer (self s)) as [[|t]|] eqn:Htimer; wp_steps.
    + destruct Hs as (? & ? & ?). split; [|split]; auto. lia.
    + unfold clearTimeout. wp_steps. fields.
      assert (Hdom' : editorDom (self s) <> None).
      { intros Hnone. destruct Hs as ((_ & _ & _ & _ & Hdom) & _).
        destruct (Hdom Hnone) as (? & ? & ?). congruence. }
      destruct Hs as (Hc & Ho & Hn).
      apply sound_setup; [|exact Hdom'].
      split; [|split]; fields; auto.
      apply (consistent_rebuilt s); fields; auto.
    + destruct Hs as (? & ? & ?). split; [|split]; auto. lia.
  - (* the timer *)
    unfold timeout. wp_steps.
    destruct (existsb (Nat.eqb t) (timers (browser s))) eqn:Hpending; wp_steps.
    + unfold clearTimeout. wp_steps. fields.
      assert (Hdom' : editorDom (self s) <> None).
      { intros Hnone. destruct Hs as ((_ & _ & _ & _ & Hdom) & _).
        destruct (Hdom Hnone) as (_ & _ & Hempty).
        rewrite Hempty in Hpending. discriminate. }
      destruct Hs as (Hc & Ho & Hn).
      apply sound_setup; [|exact Hdom'].
      split; [|split]; fields; auto.
      apply (consistent_rebuilt s); fields; auto.
    + destruct Hs as (? & ? & ?). split; [|split]; auto. lia.
Qed.

Lemma sound_run bound actions : forall n s,
  sound bound n s ->
  sound bound (n + list_sum (map weight actions)) (run actions s).
Proof.
  induction actions as [|a more IH]; intros n s Hs; simpl.
  - now rewrite Nat.add_0_r.
  - rewrite Nat.add_assoc. apply IH, sound_perform, Hs.
Qed.

Lemma sound_start options page :
  heap page = [] -> timers page = [] -> setups page = 0%nat ->
  sound (observable (new_AceEditor options)) 0 (start options page).
Proof.
  intros Hheap Htimers Hsetups.
  unfold sound, consistent, owns, start. fields.
  rewrite Hheap, Hsetups. simpl. repeat split; auto; try lia; try discriminate.
Qed.

(** C8, as the code has it. At every point of every lifetime: the
    observable is the one bound at construction; the [editor] field is
    [null] or names one editor, which the instance owns; every editor that
    exists is owned by the instance, and there is at most one per run of
    [_setup], of which there is at most one per expired timer or call of
    [onAttach]. *)
Theorem lifetime_editors (options : option Options) (m : Metrics)
    (reuse : bool) (held : option string) (actions : list action) :
  let s := run actions (start options (new_Browser m reuse held)) in
  observable (self s) = observable (new_AceEditor options) /\
  (forall r, editor (self s) = Some r -> owns s r) /\
  (forall r, (r < length (heap (browser s)))%nat -> owns s r) /\
  (length (heap (browser s)) <= setups (browser s))%nat /\
  (setups (browser s) <= list_sum (map weight actions))%nat.
Proof.
  intros s.
  destruct (sound_run (observable (new_AceEditor options)) actions 0
              (start options (new_Browser m reuse held)))
    as ((Hse & Hown & Hall & Hle & Hdom) & Ho & Hn).
  { now apply sound_start. }
  fold s in Hse, Hown, Hall, Hle, Hdom, Ho, Hn.
  split; [exact Ho|]. split; [exact Hown|].
  split; [intros r Hr; split; auto|]. split; [exact Hle|exact Hn].
Qed.

(** C8 as worded does not hold: [buildDom] may be called again, and once
    the second timer has run the instance owns two editors, neither of them
    destroyed. *)
Lemma two_editors_after_rebuild :
  let s := run [BuildDom None; Timeout 1; BuildDom None; Timeout 2]
             (start None (new_Browser monospace true None)) in
  owns s 0 /\ owns s 1 /\ editor (self s) = Some 1%nat.
Proof. vm_compute. repeat split; auto. Qed.

(** The timer does not clear [_setupTimer] when it expires, so a call of
    [onAttach] after that runs [_setup] a second time: on the editor the
    element already has when [ace.edit] returns that one, on a second
    editor otherwise. *)
Example onAttach_after_timeout :
  let s reuse := run [BuildDom None; Timeout 1; OnAttach]
                   (start None (new_Browser monospace reuse None)) in
  setups (browser (s true)) = 2%nat /\
  length (heap (browser (s true))) = 1%nat /\
  setups (browser (s false)) = 2%nat /\
  length (heap (browser (s false))) = 2%nat.
Proof. vm_compute. repeat split. Qed.

(** In a lifetime, [isBuilt] tells whether the editor is built. *)
Lemma lifetime_built (options : option Options) (m : Metrics)
    (reuse : bool) (held : option string) (actions : list action) :
  let s := run actions (start options (new_Browser m reuse held)) in
  isBuilt s = Returns true s -> built s.
Proof.
  intros s.
  destruct (sound_run (observable (new_AceEditor options)) actions 0
              (start options (new_Browser m reuse held)))
    as ((Hse & Hown & Hall & Hle & Hdom) & Ho & Hn).
  { now apply sound_start. }
  fold s in Hse, Hown, Hall, Hle, Hdom, Ho, Hn.
  unfold isBuilt, bind, this, ret.
  destruct (editor (self s)) as [r|] eqn:He; [intros _|discriminate].
  destruct (Hown r eq_refl) as (Hr & _).
  destruct (lookup_lt_is_Some_2 _ _ Hr) as (e & Hlookup).
  destruct (editorDom (self s)) as [d|] eqn:Hd.
  - exists r, d, e. auto.
  - destruct (Hdom eq_refl) as (? & _). discriminate.
Qed.

(* ===================================================================== *)
(** ** Calls on a built editor *)
(* ===================================================================== *)

Lemma built_ordinary s s' : built s -> ordinary s s' -> built s'.
Proof.
  intros (r & d & e & He & Hs & Hd & Hr) (Hself & Hlen & _).
  assert (Hlt : (r < length (heap (browser s')))%nat).
  { rewrite Hlen. eapply lookup_lt_Some; eauto. }
  destruct (lookup_lt_is_Some_2 _ _ Hlt) as (e' & He').
  exists r, d, e'. rewrite Hself. auto.
Qed.

Lemma built_editor s r :
  built s -> editor (self s) = Some r ->
  session (self s) = Some r /\ (r < length (heap (browser s)))%nat /\
  exists d e, editorDom (self s) = Some d /\ heap (browser s) !! r = Some e.
Proof.
  intros (r' & d & e & He & Hs & Hd & Hr) Her.
  assert (r' = r) as -> by congruence.
  split; [exact Hs|]. split; [eapply lookup_lt_Some; eauto|eauto].
Qed.

Lemma map_insert_same {V} (view : Ace.Editor -> V) r e e' : forall h,
  h !! r = Some e -> view e' = view e ->
  map view (<[r := e']> h) = map view h.
Proof.
  induction r as [|r IH]; intros [|x h] Hr Hv; try discriminate; simpl in *.
  - injection Hr as ->. now rewrite Hv.
  - f_equal. now apply IH.
Qed.

Lemma map_lookup {V} (view : Ace.Editor -> V) r e : forall h h',
  map view h' = map view h -> h !! r = Some e ->
  exists e', h' !! r = Some e' /\ view e' = view e.
Proof.
  induction r as [|r IH]; intros [|x h] [|x' h'] Hmap Hr;
    try discriminate; simpl in *; injection Hmap as Hx Hmap.
  - injection Hr as ->. eauto.
  - eapply IH; eauto.
Qed.

Section Calm.

Context {V : Type}.
Variable view : Ace.Editor -> V.

Lemma alike_refl s : alike view s s.
Proof. split; [apply ordinary_refl|reflexivity]. Qed.

Lemma alike_trans s1 s2 s3 :
  alike view s1 s2 -> alike view s2 s3 -> alike view s1 s3.
Proof.
  intros (Ho & Hm) (Ho' & Hm').
  split; [eapply ordinary_trans; eauto|congruence].
Qed.

Lemma alike_lookup s s' r e :
  alike view s s' -> heap (browser s) !! r = Some e ->
  exists e', heap (browser s') !! r = Some e' /\ view e' = view e.
Proof. intros (_ & Hm) Hr. eapply map_lookup; eauto. Qed.

Lemma alike_repaint st cs sv s : alike view s (repaint st cs sv s).
Proof.
  split; [|reflexivity]. unfold ordinary, repaint. fields. auto.
Qed.

Lemma alike_rewritten r e e' st cs sv s :
  heap (browser s) !! r = Some e -> view e' = view e ->
  alike view s (rewritten r e' st cs sv s).
Proof.
  intros Hr Hv. split.
  - unfold ordinary, rewritten, repaint. fields. rewrite length_insert. auto.
  - unfold rewritten, repaint. fields. eapply map_insert_same; eauto.
Qed.

Variable o : AceEditor.

Lemma calm_at_ret {A} (a : A) : calm_at view o (ret a).
Proof. intros s _ _. apply alike_refl. Qed.

Lemma calm_at_bind {A B} (m : M A) (k : A -> M B) :
  calm_at view o m -> (forall a, calm_at view o (k a)) ->
  calm_at view o (bind m k).
Proof.
  intros Hm Hk s Hb Ho. apply wp_bind.
  eapply wp_mono; [apply (Hm s Hb Ho)| |auto].
  intros a s' Hord. cbv beta.
  eapply wp_mono; [apply (Hk a s')| |auto]; cbv beta.
  - eapply built_ordinary; [eauto|apply Hord].
  - destruct Hord as ((Hself & _) & _). congruence.
  - intros b s''. now apply alike_trans.
Qed.

Lemma calm_at_this {B} (k : AceEditor -> M B) :
  calm_at view o (k o) -> calm_at view o (bind this k).
Proof.
  intros Hk s Hb Ho. apply wp_bind, wp_this. rewrite Ho. now apply Hk.
Qed.

Lemma calm_at_window : calm_at view o window.
Proof. intros s _ _. apply alike_refl. Qed.

Lemma calm_at_effect f :
  (forall b, heap (f b) = heap b /\
             disposables (f b) = disposables b /\
             timers (f b) = timers b /\ setups (f b) = setups b) ->
  calm_at view o (effect f).
Proof.
  intros Hf s _ _. unfold wp, effect, alike, ordinary. simpl.
  destruct (Hf (browser s)) as (-> & -> & -> & ->). repeat split.
Qed.

(** Dereferencing the fields that a built editor has. *)
Lemma calm_at_editor {B} what (k : nat -> M B) :
  (forall r, editor o = Some r -> calm_at view o (k r)) ->
  calm_at view o (bind (deref what (editor o)) k).
Proof.
  intros Hk s Hb Ho.
  destruct Hb as (r & d & e & He & Hs & Hd & Hr).
  rewrite Ho in He. rewrite He. apply wp_bind. apply wp_ret.
  apply (Hk r He); [|exact Ho]. exists r, d, e. repeat split; congruence.
Qed.

Lemma calm_at_session {B} what (k : nat -> M B) :
  (forall r, editor o = Some r -> calm_at view o (k r)) ->
  calm_at view o (bind (deref what (session o)) k).
Proof.
  intros Hk s Hb Ho.
  destruct Hb as (r & d & e & He & Hs & Hd & Hr).
  rewrite Ho in He, Hs. rewrite Hs. apply wp_bind. apply wp_ret.
  apply (Hk r He); [|exact Ho]. exists r, d, e. repeat split; congruence.
Qed.

Lemma calm_at_editorDom {B} what (k : nat -> M B) :
  (forall d, calm_at view o (k d)) ->
  calm_at view o (bind (deref what (editorDom o)) k).
Proof.
  intros Hk s Hb Ho.
  destruct Hb as (r & d & e & He & Hs & Hd & Hr).
  rewrite Ho in Hd. rewrite Hd. apply wp_bind. apply wp_ret.
  apply (Hk d); [|exact Ho]. exists r, d, e. repeat split; congruence.
Qed.

Lemma calm_at_deref {A B} what (field : option A) a (k : A -> M B) :
  field = Some a -> calm_at view o (k a) ->
  calm_at view o (bind (deref what field) k).
Proof.
  intros -> Hk s Hb Ho. apply wp_bind, wp_ret. now apply Hk.
Qed.

Lemma calm_at_load r : editor o = Some r -> calm_at view o (load r).
Proof.
  intros He s Hb Ho. rewrite <- Ho in He.
  destruct (built_editor s r Hb He) as (_ & _ & d & e & _ & Hr).
  eapply wp_load_some; [exact Hr|]. apply alike_refl.
Qed.

Lemma calm_at_update r f :
  editor o = Some r -> (forall e, view (f e) = view e) ->
  calm_at view o (update r f).
Proof.
  intros He Hf s Hb Ho. rewrite <- Ho in He.
  destruct (built_editor s r Hb He) as (_ & _ & d & e & _ & Hr).
  eapply wp_update_some; [exact Hr|].
  replace (mkState _ _) with
    (rewritten r (f e) (styles (browser s)) (calcSizeCalls (browser s))
       (saved (browser s)) s).
  - eapply alike_rewritten; eauto.
  - unfold rewritten, repaint. by_fields.
Qed.

Lemma calm_at_resize : calm_at view o resize.
Proof.
  intros s (r & d & e & He & Hs & Hd & Hr) Ho.
  destruct (resize_repaints s r d e He Hs Hd Hr) as (st & cs & Hrun).
  eapply wp_of_returns; [exact Hrun|]. apply alike_repaint.
Qed.

Lemma calm_at_fire ls : calm_at view o (fire ls).
Proof.
  intros s (r & d & e & He & Hs & Hd & Hr) Ho.
  destruct (fire_built ls s r d e He Hs Hd Hr) as (st & cs & sv & Hrun).
  eapply wp_of_returns; [exact Hrun|]. apply alike_repaint.
Qed.

Lemma calm_at_setValue val optCursorPos :
  (forall e, view (placed val optCursorPos e) = view e) ->
  calm_at view o (setValue val optCursorPos).
Proof.
  intros Hv s (r & d & e & He & Hs & Hd & Hr) Ho.
  destruct (setValue_built s r d e val optCursorPos He Hs Hd Hr)
    as (st & cs & sv & Hrun).
  eapply wp_of_returns; [exact Hrun|].
  eapply alike_rewritten; eauto.
Qed.

Lemma calm_at_getValue : calm_at view o getValue.
Proof.
  intros s (r & d & e & He & Hs & Hd & Hr) Ho.
  eapply wp_of_returns; [exact (getValue_built s r e He Hr)|].
  apply alike_refl.
Qed.

Lemma calm_at_writeObservable : calm_at view o writeObservable.
Proof.
  intros s (r & d & e & He & Hs & Hd & Hr) Ho.
  eapply wp_of_returns; [exact (writeObservable_built s r e He Hr)|].
  apply alike_repaint.
Qed.

End Calm.

(** A setter of the widget leaves a view alone. *)
Ltac view_go :=
  intros;
  lazymatch goal with
  | |- _ (placed _ ?pos _) = _ =>
      unfold placed; destruct pos;
      repeat lazymatch goal with
             | |- context [if ?c then _ else _] => destruct c
             end
  | |- _ => idtac
  end;
  reflexivity.

Ltac calm_go :=
  repeat first
    [ apply calm_at_ret
    | apply calm_at_resize
    | apply calm_at_setValue; view_go
    | apply calm_at_fire
    | apply calm_at_getValue
    | apply calm_at_writeObservable
    | apply calm_at_window
    | apply calm_at_load; first [assumption | reflexivity]
    | apply calm_at_update; [first [assumption | reflexivity] | view_go]
    | apply calm_at_effect; intro; fields; auto
    | apply calm_at_this
    | apply calm_at_editor; intros ? ?
    | apply calm_at_session; intros ? ?
    | apply calm_at_editorDom; intro
    | eapply calm_at_deref; [eassumption|]
    | apply calm_at_bind; [|intro]
    | lazymatch goal with
      | |- calm_at _ _ (match ?x with _ => _ end) => destruct x eqn:?
      end ].

Lemma calm_at_attachCommands {V} (view : Ace.Editor -> V) o r knownKeys :
  (forall c e, view (Ace.addCommand c e) = view e) ->
  editor o = Some r -> calm_at view o (attachCommands r knownKeys).
Proof.
  intros Hv He. induction knownKeys as [|[key command] more IH]; simpl.
  - apply calm_at_ret.
  - apply calm_at_bind; [|intros _; exact IH].
    apply calm_at_update; [exact He|]. intro. apply Hv.
Qed.

Lemma calm_at_notify {V} (view : Ace.Editor -> V) o subscribers val :
  (forall v e, view (placed v None e) = view e) ->
  calm_at view o (notify subscribers val).
Proof.
  intros Hv. induction subscribers as [|d more IH]; simpl.
  - apply calm_at_ret.
  - apply calm_at_bind; [|intros _; exact IH].
    destruct val; [|apply calm_at_ret].
    apply calm_at_setValue. intro. apply Hv.
Qed.

(** Every method but [buildDom], [onAttach] and [attachSaveCommand], and
    every event but the timer. *)
Lemma calm_at_perform o a :
  match a with
  | BuildDom _ | OnAttach | Timeout _ | AttachSaveCommand => True
  | _ => calm_at nothing o (perform a)
  end.
Proof.
  destruct a; try exact I; unfold perform, discard.
  - calm_go.
  - unfold getEditor. calm_go.
  - calm_go.
  - calm_go.
  - unfold isBuilt. calm_go.
  - unfold enable. calm_go.
  - unfold attachCommandGroup. calm_go. now apply calm_at_attachCommands.
  - unfold adjustContentToWidth. calm_go.
  - unfold setFontSize. calm_go.
  - calm_go.
  - unfold blur, emit_blur. calm_go.
  - unfold changed. calm_go. now apply calm_at_notify.
  - unfold typed, emit_change. calm_go.
Qed.

Lemma calm_at_attachSaveCommand {V} (view : Ace.Editor -> V) o :
  (forall c e, view (Ace.addCommand c e) = view e) ->
  observable o <> None -> calm_at view o attachSaveCommand.
Proof.
  intros Hv Hobs. unfold attachSaveCommand.
  apply calm_at_this. destruct (observable o); [|congruence].
  apply calm_at_editor. intros r Hr.
  apply calm_at_update; [exact Hr|]. intro. apply Hv.
Qed.

Lemma wp_calm {V A} (view : Ace.Editor -> V) o (m : M A)
    (Q : A -> state -> Prop) E s :
  calm_at view o m -> built s -> self s = o ->
  (forall a s', alike view s s' -> Q a s') ->
  wp m Q E s.
Proof.
  intros Hm Hb Ho HQ. eapply wp_mono; [apply (Hm s Hb Ho)|auto|intros ? []].
Qed.

(** One step of a proof that follows a built editor through calm
    statements: [Hb] and [Ho] describe the current state. *)
Ltac calm_step Hb Ho Hord :=
  lazymatch goal with
  | |- wp (bind _ _) _ _ _ => apply wp_bind
  | |- _ => idtac
  end;
  lazymatch goal with
  | |- wp this _ _ _ => apply wp_this; cbv beta; rewrite Ho
  | |- wp _ _ _ _ =>
      let s' := fresh "s" in
      let H := fresh "Hstep" in
      let Hb' := fresh "Hb" in
      let Ho' := fresh "Ho" in
      let Hord' := fresh "Hord" in
      lazymatch type of Ho with
      | self _ = ?o =>
          lazymatch type of Hord with
          | alike ?view _ _ => eapply (wp_calm view o)
          end
      end; [|exact Hb|exact Ho|];
      [ calm_go
      | intros ? s' H; cbv beta;
        pose proof (built_ordinary _ _ Hb (proj1 H)) as Hb';
        pose proof (alike_trans _ _ _ _ Hord H) as Hord';
        assert (Ho' := Ho); rewrite <- (proj1 (proj1 H)) in Ho';
        clear Hb Ho Hord H;
        rename Hb' into Hb; rename Ho' into Ho; rename Hord' into Hord ]
  end.

Lemma setup_returns s d :
  editorDom (self s) = Some d ->
  wp _setup (fun _ s' => set_up d s s') (fun _ => False) s.
Proof.
  intros Hd.
  unfold _setup. wp_steps. fields.
  apply wp_ace_edit. fields.
  intros r s1 Hself Hr Hge Hnew Hle1 Hgrow Hdisp Htim Hset.
  wp_steps. fields.
  assert (Hlookup : forall (h : list Ace.Editor),
    length h = length (heap (browser s1)) -> exists e, h !! r = Some e).
  { intros h Hh. apply lookup_lt_is_Some_2. lia. }
  (* after the editor and the session are stored *)
  assert (Hfrom : forall h,
    length h = length (heap (browser s1)) ->
    wp (update r (Ace.configure "enableLiveAutocompletion" (JS.Bool true));;
        assign (set_session (Some r));;
        update r (Ace.configure "mode" (JS.Str "ace/mode/python"));;
        update r (Ace.configure "theme" (JS.Str "ace/theme/chrome"));;
        update r (Ace.configure "showGutter" (JS.Bool false));;
        update r (Ace.configure "tabSize" (JS.Num 2));;
        update r (Ace.setUseWrapMode true);;
        update r (Ace.on_change Ace.Resize);;
        update r (Ace.configure "$blockScrolling" (JS.Str "Infinity"));;
        update r (Ace.setFontSize 11);;
        resize;;
        o <- this;;
        match observable o with
        | Some _ =>
            b <- window;;
            match observed b with
            | Some val => setValue val None
            | None => ret tt
            end;;
            d <- deref "dom(null, ...)" (editorDom o);;
            effect (fun b => set_subscriptions (subscriptions b ++ [d]) b);;
            if saveValueOnBlurEvent o
            then update r (Ace.on_blur Ace.WriteObservable)
            else ret tt
        | None => ret tt
        end;;
        o <- this;;
        match _setupCallback o with
        | Some callback => update r callback;; assign (set_setupCallback None)
        | None => ret tt
        end)
       (fun _ s' => set_up d s s') (fun _ => False)
       (mkState (set_editor (Some r) (self s1))
          (set_heap h
             (set_disposables (disposables (browser s1) ++ [r]) (browser s1))))).
  { intros h Hh. destruct (Hlookup h Hh) as (e & He).
    wp_step. eapply wp_update_some; [fields; exact He|].
    wp_steps. fields.
    match goal with |- wp _ _ _ ?s2 => set (s2' := s2) end.
    assert (Hb : built s2').
    { destruct (Hlookup (<[r:=Ace.configure "enableLiveAutocompletion"
                                (JS.Bool true) e]> h)) as (e' & He').
      { now rewrite length_insert. }
      exists r, d, e'. subst s2'. fields. rewrite Hself. auto. }
    assert (Ho : self s2' = set_session (Some r) (set_editor (Some r) (self s)))
      by (subst s2'; fields; now rewrite Hself).
    match goal with |- wp ?m ?Q ?E _ =>
      enough (Htail : forall s3,
                alike nothing s2' s3 -> built s3 ->
                self s3 = set_session (Some r) (set_editor (Some r) (self s)) ->
                wp m Q E s3)
        by (apply Htail; [apply alike_refl|exact Hb|exact Ho])
    end.
    clear Hb Ho. intros s3 Hord' Hb Ho.
    do 9 calm_step Hb Ho Hord'.
    calm_step Hb Ho Hord'. fields.
    calm_step Hb Ho Hord'.
    calm_step Hb Ho Hord'. fields.

    match goal with |- wp _ _ _ ?sf => rename sf into sF end.
    (* the callback *)
    destruct (built_editor _ r Hb) as (HsF & Hr3 & d3 & e3 & Hd3 & He3).
    { rewrite Ho. reflexivity. }
    assert (Hfinal : forall h',
      length h' = length (heap (browser sF)) ->
      set_up d s (mkState (set_setupCallback None (self sF))
                    (set_heap h' (browser sF)))).
    { intros h' Hh'. destruct Hord' as ((_ & Hlen & _ & Htim' & Hset') & _).
      subst s2'. fields.
      assert (Hlen' : length h' = length (heap (browser s1))).
      { rewrite Hh', Hlen, length_insert. exact Hh. }
      destruct (Hlookup h' Hlen') as (e' & He').
      unfold set_up. fields. rewrite Ho. fields.
      split; [exists r, d, e'; fields; auto|].
      rewrite Htim', Hset', Hlen', Htim, Hset. repeat split; auto; lia. }
    destruct (_setupCallback (self s)) as [cb|] eqn:Hcb.
    - wp_step. eapply wp_update_some; [exact He3|].
      wp_step. fields. apply Hfinal. now rewrite length_insert.
    - wp_step.
      replace sF with
        (mkState (set_setupCallback None (self sF))
           (set_heap (heap (browser sF)) (browser sF))).
      + now apply Hfinal.
      + symmetry. apply state_ext; fields; try reflexivity.
        rewrite Ho. destruct (self s). simpl in Hcb. subst. reflexivity. }
  destruct (gristDoc (self s)).
  - destruct (Hlookup (heap (browser s1)) eq_refl) as (e & He).
    eapply wp_update_some; [fields; exact He|]. fields.
    apply Hfrom. now rewrite length_insert.
  - wp_step. fields.
    replace (set_disposables _ _) with
      (set_heap (heap (browser s1))
         (set_disposables (disposables (browser s1) ++ [r]) (browser s1)))
      by (destruct (browser s1); reflexivity).
    now apply Hfrom.
Qed.
(* ===================================================================== *)
(** ** Setting up, once and twice *)
(* ===================================================================== *)

(** X1. [_setup] needs nothing but the element [buildDom] made: it returns
    with a built editor, has counted one run, created at most one editor, and
    has dropped the callback. *)
Theorem setup_builds s d :
  editorDom (self s) = Some d ->
  exists s', _setup s = Returns tt s' /\ set_up d s s'.
Proof.
  intros Hd. destruct (wp_returns _ _ _ (setup_returns s d Hd))
    as ([] & s' & Hrun & Hs'). eauto.
Qed.

Lemma setup_builds_witness :
  exists s', _setup formula_pending = Returns tt s' /\
             set_up 0 formula_pending s'.
Proof. apply (setup_builds formula_pending 0). reflexivity. Defined.

Lemma buildDom_built cb s :
  built s ->
  exists s', perform (BuildDom cb) s = Returns tt s' /\ built s' /\
             observable (self s') = observable (self s).
Proof.
  intros (r & d & e & He & Hs & Hd & Hr).
  eexists. split; [reflexivity|]. split; [|reflexivity].
  exists r, (nextElem (browser s)), e. fields. auto.
Qed.

Lemma clearTimeout_then_setup t f s d :
  editorDom (self s) = Some d ->
  (forall o, editorDom (f o) = editorDom o /\
             _setupCallback (f o) = _setupCallback o /\
             observable (f o) = observable o /\
             saveValueOnBlurEvent (f o) = saveValueOnBlurEvent o) ->
  exists s',
    (clearTimeout t ;; assign f ;; _setup) s = Returns tt s' /\
    built s' /\ editorDom (self s') = Some d /\
    _setupCallback (self s') = None /\
    observable (self s') = observable (self s) /\
    saveValueOnBlurEvent (self s') = saveValueOnBlurEvent (self s) /\
    _setupTimer (self s') = _setupTimer (f (self s)) /\
    timers (browser s')
    = List.filter (fun t' => negb (t' =? t)%nat) (timers (browser s)) /\
    setups (browser s') = S (setups (browser s)).
Proof.
  intros Hd Hf.
  set (s1 := mkState (f (self s))
               (set_timers
                  (List.filter (fun t' => negb (t' =? t)%nat)
                     (timers (browser s))) (browser s))).
  destruct (Hf (self s)) as (Hfd & Hfc & Hfo & Hfs).
  assert (Hd1 : editorDom (self s1) = Some d) by (subst s1; fields; congruence).
  destruct (wp_returns _ _ _ (setup_returns s1 d Hd1))
    as ([] & s' & Hrun & Hb & Hd' & Hc & Ho & Hsv & Ht & Htim & Hset & _).
  exists s'. split.
  - unfold bind, clearTimeout, effect, assign. exact Hrun.
  - subst s1. fields. repeat split; try assumption; congruence.
Qed.

Lemma onAttach_built s :
  built s ->
  exists s', onAttach s = Returns tt s' /\ built s' /\
             observable (self s') = observable (self s).
Proof.
  intros Hb. pose proof Hb as (r & d & e & He & Hs & Hd & Hr).
  unfold onAttach, bind at 1, this.
  destruct (_setupTimer (self s)) as [[|t]|] eqn:Ht; try (eexists; eauto; fail).
  destruct (clearTimeout_then_setup (S t) (set_setupTimer None) s d Hd)
    as (s' & Hrun & Hb' & _ & _ & Hobs & _); [intro; fields; auto|].
  eauto.
Qed.

Lemma timeout_built t s :
  built s ->
  exists s', timeout t s = Returns tt s' /\ built s' /\
             observable (self s') = observable (self s).
Proof.
  intros Hb. pose proof Hb as (r & d & e & He & Hs & Hd & Hr).
  unfold timeout, bind at 1, window.
  destruct (existsb _ _); [|eexists; eauto; fail].
  destruct (clearTimeout_then_setup t (fun o => o) s d Hd)
    as (s' & Hrun & Hb' & _ & _ & Hobs & _); [intro; auto|].
  exists s'. split; [exact Hrun|]. split; [exact Hb'|exact Hobs].
Qed.

Lemma perform_built s a :
  built s ->
  (a = AttachSaveCommand -> observable (self s) <> None) ->
  exists s', perform a s = Returns tt s' /\ built s' /\
             observable (self s') = observable (self s).
Proof.
  intros Hb Hobs.
  assert (Hcalm : calm_at nothing (self s) (perform a) ->
                  exists s', perform a s = Returns tt s' /\ built s' /\
                             observable (self s') = observable (self s)).
  { intros Hcalm. destruct (wp_returns _ _ _ (Hcalm s Hb eq_refl))
      as ([] & s' & Hrun & Hord & _).
    exists s'. split; [exact Hrun|].
    split; [eapply built_ordinary; eauto|]. now rewrite (proj1 Hord). }
  pose proof (calm_at_perform (self s) a) as Hperform.
  destruct a; try (apply Hcalm; exact Hperform).
  - now apply buildDom_built.
  - now apply onAttach_built.
  - apply Hcalm, calm_at_attachSaveCommand; [reflexivity|auto].
  - now apply timeout_built.
Qed.

(** X2. Once the editor is built no method and no event throws, and the editor
    stays built, with one exception: [attachSaveCommand] on an instance
    without observable. *)
Theorem built_editor_never_throws s actions :
  built s ->
  (observable (self s) = None -> ~ In AttachSaveCommand actions) ->
  all_return actions s /\ built (run actions s).
Proof.
  revert s. induction actions as [|a more IH]; intros s Hb Hobs; simpl.
  - auto.
  - destruct (perform_built s a Hb) as (s' & Hrun & Hb' & Hobs').
    { intros -> Hnone. apply (Hobs Hnone). now left. }
    destruct (IH s' Hb') as (Hall & Hbuilt).
    { rewrite Hobs'. intros Hnone Hin. apply (Hobs Hnone). now right. }
    rewrite Hrun. simpl. eauto.
Qed.

Lemma built_editor_never_throws_witness :
  let actions := [Enable false; SetValue "$B" (Some 1); Blur; OnAttach;
                  AttachSaveCommand; Resize] in
  all_return actions formula_editor /\ built (run actions formula_editor).
Proof.
  apply (built_editor_never_throws formula_editor).
  - exact formula_editor_built.
  - vm_compute. intros H. discriminate H.
Defined.

Lemma filter_fresh t : forall ts,
  ~ In t ts ->
  List.filter (fun t' => negb (t' =? t)%nat) (ts ++ [t]) = ts.
Proof.
  induction ts as [|x ts IH]; simpl; intros Hin.
  - now rewrite Nat.eqb_refl.
  - destruct (Nat.eqb_spec x t) as [->|Hne]; [tauto|]. simpl.
    f_equal. apply IH. tauto.
Qed.

Lemma existsb_fresh t ts : ~ In t ts -> existsb (Nat.eqb t) ts = false.
Proof.
  intros Hin. destruct (existsb _ _) eqn:Hex; [|reflexivity].
  apply existsb_exists in Hex as (x & Hx & Heq).
  apply Nat.eqb_eq in Heq. subst. tauto.
Qed.

(** X3. [onAttach] right after [buildDom] runs [_setup] at once, and the guard
    on [_setupTimer] makes that the only run: the timer of [buildDom] is
    cancelled, so its expiry does nothing, and a second [onAttach] does
    nothing either. Timer handles are positive and fresh. *)
Theorem onAttach_sets_up_once s cb :
  (0 < nextTimer (browser s))%nat ->
  ~ In (nextTimer (browser s)) (timers (browser s)) ->
  let t := nextTimer (browser s) in
  let s1 := run [BuildDom cb; OnAttach] s in
  built s1 /\
  setups (browser s1) = S (setups (browser s)) /\
  _setupTimer (self s1) = None /\
  timers (browser s1) = timers (browser s) /\
  perform (Timeout t) s1 = Returns tt s1 /\
  perform OnAttach s1 = Returns tt s1.
Proof.
  intros Hpos Hfresh t s1.
  set (s0 := final (perform (BuildDom cb) s)).
  assert (Hd : editorDom (self s0) = Some (nextElem (browser s)))
    by reflexivity.
  assert (Ht : _setupTimer (self s0) = Some t) by reflexivity.
  assert (Hrun : s1 = final (onAttach s0)) by reflexivity.
  destruct (clearTimeout_then_setup t (set_setupTimer None) s0 _ Hd)
    as (s' & Hsetup & Hb & _ & _ & _ & _ & Htimer & Htimers & Hsetups);
    [intro; fields; auto|].
  assert (Hs1 : s1 = s').
  { rewrite Hrun. unfold onAttach, bind at 1, this. rewrite Ht.
    unfold t in *. destruct (nextTimer (browser s)); [lia|].
    now rewrite Hsetup. }
  rewrite Hs1.
  assert (Htimers' : timers (browser s') = timers (browser s)).
  { rewrite Htimers. subst s0. simpl. now apply filter_fresh. }
  repeat split; try assumption.
  - simpl. unfold timeout, bind, window.
    rewrite Htimers', existsb_fresh by assumption. reflexivity.
  - simpl. unfold onAttach, bind, this. now rewrite Htimer.
Qed.

Lemma onAttach_sets_up_once_witness :
  let s := start (Some formula_options)
             (new_Browser monospace true (Some "$A + 1")) in
  let s1 := run [BuildDom None; OnAttach] s in
  built s1 /\
  setups (browser s1) = S (setups (browser s)) /\
  _setupTimer (self s1) = None /\
  timers (browser s1) = timers (browser s) /\
  perform (Timeout 1) s1 = Returns tt s1 /\
  perform OnAttach s1 = Returns tt s1.
Proof.
  apply (onAttach_sets_up_once
           (start (Some formula_options)
              (new_Browser monospace true (Some "$A + 1"))) None).
  - simpl. lia.
  - simpl. tauto.
Defined.

(** X4. The timer callback leaves [_setupTimer] set: when the timer of
    [buildDom] expires first, a later [onAttach] runs [_setup] a second time. *)
Theorem onAttach_after_timer_sets_up_again s cb :
  (0 < nextTimer (browser s))%nat ->
  let t := nextTimer (browser s) in
  let s1 := run [BuildDom cb; Timeout t] s in
  let s2 := run [OnAttach] s1 in
  built s1 /\ setups (browser s1) = S (setups (browser s)) /\
  _setupTimer (self s1) = Some t /\
  built s2 /\ setups (browser s2) = S (S (setups (browser s))) /\
  _setupTimer (self s2) = None.
Proof.
  intros Hpos t s1 s2.
  set (s0 := final (perform (BuildDom cb) s)).
  assert (Hd : editorDom (self s0) = Some (nextElem (browser s)))
    by reflexivity.
  destruct (clearTimeout_then_setup t (fun o => o) s0 _ Hd)
    as (s' & Hsetup & Hb & Hd' & _ & _ & _ & Htimer & Htimers & Hsetups);
    [intro; auto|].
  assert (Hs1 : s1 = s').
  { change s1 with (final (timeout t s0)).
    unfold timeout, bind at 1, window.
    assert (Hsetup2 : (clearTimeout t ;; _setup) s0 = Returns tt s')
      by exact Hsetup.
    replace (existsb _ _) with true; [now rewrite Hsetup2|].
    symmetry. apply existsb_exists. exists t. split.
    - subst s0. simpl. apply in_or_app. right. now left.
    - apply Nat.eqb_refl. }
  destruct (clearTimeout_then_setup t (set_setupTimer None) s' _ Hd')
    as (s'' & Hsetup' & Hb' & _ & _ & _ & _ & Htimer' & _ & Hsetups');
    [intro; fields; auto|].
  assert (Hs2 : s2 = s'').
  { change s2 with (final (onAttach s1)). rewrite Hs1.
    unfold onAttach, bind at 1, this. rewrite Htimer.
    change (_setupTimer (self s0)) with (Some t).
    unfold t in *. destruct (nextTimer (browser s)); [lia|].
    now rewrite Hsetup'. }
  rewrite Hs2, Hs1. repeat split; try assumption.
  rewrite Hsetups', Hsetups. reflexivity.
Qed.

Lemma onAttach_after_timer_sets_up_again_witness :
  let s := start None (new_Browser monospace false None) in
  let s1 := run [BuildDom None; Timeout 1] s in
  let s2 := run [OnAttach] s1 in
  built s1 /\ setups (browser s1) = S (setups (browser s)) /\
  _setupTimer (self s1) = Some 1%nat /\
  built s2 /\ setups (browser s2) = S (S (setups (browser s))) /\
  _setupTimer (self s2) = None.
Proof.
  apply (onAttach_after_timer_sets_up_again
           (start None (new_Browser monospace false None)) None).
  simpl. lia.
Defined.

(** X5. Before [_setup] has run, every method that uses the editor or the
    session throws a [TypeError] and leaves everything as it was. *)
Theorem unbuilt_editor_throws s a :
  editor (self s) = None -> session (self s) = None ->
  needs_editor a = true ->
  exists what, perform a s = Throws (JS.TypeError what) s.
Proof.
  intros He Hs Ha. destruct a; try discriminate Ha; simpl.
  - unfold setValue, bind, this. rewrite He. simpl. eauto.
  - unfold enable, bind, this. rewrite He. simpl. eauto.
  - destruct commandGroup as [|c g]; [discriminate|].
    unfold attachCommandGroup, bind, this. rewrite He. simpl. eauto.
  - unfold adjustContentToWidth, bind, this. rewrite He. simpl. eauto.
  - unfold setFontSize, bind, this. rewrite He. simpl. eauto.
  - unfold resize, bind, this. rewrite Hs. simpl. eauto.
Qed.

Lemma unbuilt_editor_throws_witness :
  exists what,
    perform (SetValue "$A" None) formula_pending
    = Throws (JS.TypeError what) formula_pending.
Proof.
  apply (unbuilt_editor_throws formula_pending (SetValue "$A" None));
    reflexivity.
Defined.
(* ===================================================================== *)
(** ** What [_setup] does to the editor *)
(* ===================================================================== *)

Lemma hosted_lookup el : forall editors r0 r,
  hosted el r0 editors = Some r ->
  exists e, editors !! (r - r0)%nat = Some e /\ (r0 <= r)%nat /\
            Ace.container e = el.
Proof.
  induction editors as [|e more IH]; intros r0 r; simpl; [discriminate|].
  destruct (Nat.eqb_spec (Ace.container e) el) as [Hc|Hc].
  - intros [= ->]. exists e. rewrite Nat.sub_diag. auto.
  - intros (e' & He' & Hle & Hc')%IH. exists e'.
    replace (r - r0)%nat with (S (r - S r0)) by lia. simpl.
    split; [exact He'|]. split; [lia|exact Hc'].
Qed.

(** [ace.edit(el)] returns an editor that sits in [el]: the one the
    element has, or a new one. *)
Lemma wp_ace_edit_editor d (Q : nat -> state -> Prop) E s :
  (forall r e s',
     holds (self s) r e (observed (browser s)) s' ->
     Ace.container e = d ->
     heap (browser s) !! r = Some e \/
       heap (browser s) !! r = None /\ e = Ace.create d ->
     Q r s') ->
  wp (ace_edit (Some d)) Q E s.
Proof.
  intros HQ. unfold ace_edit, allocate.
  assert (Hnew :
    Q (length (heap (browser s)))
      (mkState (self s)
         (set_heap (heap (browser s) ++ [Ace.create d]) (browser s)))).
  { apply (HQ _ (Ace.create d));
      [|reflexivity|right; split; [now apply lookup_ge_None|reflexivity]].
    unfold holds. fields. split; [reflexivity|]. split; [|reflexivity].
    rewrite lookup_app_r by lia. now rewrite Nat.sub_diag. }
  wp_steps.
  destruct (hosted d 0 (heap (browser s))) as [r|] eqn:Hh.
  - destruct (editReturnsExisting (browser s)).
    + wp_steps. apply hosted_lookup in Hh as (e & He & _ & Hc).
      rewrite Nat.sub_0_r in He.
      apply (HQ r e); [|exact Hc|now left]. unfold holds. auto.
    + wp_steps. fields. exact Hnew.
  - wp_steps. fields. exact Hnew.
Qed.

Section Holds.

Variables (o : AceEditor) (r : nat) (e : Ace.Editor) (held : option string).
Variables (E : state -> Prop) (s : state).
Hypothesis Hs : holds o r e held s.

Lemma holds_update f (Q : unit -> state -> Prop) :
  (forall s', holds o r (f e) held s' -> Q tt s') -> wp (update r f) Q E s.
Proof using Hs.
  intros HQ. destruct Hs as (Ho & Hr & Hheld).
  eapply wp_update_some; [exact Hr|]. apply HQ. unfold holds. fields.
  split; [exact Ho|]. split; [|exact Hheld].
  apply list_lookup_insert_eq. eapply lookup_lt_Some; eauto.
Qed.

Lemma holds_assign f (Q : unit -> state -> Prop) :
  (forall s', holds (f o) r e held s' -> Q tt s') -> wp (assign f) Q E s.
Proof using Hs.
  intros HQ. destruct Hs as (Ho & Hr & Hheld).
  apply wp_assign, HQ. unfold holds. fields. rewrite Ho. auto.
Qed.

Lemma holds_effect f (Q : unit -> state -> Prop) :
  (forall b, heap (f b) = heap b /\ observed (f b) = observed b) ->
  (forall s', holds o r e held s' -> Q tt s') -> wp (effect f) Q E s.
Proof using Hs.
  intros Hf HQ. destruct Hs as (Ho & Hr & Hheld).
  apply wp_effect, HQ. unfold holds. fields.
  destruct (Hf (browser s)) as (-> & ->). auto.
Qed.

Lemma holds_this (Q : AceEditor -> state -> Prop) :
  Q o s -> wp this Q E s.
Proof using Hs. intros HQ. apply wp_this. now rewrite (proj1 Hs). Qed.

Lemma holds_window (Q : Browser -> state -> Prop) :
  (forall b, observed b = held -> Q b s) -> wp window Q E s.
Proof using Hs. intros HQ. apply wp_window, HQ, Hs. Qed.

Section Built.

Variable d : nat.
Hypothesis He : editor o = Some r.
Hypothesis Hse : session o = Some r.
Hypothesis Hd : editorDom o = Some d.

Lemma holds_resize (Q : unit -> state -> Prop) :
  (forall s', holds o r e held s' -> Q tt s') -> wp resize Q E s.
Proof using Hs He Hse Hd.
  intros HQ. destruct Hs as (Ho & Hr & Hheld). rewrite <- Ho in He, Hse, Hd.
  destruct (resize_repaints s r d e He Hse Hd Hr) as (st & cs & Hrun).
  eapply wp_of_returns; [exact Hrun|]. apply HQ.
  unfold holds, repaint. fields. auto.
Qed.

Lemma holds_setValue val pos (Q : unit -> state -> Prop) :
  (forall s', holds o r (placed val pos e) held s' -> Q tt s') ->
  wp (setValue val pos) Q E s.
Proof using Hs He Hse Hd.
  intros HQ. destruct Hs as (Ho & Hr & Hheld). rewrite <- Ho in He, Hse, Hd.
  destruct (setValue_built s r d e val pos He Hse Hd Hr)
    as (st & cs & sv & Hrun).
  eapply wp_of_returns; [exact Hrun|]. apply HQ.
  unfold holds, rewritten, repaint. fields.
  split; [exact Ho|]. split; [|exact Hheld].
  apply list_lookup_insert_eq. eapply lookup_lt_Some; eauto.
Qed.

End Built.

End Holds.

(** One statement of a proof that follows the editor. *)
Ltac held_step H :=
  lazymatch goal with
  | |- wp (bind _ _) _ _ _ => apply wp_bind
  | |- _ => idtac
  end;
  lazymatch goal with
  | |- wp (update _ _) _ _ _ =>
      eapply holds_update; [exact H|]; clear H; intros ? H
  | |- wp (assign _) _ _ _ =>
      eapply holds_assign; [exact H|]; clear H; intros ? H
  | |- wp (effect _) _ _ _ =>
      eapply holds_effect; [exact H|intro; fields; auto|]; clear H; intros ? H
  | |- wp this _ _ _ => eapply holds_this; [exact H|]
  | |- wp window _ _ _ =>
      eapply holds_window; [exact H|]; intros ? ->
  | |- wp resize _ _ _ =>
      eapply holds_resize; [exact H|reflexivity|reflexivity|fields; eassumption|];
      clear H; intros ? H
  | |- wp (setValue _ _) _ _ _ =>
      eapply holds_setValue;
        [exact H|reflexivity|reflexivity|fields; eassumption|];
      clear H; intros ? H
  | |- wp (ret _) _ _ _ => apply wp_ret
  end; cbv beta.

(** [_setup] leaves [this.editor] referring to the editor [ace.edit]
    returned, configured. *)
Lemma setup_configures s d :
  editorDom (self s) = Some d ->
  wp _setup
    (fun _ s' =>
       exists r e,
         Ace.container e = d /\
         (heap (browser s) !! r = Some e \/
            heap (browser s) !! r = None /\ e = Ace.create d) /\
         editor (self s') = Some r /\
         heap (browser s') !! r
         = Some (configured (self s) (observed (browser s)) e))
    (fun _ => False) s.
Proof.
  intros Hd. unfold _setup. wp_steps. fields. rewrite Hd.
  apply wp_ace_edit_editor. fields. intros r e s1 H Hc Horigin.
  do 2 held_step H.
  unfold configured.
  assert (Hfrom : forall e1 s2,
    holds (set_editor (Some r) (self s)) r e1 (observed (browser s)) s2 ->
    wp (update r (Ace.configure "enableLiveAutocompletion" (JS.Bool true));;
        assign (set_session (Some r));;
        update r (Ace.configure "mode" (JS.Str "ace/mode/python"));;
        update r (Ace.configure "theme" (JS.Str "ace/theme/chrome"));;
        update r (Ace.configure "showGutter" (JS.Bool false));;
        update r (Ace.configure "tabSize" (JS.Num 2));;
        update r (Ace.setUseWrapMode true);;
        update r (Ace.on_change Ace.Resize);;
        update r (Ace.configure "$blockScrolling" (JS.Str "Infinity"));;
        update r (Ace.setFontSize 11);;
        resize;;
        o <- this;;
        match observable o with
        | Some _ =>
            b <- window;;
            match observed b with
            | Some val => setValue val None
            | None => ret tt
            end;;
            d <- deref "dom(null, ...)" (editorDom o);;
            effect (fun b => set_subscriptions (subscriptions b ++ [d]) b);;
            if saveValueOnBlurEvent o
            then update r (Ace.on_blur Ace.WriteObservable)
            else ret tt
        | None => ret tt
        end;;
        o <- this;;
        match _setupCallback o with
        | Some callback => update r callback;; assign (set_setupCallback None)
        | None => ret tt
        end)
       (fun _ s' =>
          editor (self s') = Some r /\
          heap (browser s') !! r =
          Some
            (let e := Ace.configure "enableLiveAutocompletion" (JS.Bool true) e1 in
             let e := Ace.configure "mode" (JS.Str "ace/mode/python") e in
             let e := Ace.configure "theme" (JS.Str "ace/theme/chrome") e in
             let e := Ace.configure "showGutter" (JS.Bool false) e in
             let e := Ace.configure "tabSize" (JS.Num 2) e in
             let e := Ace.setUseWrapMode true e in
             let e := Ace.on_change Ace.Resize e in
             let e := Ace.configure "$blockScrolling" (JS.Str "Infinity") e in
             let e := Ace.setFontSize 11 e in
             let e :=
               match observable (self s) with
               | Some _ =>
                   let e := match observed (browser s) with
                            | Some val => placed val None e
                            | None => e
                            end in
                   if saveValueOnBlurEvent (self s)
                   then Ace.on_blur Ace.WriteObservable e else e
               | None => e
               end in
             match _setupCallback (self s) with
             | Some callback => callback e
             | None => e
             end))
       (fun _ => False) s2).
  { clear H. intros e1 s2 H. cbv zeta.
    do 11 held_step H.
    held_step H. fields.
    assert (Hlast : forall e2 s3,
      holds (set_session (Some r) (set_editor (Some r) (self s))) r e2
        (observed (browser s)) s3 ->
      wp (o <- this;;
          match _setupCallback o with
          | Some callback => update r callback;; assign (set_setupCallback None)
          | None => ret tt
          end)
         (fun _ s' =>
            editor (self s') = Some r /\
            heap (browser s') !! r
            = Some match _setupCallback (self s) with
                   | Some callback => callback e2
                   | None => e2
                   end)
         (fun _ => False) s3).
    { clear H. intros e2 s3 H. held_step H. fields.
      destruct (_setupCallback (self s)) as [cb|].
      - do 2 held_step H. destruct H as (Ho & Hr & _).
        rewrite Ho. fields. auto.
      - held_step H. destruct H as (Ho & Hr & _). rewrite Ho. fields. auto. }
    destruct (observable (self s)) as [ob|].
    - apply wp_bind. held_step H.
      assert (Hrest : forall e2 s3,
        holds (set_session (Some r) (set_editor (Some r) (self s))) r e2
          (observed (browser s)) s3 ->
        wp (d <- deref "dom(null, ...)" (Some d);;
            effect (fun b => set_subscriptions (subscriptions b ++ [d]) b);;
            if saveValueOnBlurEvent (self s)
            then update r (Ace.on_blur Ace.WriteObservable)
            else ret tt)
           (fun _ s4 =>
              holds (set_session (Some r) (set_editor (Some r) (self s))) r
                (if saveValueOnBlurEvent (self s)
                 then Ace.on_blur Ace.WriteObservable e2 else e2)
                (observed (browser s)) s4)
           (fun _ => False) s3).
      { clear H. intros e2 s3 H. apply wp_bind, wp_ret. held_step H.
        destruct (saveValueOnBlurEvent (self s)); held_step H; exact H. }
      fields. rewrite Hd.
      destruct (observed (browser s)) as [val|].
      + held_step H.
        eapply wp_mono; [apply (Hrest _ _ H)| |auto].
        intros ? s4 H4. now apply Hlast.
      + held_step H.
        eapply wp_mono; [apply (Hrest _ _ H)| |auto].
        intros ? s4 H4. now apply Hlast.
    - held_step H. now apply Hlast. }
  destruct (gristDoc (self s)).
  - held_step H.
    eapply wp_mono; [apply (Hfrom _ _ H)| |auto].
    intros ? sf (He' & Hr'). exists r, e. auto.
  - held_step H.
    eapply wp_mono; [apply (Hfrom _ _ H)| |auto].
    intros ? sf (He' & Hr'). exists r, e. auto.
Qed.
(* ===================================================================== *)
(** ** What the methods leave alone *)
(* ===================================================================== *)

Lemma calm_at_notify_undefined {V} (view : Ace.Editor -> V) o subscribers :
  calm_at view o (notify subscribers None).
Proof.
  induction subscribers as [|d more IH]; simpl.
  - apply calm_at_ret.
  - apply calm_at_bind; [apply calm_at_ret|intros _; exact IH].
Qed.

(** The methods and events that leave the document alone. *)
Lemma document_perform o a :
  edits a = false ->
  match a with
  | BuildDom _ | AttachSaveCommand => True
  | _ => calm_at document o (perform a)
  end.
Proof.
  destruct a as [| | | | | | | | | | | | | | |[v|]|]; intros Ha;
    try discriminate Ha; try exact I; unfold perform, discard.
  - calm_go.
  - unfold getEditor. calm_go.
  - calm_go.
  - unfold isBuilt. calm_go.
  - unfold enable. calm_go.
  - unfold attachCommandGroup. calm_go. now apply calm_at_attachCommands.
  - unfold adjustContentToWidth. calm_go.
  - unfold setFontSize. calm_go.
  - calm_go.
  - unfold blur, emit_blur. calm_go.
  - unfold changed. calm_go. apply calm_at_notify_undefined.
Qed.

(** The methods and events that leave the wiring alone. *)
Lemma wiring_perform o a :
  match a with
  | BuildDom _ | OnAttach | Timeout _ | AttachSaveCommand => True
  | _ => calm_at wiring o (perform a)
  end.
Proof.
  destruct a; try exact I; unfold perform, discard.
  - calm_go.
  - unfold getEditor. calm_go.
  - calm_go.
  - calm_go.
  - unfold isBuilt. calm_go.
  - unfold enable. calm_go.
  - unfold attachCommandGroup. calm_go. now apply calm_at_attachCommands.
  - unfold adjustContentToWidth. calm_go.
  - unfold setFontSize. calm_go.
  - calm_go.
  - unfold blur, emit_blur. calm_go.
  - unfold changed. calm_go. apply calm_at_notify. view_go.
  - unfold typed, emit_change. calm_go.
Qed.

(** What a calm call tells about the editor of the instance. *)
Lemma calm_editor {V} (view : Ace.Editor -> V) s a r e :
  built s -> editor (self s) = Some r -> heap (browser s) !! r = Some e ->
  calm_at view (self s) (perform a) ->
  exists s' e',
    perform a s = Returns tt s' /\ editor (self s') = Some r /\
    heap (browser s') !! r = Some e' /\ view e' = view e.
Proof.
  intros Hb He Hr Hcalm.
  destruct (wp_returns _ _ _ (Hcalm s Hb eq_refl)) as ([] & s' & Hrun & Hal).
  destruct (alike_lookup view s s' r e Hal Hr) as (e' & Hr' & Hv).
  exists s', e'. destruct Hal as ((Hself & _) & _). rewrite Hself. auto.
Qed.

Lemma buildDom_editor cb s r e :
  editor (self s) = Some r -> heap (browser s) !! r = Some e ->
  exists s',
    perform (BuildDom cb) s = Returns tt s' /\ editor (self s') = Some r /\
    heap (browser s') !! r = Some e.
Proof. intros He Hr. eexists. split; [reflexivity|]. fields. auto. Qed.

(** X6. Only [setValue], a new value of the observable, typing and [_setup]
    change the text: after any other method or event on a built editor
    [getValue] returns what it returned before. *)
Theorem text_survives s a :
  built s -> edits a = false ->
  (a = AttachSaveCommand -> observable (self s) <> None) ->
  exists s' text,
    perform a s = Returns tt s' /\
    getValue s = Returns (JS.Str text) s /\
    getValue s' = Returns (JS.Str text) s'.
Proof.
  intros Hb Ha Hobs. pose proof Hb as (r & d & e & He & Hs & Hd & Hr).
  assert (Hcalm : calm_at document (self s) (perform a) ->
    exists s' text,
      perform a s = Returns tt s' /\
      getValue s = Returns (JS.Str text) s /\
      getValue s' = Returns (JS.Str text) s').
  { intros Hcalm.
    destruct (calm_editor document s a r e Hb He Hr Hcalm)
      as (s' & e' & Hrun & He' & Hr' & Hv).
    exists s', (Ace.getValue e). split; [exact Hrun|].
    split; [exact (getValue_built s r e He Hr)|].
    replace (Ace.getValue e) with (Ace.getValue e').
    - exact (getValue_built s' r e' He' Hr').
    - unfold document in Hv. injection Hv as Hl Hn.
      unfold Ace.getValue. now rewrite Hl, Hn. }
  pose proof (document_perform (self s) a Ha) as Hperform.
  destruct a; try (apply Hcalm; exact Hperform).
  - destruct (buildDom_editor optSetupCallback s r e He Hr)
      as (s' & Hrun & He' & Hr').
    exists s', (Ace.getValue e). split; [exact Hrun|].
    split; [exact (getValue_built s r e He Hr)|].
    exact (getValue_built s' r e He' Hr').
  - apply Hcalm, calm_at_attachSaveCommand; [reflexivity|auto].
Qed.

Lemma text_survives_witness :
  exists s' text,
    perform (SetFontSize 14) formula_editor = Returns tt s' /\
    getValue formula_editor = Returns (JS.Str text) formula_editor /\
    getValue s' = Returns (JS.Str text) s'.
Proof.
  apply (text_survives formula_editor (SetFontSize 14)).
  - exact formula_editor_built.
  - reflexivity.
  - intros H. discriminate H.
Defined.

(** X7. No method and no event but the two that run [_setup] moves the editor
    to another element, adds or removes a listener, or switches the wrap mode. *)
Theorem wiring_survives s a r e :
  built s -> editor (self s) = Some r -> heap (browser s) !! r = Some e ->
  weight a = 0%nat ->
  (a = AttachSaveCommand -> observable (self s) <> None) ->
  exists s' e',
    perform a s = Returns tt s' /\ editor (self s') = Some r /\
    heap (browser s') !! r = Some e' /\
    Ace.container e' = Ace.container e /\
    Ace.onChange e' = Ace.onChange e /\
    Ace.onBlur e' = Ace.onBlur e /\
    Ace.useWrapMode e' = Ace.useWrapMode e.
Proof.
  intros Hb He Hr Ha Hobs.
  assert (Hcalm : calm_at wiring (self s) (perform a) ->
    exists s' e',
      perform a s = Returns tt s' /\ editor (self s') = Some r /\
      heap (browser s') !! r = Some e' /\
      Ace.container e' = Ace.container e /\
      Ace.onChange e' = Ace.onChange e /\
      Ace.onBlur e' = Ace.onBlur e /\
      Ace.useWrapMode e' = Ace.useWrapMode e).
  { intros Hcalm.
    destruct (calm_editor wiring s a r e Hb He Hr Hcalm)
      as (s' & e' & Hrun & He' & Hr' & Hv).
    exists s', e'. unfold wiring in Hv. injection Hv as Hc Hch Hbl Hw.
    auto 8. }
  pose proof (wiring_perform (self s) a) as Hperform.
  destruct a; try discriminate Ha; try (apply Hcalm; exact Hperform).
  - destruct (buildDom_editor optSetupCallback s r e He Hr)
      as (s' & Hrun & He' & Hr').
    exists s', e. auto 8.
  - apply Hcalm, calm_at_attachSaveCommand; [reflexivity|auto].
Qed.

Lemma wiring_survives_witness :
  let e := default (Ace.create 0) (heap (browser formula_editor) !! 0%nat) in
  exists s' e',
    perform (SetValue "$B" None) formula_editor = Returns tt s' /\
    editor (self s') = Some 0%nat /\
    heap (browser s') !! 0%nat = Some e' /\
    Ace.container e' = Ace.container e /\
    Ace.onChange e' = Ace.onChange e /\
    Ace.onBlur e' = Ace.onBlur e /\
    Ace.useWrapMode e' = Ace.useWrapMode e.
Proof.
  apply (wiring_survives formula_editor (SetValue "$B" None) 0%nat).
  - exact formula_editor_built.
  - vm_compute. reflexivity.
  - vm_compute. reflexivity.
  - reflexivity.
  - intros H. discriminate H.
Defined.
(* ===================================================================== *)
(** ** The binding to the observable *)
(* ===================================================================== *)

Lemma getValue_placed_no_CR val pos e :
  no_CR val = true -> Ace.getValue (placed val pos e) = val.
Proof.
  intros H. rewrite getValue_placed, (detectNewLine_no_CR _ H).
  now apply join_split_no_CR.
Qed.

Lemma getValue_on_blur l e : Ace.getValue (Ace.on_blur l e) = Ace.getValue e.
Proof. reflexivity. Qed.

Lemma wiring_placed val pos e : wiring (placed val pos e) = wiring e.
Proof. view_go. Qed.

(** X8. [_setup] of an instance bound to an observable shows the value the
    observable holds, whatever the editor held before; the callback of
    [buildDom] is taken not to change the text. *)
Theorem setup_shows_observable s d ob val :
  editorDom (self s) = Some d ->
  observable (self s) = Some ob ->
  observed (browser s) = Some val ->
  (forall cb e, _setupCallback (self s) = Some cb ->
     Ace.getValue (cb e) = Ace.getValue e) ->
  no_CR val = true ->
  exists s', _setup s = Returns tt s' /\ getValue s' = Returns (JS.Str val) s'.
Proof.
  intros Hd Hob Hval Hcb Hno.
  destruct (wp_returns _ _ _ (setup_configures s d Hd))
    as ([] & s' & Hrun & r & e & _ & _ & He' & Hr').
  exists s'. split; [exact Hrun|].
  rewrite (getValue_built s' r _ He' Hr'). do 2 f_equal.
  unfold configured. cbv zeta. rewrite Hob, Hval.
  destruct (_setupCallback (self s)) as [cb|];
    [rewrite (Hcb cb _ eq_refl)|];
    destruct (saveValueOnBlurEvent (self s));
    rewrite ?getValue_on_blur; apply getValue_placed_no_CR; exact Hno.
Qed.

Lemma setup_shows_observable_witness :
  exists s',
    _setup formula_pending = Returns tt s' /\
    getValue s' = Returns (JS.Str "$A + 1") s'.
Proof.
  apply (setup_shows_observable formula_pending 0 0 "$A + 1").
  - reflexivity.
  - reflexivity.
  - reflexivity.
  - intros cb e H. discriminate H.
  - reflexivity.
Defined.

Lemma configured_wiring o held e :
  _setupCallback o = None ->
  (wiring (configured o held e), Ace.fontSize (configured o held e))
  = (Ace.container e, Ace.onChange e ++ [Ace.Resize],
     Ace.onBlur e ++
     match observable o with
     | Some _ => if saveValueOnBlurEvent o then [Ace.WriteObservable] else []
     | None => []
     end, true, 11).
Proof.
  intros Hcb. unfold configured, wiring. rewrite Hcb.
  destruct (gristDoc o), (observable o), held, (saveValueOnBlurEvent o);
    cbv zeta; rewrite ?app_nil_r; reflexivity.
Qed.

(** X9. Every run of [_setup] without callback puts the editor of the element
    into wrap mode with font size 11 and adds one [resize] listener for
    changes, and one saving listener for the loss of focus when an observable
    is bound and [saveValueOnBlurEvent] is set. An editor the element already
    had keeps the listeners of the runs before. *)
Theorem setup_registers_listeners s d :
  editorDom (self s) = Some d ->
  _setupCallback (self s) = None ->
  exists s' r e',
    _setup s = Returns tt s' /\ editor (self s') = Some r /\
    heap (browser s') !! r = Some e' /\
    Ace.container e' = d /\ Ace.useWrapMode e' = true /\
    Ace.fontSize e' = 11 /\
    let before := default (Ace.create d) (heap (browser s) !! r) in
    Ace.onChange e' = Ace.onChange before ++ [Ace.Resize] /\
    Ace.onBlur e'
    = Ace.onBlur before ++
      match observable (self s) with
      | Some _ =>
          if saveValueOnBlurEvent (self s) then [Ace.WriteObservable] else []
      | None => []
      end.
Proof.
  intros Hd Hcb.
  destruct (wp_returns _ _ _ (setup_configures s d Hd))
    as ([] & s' & Hrun & r & e & Hc & Horigin & He' & Hr').
  exists s', r, (configured (self s) (observed (browser s)) e).
  split; [exact Hrun|]. split; [exact He'|]. split; [exact Hr'|].
  assert (Hbefore : default (Ace.create d) (heap (browser s) !! r) = e).
  { destruct Horigin as [->|[-> ->]]; reflexivity. }
  rewrite Hbefore.
  pose proof (configured_wiring (self s) (observed (browser s)) e Hcb) as Hw.
  unfold wiring in Hw. injection Hw as Hco Hch Hbl Hwr Hfs.
  rewrite Hco, Hch, Hbl, Hwr, Hfs. auto.
Qed.

Lemma setup_registers_listeners_witness :
  exists s' r e',
    _setup formula_pending = Returns tt s' /\ editor (self s') = Some r /\
    heap (browser s') !! r = Some e' /\
    Ace.container e' = 0%nat /\ Ace.useWrapMode e' = true /\
    Ace.fontSize e' = 11 /\
    let before :=
      default (Ace.create 0) (heap (browser formula_pending) !! r) in
    Ace.onChange e' = Ace.onChange before ++ [Ace.Resize] /\
    Ace.onBlur e'
    = Ace.onBlur before ++
      match observable (self formula_pending) with
      | Some _ =>
          if saveValueOnBlurEvent (self formula_pending)
          then [Ace.WriteObservable] else []
      | None => []
      end.
Proof.
  apply (setup_registers_listeners formula_pending 0); reflexivity.
Defined.

Lemma notify_undefined subscribers s :
  notify subscribers None s = Returns tt s.
Proof. induction subscribers as [|d more IH]; simpl; auto. Qed.

(** X10. A new value [undefined] of the observable is ignored: it changes
    nothing of the instance or of any editor and never throws, whatever state
    the instance is in. *)
Theorem undefined_is_ignored s :
  perform (Changed None) s
  = Returns tt (mkState (self s) (set_observed None (browser s))).
Proof.
  unfold perform, changed, bind, effect, window.
  apply notify_undefined.
Qed.

Lemma notify_holds o r d held val :
  editor o = Some r -> session o = Some r -> editorDom o = Some d ->
  forall subscribers e s,
    holds o r e held s -> subscribers <> [] ->
    wp (notify subscribers (Some val))
       (fun _ s' => exists e', holds o r (placed val None e') held s')
       (fun _ => False) s.
Proof.
  intros He Hs Hd.
  induction subscribers as [|x more IH]; intros e s H Hne; [congruence|].
  simpl. apply wp_bind.
  eapply holds_setValue; [exact H|exact He|exact Hs|exact Hd|].
  intros s' H'. destruct more as [|y more'].
  - simpl. apply wp_ret. eauto.
  - apply (IH _ _ H'). discriminate.
Qed.

(** X11. A new value of the observable reaches a built editor through the
    subscription [_setup] made: the editor then holds that value. *)
Theorem changed_sets_text s val :
  built s -> subscriptions (browser s) <> [] -> no_CR val = true ->
  exists s',
    perform (Changed (Some val)) s = Returns tt s' /\
    getValue s' = Returns (JS.Str val) s' /\
    observed (browser s') = Some val.
Proof.
  intros (r & d & e & He & Hs & Hd & Hr) Hsub Hno.
  assert (H : wp (perform (Changed (Some val)))
                (fun _ s' => exists e',
                   holds (self s) r (placed val None e') (Some val) s')
                (fun _ => False) s).
  { unfold perform, changed. apply wp_bind, wp_effect, wp_bind, wp_window.
    fields.
    eapply (notify_holds (self s) r d (Some val) val He Hs Hd); [|exact Hsub].
    unfold holds. fields. split; [reflexivity|]. split; [exact Hr|reflexivity]. }
  apply wp_returns in H as ([] & s' & Hrun & e' & Ho & Hr' & Hheld).
  exists s'. split; [exact Hrun|]. split; [|exact Hheld].
  rewrite <- Ho in He.
  rewrite (getValue_built s' r _ He Hr').
  now rewrite getValue_placed_no_CR.
Qed.

Lemma changed_sets_text_witness :
  exists s',
    perform (Changed (Some "$B * 2")) formula_editor = Returns tt s' /\
    getValue s' = Returns (JS.Str "$B * 2") s' /\
    observed (browser s') = Some "$B * 2".
Proof.
  apply (changed_sets_text formula_editor "$B * 2").
  - exact formula_editor_built.
  - vm_compute. intros H. discriminate H.
  - reflexivity.
Defined.

(* ===================================================================== *)
(** ** Enabling, and the commands *)
(* ===================================================================== *)

(** X12. [enable(bool)] on a built editor makes it read-only exactly when
    [bool] is false, sets the opacity of the cursor to 100 or to 0, leaves the
    text alone, and puts the cursor behind the last character with nothing
    selected. *)
Theorem enable_protects s flag :
  built s ->
  exists s' r e e',
    enable flag s = Returns tt s' /\ editor (self s') = Some r /\
    heap (browser s) !! r = Some e /\ heap (browser s') !! r = Some e' /\
    Ace.readOnly e' = negb flag /\
    Ace.cursorOpacity e' = (if flag then 100 else 0) /\
    Ace.lines e' = Ace.lines e /\ Ace.autoNewLine e' = Ace.autoNewLine e /\
    Ace.cursor e' = Ace.fileEnd (Ace.lines e) /\
    Ace.allSelected e' = false.
Proof.
  intros (r & d & e & He & Hs & Hd & Hr).
  assert (H : wp (enable flag)
                (fun _ s' =>
                   holds (self s) r
                     (Ace.moveCursorTo (length (Ace.lines e)) 0
                        (Ace.protect (negb flag) (if flag then 100 else 0) e))
                     (observed (browser s)) s')
                (fun _ => False) s).
  { assert (H : holds (self s) r e (observed (browser s)) s)
      by (unfold holds; auto).
    unfold enable. held_step H. rewrite He. apply wp_bind, wp_ret.
    held_step H. apply wp_bind.
    eapply wp_load_some; [apply H|]. held_step H. exact H. }
  apply wp_returns in H as ([] & s' & Hrun & Ho & Hr' & _).
  eexists s', r, e, _. split; [exact Hrun|]. rewrite Ho.
  split; [exact He|]. split; [exact Hr|]. split; [exact Hr'|].
  repeat split. simpl. unfold Ace.clip. simpl. now rewrite Nat.leb_refl.
Qed.

Lemma enable_protects_witness :
  exists s' r e e',
    enable false formula_editor = Returns tt s' /\ editor (self s') = Some r /\
    heap (browser formula_editor) !! r = Some e /\
    heap (browser s') !! r = Some e' /\
    Ace.readOnly e' = negb false /\
    Ace.cursorOpacity e' = (if false then 100 else 0) /\
    Ace.lines e' = Ace.lines e /\ Ace.autoNewLine e' = Ace.autoNewLine e /\
    Ace.cursor e' = Ace.fileEnd (Ace.lines e) /\
    Ace.allSelected e' = false.
Proof.
  apply (enable_protects formula_editor false). exact formula_editor_built.
Defined.

Lemma attachCommands_holds o r held : forall knownKeys e s,
  holds o r e held s ->
  wp (attachCommands r knownKeys)
     (fun _ s' => holds o r (attached knownKeys e) held s')
     (fun _ => False) s.
Proof.
  induction knownKeys as [|[key command] more IH]; intros e s H; simpl.
  - apply wp_ret. exact H.
  - held_step H. now apply IH.
Qed.

Lemma In_addCommand c c' e :
  In c' (Ace.commands (Ace.addCommand c e)) <->
  c' = c \/ (In c' (Ace.commands e) /\ Ace.name c' <> Ace.name c).
Proof.
  simpl. rewrite in_app_iff, filter_In. simpl.
  rewrite negb_true_iff.
  destruct (String.eqb_spec (Ace.name c') (Ace.name c)); split;
    intros H; intuition congruence.
Qed.

(** A command of the editor is still there after the group has been
    attached, or the group has one of its name in its place. *)
Lemma attached_keeps : forall knownKeys e c,
  In c (Ace.commands e) ->
  (In c (Ace.commands (attached knownKeys e)) /\
   forall key, ~ In (key, Ace.name c) knownKeys) \/
  exists key,
    In (key, Ace.name c) knownKeys /\
    In (groupCommand key (Ace.name c)) (Ace.commands (attached knownKeys e)).
Proof.
  induction knownKeys as [|[k n] more IH]; intros e c Hc.
  - left. split; [exact Hc|]. intros key [].
  - change (attached ((k, n) :: more) e)
      with (attached more (Ace.addCommand (groupCommand k n) e)).
    destruct (String.eqb_spec n (Ace.name c)) as [->|Hne].
    + right.
      destruct (IH (Ace.addCommand (groupCommand k (Ace.name c)) e)
                  (groupCommand k (Ace.name c)))
        as [(Hin & _)|(key & Hkey & Hin)].
      * apply In_addCommand. now left.
      * exists k. split; [now left|exact Hin].
      * exists key. split; [now right|exact Hin].
    + destruct (IH (Ace.addCommand (groupCommand k n) e) c)
        as [(Hin & Hnone)|(key & Hkey & Hin)].
      * apply In_addCommand. right. split; [exact Hc|]. simpl. congruence.
      * left. split; [exact Hin|].
        intros key [[= -> ->]|Hin']; [congruence|]. now apply (Hnone key).
      * right. exists key. split; [now right|exact Hin].
Qed.

Lemma attached_from : forall knownKeys e c,
  In c (Ace.commands (attached knownKeys e)) ->
  In c (Ace.commands e) \/
  exists key command, In (key, command) knownKeys /\ c = groupCommand key command.
Proof.
  induction knownKeys as [|[k n] more IH]; intros e c Hc; [now left|].
  change (attached ((k, n) :: more) e)
    with (attached more (Ace.addCommand (groupCommand k n) e)) in Hc.
  destruct (IH _ _ Hc) as [Hin|(key & command & Hin & ->)].
  - apply In_addCommand in Hin as [->|(Hin & _)]; [|now left].
    right. exists k, n. split; [now left|reflexivity].
  - right. exists key, command. split; [now right|reflexivity].
Qed.

(** X13. [attachCommandGroup] on a built editor: every command name of the
    group is bound to one of its keys afterwards, the editor has no command it
    did not have that is not of the group, and the commands of other names are
    kept. *)
Theorem attachCommandGroup_registers s commandGroup :
  built s ->
  exists s' r e e',
    attachCommandGroup commandGroup s = Returns tt s' /\
    editor (self s') = Some r /\
    heap (browser s) !! r = Some e /\ heap (browser s') !! r = Some e' /\
    (forall key command, In (key, command) commandGroup ->
       exists key', In (key', command) commandGroup /\
                    In (groupCommand key' command) (Ace.commands e')) /\
    (forall c, In c (Ace.commands e') ->
       In c (Ace.commands e) \/
       exists key command,
         In (key, command) commandGroup /\ c = groupCommand key command) /\
    (forall c, In c (Ace.commands e) ->
       (forall key, ~ In (key, Ace.name c) commandGroup) ->
       In c (Ace.commands e')).
Proof.
  intros (r & d & e & He & Hs & Hd & Hr).
  assert (H : wp (attachCommandGroup commandGroup)
                (fun _ s' =>
                   holds (self s) r (attached commandGroup e)
                     (observed (browser s)) s')
                (fun _ => False) s).
  { assert (H : holds (self s) r e (observed (browser s)) s)
      by (unfold holds; auto).
    unfold attachCommandGroup. destruct commandGroup as [|c g].
    - apply wp_ret. exact H.
    - held_step H. rewrite He. apply wp_bind, wp_ret.
      now apply attachCommands_holds. }
  apply wp_returns in H as ([] & s' & Hrun & Ho & Hr' & _).
  eexists s', r, e, _. split; [exact Hrun|]. rewrite Ho.
  split; [exact He|]. split; [exact Hr|]. split; [exact Hr'|].
  split; [|split].
  - intros key command Hin.
    assert (Hsplit : exists before after,
              commandGroup = before ++ (key, command) :: after)
      by (now apply in_split).
    destruct Hsplit as (before & after & ->).
    unfold attached. rewrite fold_left_app. simpl.
    fold (attached before e).
    set (e1 := Ace.addCommand (groupCommand key command) (attached before e)).
    fold (attached after e1).
    destruct (attached_keeps after e1 (groupCommand key command))
      as [(Hc & _)|(key' & Hkey' & Hc)].
    + apply In_addCommand. now left.
    + exists key. split; [apply in_or_app; right; now left|exact Hc].
    + exists key'. split; [|exact Hc].
      apply in_or_app. right. right. exact Hkey'.
  - intros c Hc. now apply attached_from.
  - intros c Hc Hnone.
    destruct (attached_keeps commandGroup e c Hc)
      as [(Hin & _)|(key & Hkey & _)]; [exact Hin|].
    now destruct (Hnone key).
Qed.

Lemma attachCommandGroup_registers_witness :
  exists s' r e e',
    attachCommandGroup [("Escape", "cancel"); ("Tab", "nextField")]
      formula_editor = Returns tt s' /\
    editor (self s') = Some r /\
    heap (browser formula_editor) !! r = Some e /\
    heap (browser s') !! r = Some e' /\
    (forall key command,
       In (key, command) [("Escape", "cancel"); ("Tab", "nextField")] ->
       exists key',
         In (key', command) [("Escape", "cancel"); ("Tab", "nextField")] /\
         In (groupCommand key' command) (Ace.commands e')) /\
    (forall c, In c (Ace.commands e') ->
       In c (Ace.commands e) \/
       exists key command,
         In (key, command) [("Escape", "cancel"); ("Tab", "nextField")] /\
         c = groupCommand key command) /\
    (forall c, In c (Ace.commands e) ->
       (forall key,
          ~ In (key, Ace.name c) [("Escape", "cancel"); ("Tab", "nextField")]) ->
       In c (Ace.commands e')).
Proof.
  apply (attachCommandGroup_registers formula_editor
           [("Escape", "cancel"); ("Tab", "nextField")]).
  exact formula_editor_built.
Defined.
(* ===================================================================== *)
(** ** Saving, sizing and wrapping *)
(* ===================================================================== *)

(** X14. [writeObservable] never throws where the editor reference is sound.
    Without observable it does nothing. With one it saves what [getValue]
    returns: the text once the editor is built, but [null] before [_setup] has
    run. *)
Theorem writeObservable_saves s :
  (observable (self s) = None -> writeObservable s = Returns tt s) /\
  (observable (self s) <> None -> editor (self s) = None ->
     exists s',
       writeObservable s = Returns tt s' /\ self s' = self s /\
       heap (browser s') = heap (browser s) /\
       saved (browser s') = saved (browser s) ++ [JS.Null]) /\
  (observable (self s) <> None -> built s ->
     exists s' text,
       getValue s = Returns (JS.Str text) s /\
       writeObservable s = Returns tt s' /\ self s' = self s /\
       heap (browser s') = heap (browser s) /\
       saved (browser s') = saved (browser s) ++ [JS.Str text]).
Proof.
  split; [|split].
  - intros Hobs. unfold writeObservable, bind, this. now rewrite Hobs.
  - intros Hobs He. unfold writeObservable, getValue, bind, this.
    destruct (observable (self s)); [|congruence]. rewrite He.
    eexists. split; [reflexivity|]. fields. auto.
  - intros Hobs (r & d & e & He & Hs & Hd & Hr).
    exists (repaint (styles (browser s)) (calcSizeCalls (browser s))
              (saved (browser s) ++ [JS.Str (Ace.getValue e)]) s),
           (Ace.getValue e).
    split; [exact (getValue_built s r e He Hr)|].
    rewrite (writeObservable_built s r e He Hr).
    destruct (observable (self s)); [|congruence].
    unfold repaint. fields. auto.
Qed.

Lemma writeObservable_saves_witness :
  let fresh := start None (new_Browser monospace true None) in
  writeObservable fresh = Returns tt fresh /\
  (exists s',
     writeObservable formula_pending = Returns tt s' /\
     self s' = self formula_pending /\
     heap (browser s') = heap (browser formula_pending) /\
     saved (browser s') = saved (browser formula_pending) ++ [JS.Null]) /\
  (exists s' text,
     getValue formula_editor = Returns (JS.Str text) formula_editor /\
     writeObservable formula_editor = Returns tt s' /\
     self s' = self formula_editor /\
     heap (browser s') = heap (browser formula_editor) /\
     saved (browser s') = saved (browser formula_editor) ++ [JS.Str text]).
Proof.
  split; [|split].
  - apply (proj1 (writeObservable_saves
                    (start None (new_Browser monospace true None)))).
    reflexivity.
  - apply (proj1 (proj2 (writeObservable_saves formula_pending))).
    + vm_compute. intros H. discriminate H.
    + reflexivity.
  - apply (proj2 (proj2 (writeObservable_saves formula_editor))).
    + vm_compute. intros H. discriminate H.
    + exact formula_editor_built.
Defined.

(** X15. With the [calcSize] the constructor supplies when the options have
    none, [resize] calls it once and gives the element the desired size as it
    is: the branch for a horizontal scrollbar is never taken, and in wrap mode
    the width is ['auto']. *)
Theorem default_calcSize_once s :
  built s ->
  calcSize (self s) = identityCalcSize ->
  0 <= textPadding (self s) ->
  exists s' r d e,
    editor (self s) = Some r /\ editorDom (self s) = Some d /\
    heap (browser s) !! r = Some e /\
    resize s = Returns tt s' /\
    let m := metrics (browser s) in
    let size :=
      mkSize (if Ace.useWrapMode e then 0
              else getScreenWidth m e * characterWidth m e
                   + textPadding (self s))
             (Z.max 1 (getScreenLength m e) * lineHeight m e) in
    calcSizeCalls (browser s') = calcSizeCalls (browser s) ++ [size] /\
    styles (browser s')
    = (d, mkStyle (if width size =? 0 then None else Some (width size))
            (height size)) :: styles (browser s) /\
    (Ace.useWrapMode e = true ->
     styles (browser s') = (d, mkStyle None (height size)) :: styles (browser s)).
Proof.
  intros (r & d & e & He & Hs & Hd & Hr) Hcalc Hpad.
  destruct (resize_computes s r d e He Hs Hd Hr) as (_ & s' & Hrun & _ & _ & H).
  exists s', r, d, e. repeat (split; [assumption|]).
  rewrite Hcalc in H. unfold identityCalcSize in H. cbn [fst snd width] in H.
  cbv zeta.
  destruct (Ace.useWrapMode e).
  - rewrite Z.ltb_irrefl in H. destruct H as (Hcalls & Hstyles).
    split; [exact Hcalls|]. split; [exact Hstyles|]. intros _. exact Hstyles.
  - replace (_ <? _) with false in H by (symmetry; apply Z.ltb_ge; lia).
    destruct H as (Hcalls & Hstyles).
    split; [exact Hcalls|]. split; [exact Hstyles|]. discriminate.
Qed.

Lemma default_calcSize_once_witness :
  exists s' r d e,
    editor (self formula_editor) = Some r /\
    editorDom (self formula_editor) = Some d /\
    heap (browser formula_editor) !! r = Some e /\
    resize formula_editor = Returns tt s' /\
    let m := metrics (browser formula_editor) in
    let size :=
      mkSize (if Ace.useWrapMode e then 0
              else getScreenWidth m e * characterWidth m e
                   + textPadding (self formula_editor))
             (Z.max 1 (getScreenLength m e) * lineHeight m e) in
    calcSizeCalls (browser s') = calcSizeCalls (browser formula_editor) ++ [size] /\
    styles (browser s')
    = (d, mkStyle (if width size =? 0 then None else Some (width size))
            (height size)) :: styles (browser formula_editor) /\
    (Ace.useWrapMode e = true ->
     styles (browser s')
     = (d, mkStyle None (height size)) :: styles (browser formula_editor)).
Proof.
  apply (default_calcSize_once formula_editor).
  - exact formula_editor_built.
  - reflexivity.
  - vm_compute. intros H. discriminate H.
Defined.







(* ===================================================================== *)
(** ** What the constructor has set *)
(* ===================================================================== *)

Section Steady.

Variable c : option nat * bool * CalcSize * option nat * Z.

Lemma steady_ordinary s s' : steady c s -> ordinary s s' -> steady c s'.
Proof. unfold steady. intros H (Hself & _). now rewrite Hself. Qed.

Lemma steady_effect f : keeps (steady c) (effect f).
Proof. intros s Hs. apply wp_effect. exact Hs. Qed.

Lemma steady_assign f :
  (forall o, options_of (f o) = options_of o) -> keeps (steady c) (assign f).
Proof.
  intros Hf. apply keeps_assign. unfold steady. intros s Hs. fields.
  now rewrite Hf.
Qed.

Lemma steady_ace_edit el : keeps (steady c) (ace_edit el).
Proof.
  intros s Hs. apply wp_ace_edit. intros r s' Hself _ _ _ _ _ _ _ _.
  unfold steady. now rewrite Hself.
Qed.

Lemma steady_frames {A} (m : M A) : frames m -> keeps (steady c) m.
Proof. apply keeps_frames. exact steady_ordinary. Qed.

End Steady.

Ltac steady_go :=
  repeat lazymatch goal with
  | |- keeps _ (bind _ _) => apply keeps_bind; [|intro]
  | |- keeps _ (effect _) => apply steady_effect
  | |- keeps _ (ace_edit _) => apply steady_ace_edit
  | |- keeps _ (assign _) => apply steady_assign; intro; reflexivity
  | |- keeps _ (ret _) => apply keeps_ret
  | |- keeps _ this => apply keeps_this
  | |- keeps _ (match ?x with _ => _ end) => destruct x
  | |- keeps _ _ => apply steady_frames; solve [auto with frames | frames_go]
  end.

Lemma steady_setup c : keeps (steady c) _setup.
Proof. unfold _setup. steady_go. Qed.

Lemma steady_perform c a : keeps (steady c) (perform a).
Proof.
  pose proof (frames_perform a) as Hf.
  destruct a; try (apply steady_frames; exact Hf); clear Hf;
    unfold perform, discard.
  - unfold buildDom. steady_go.
  - unfold onAttach, clearTimeout. steady_go. apply steady_setup.
  - unfold timeout, clearTimeout. steady_go. apply steady_setup.
Qed.

(** X17. No method and no event, whether it returns or throws, changes the
    observable, [saveValueOnBlurEvent], [calcSize], [gristDoc] or
    [textPadding] of the instance: they stay as the constructor has set them. *)
Theorem options_never_change s actions :
  let s' := run actions s in
  observable (self s') = observable (self s) /\
  saveValueOnBlurEvent (self s') = saveValueOnBlurEvent (self s) /\
  calcSize (self s') = calcSize (self s) /\
  gristDoc (self s') = gristDoc (self s) /\
  textPadding (self s') = textPadding (self s).
Proof.
  assert (H : options_of (self (run actions s)) = options_of (self s)).
  { remember (options_of (self s)) as c eqn:Hc. symmetry in Hc.
    revert s Hc. induction actions as [|a more IH]; intros s Hc; simpl.
    - exact Hc.
    - apply IH. apply (wp_final _ (steady c)).
      eapply keeps_wp; [apply steady_perform|exact Hc|auto|auto]. }
  unfold options_of in H. injection H as H1 H2 H3 H4 H5. cbv zeta. auto.
Qed.
(* ===================================================================== *)
(** ** The list of the locale picker *)
(* ===================================================================== *)

Section PickerFacts.

Import DocSettings.

Lemma insertSorted_permutation x l : Permutation (insertSorted x l) (x :: l).
Proof.
  induction l as [|y l IH]; simpl; [reflexivity|].
  destruct (String.leb (label x) (label y)); [reflexivity|].
  rewrite IH. apply perm_swap.
Qed.

Lemma sort_permutation l : Permutation (sort l) l.
Proof.
  unfold sort. induction l as [|x l IH]; simpl; [reflexivity|].
  rewrite insertSorted_permutation. now constructor.
Qed.

(** X18. The picker offers the locales of the list, each as often as the list
    has it: sorting drops no entry and adds none. *)
Theorem localeList_permutation (trim toLowerCase : string -> string)
    (locales : list Locale) :
  Permutation (localeList trim toLowerCase locales)
    (map (toItem trim toLowerCase) locales).
Proof. apply sort_permutation. Qed.

Lemma insertSorted_sorted x l :
  Sorted (fun a b => String.leb (label a) (label b) = true) l ->
  Sorted (fun a b => String.leb (label a) (label b) = true) (insertSorted x l).
Proof.
  induction 1 as [|y l Hl IH Hhd]; simpl.
  - repeat constructor.
  - destruct (String.leb (label x) (label y)) eqn:Hxy.
    + repeat constructor; assumption.
    + constructor; [exact IH|].
      destruct Hhd as [|z l' Hyz]; simpl.
      * constructor. destruct (String.leb_total (label x) (label y)); congruence.
      * destruct (String.leb (label x) (label z)); constructor; [|exact Hyz].
        destruct (String.leb_total (label x) (label y)); congruence.
Qed.

(** X19. The entries of the picker come in the order of their labels, that is
    of the names of the locales: no entry is followed by one with a smaller
    label. *)
Theorem localeList_sorted (trim toLowerCase : string -> string)
    (locales : list Locale) :
  Sorted (fun a b => String.leb (label a) (label b) = true)
    (localeList trim toLowerCase locales).
Proof.
  unfold localeList, sort.
  induction (map (toItem trim toLowerCase) locales) as [|x l IH]; simpl.
  - constructor.
  - now apply insertSorted_sorted.
Qed.

Lemma find_by_code (locales : list Locale) (l : Locale) :
  List.NoDup (map code locales) -> In l locales ->
  find (fun l' => String.eqb (code l') (code l)) locales = Some l.
Proof.
  induction locales as [|x more IH]; simpl; [tauto|].
  intros Hnodup Hin. inversion Hnodup as [|? ? Hnotin Hmore]; subst.
  destruct (String.eqb_spec (code x) (code l)) as [Heq|Hne].
  - destruct Hin as [->|Hin]; [reflexivity|].
    exfalso. apply Hnotin. rewrite Heq. now apply in_map.
  - destruct Hin as [->|Hin]; [congruence|]. now apply IH.
Qed.

(** X20. What the picker shows for the stored setting. With no two locales of
    the same code: the name of the locale that has the stored code, so after a
    save of an entry the label of that entry; the stored code itself when no
    locale has it, or when the locale's name is empty. *)
Theorem textObs_shows (trim toLowerCase : string -> string)
    (locales : list Locale) :
  List.NoDup (map code locales) ->
  (forall l, In l locales -> name l <> "" ->
     textObs locales (code l) = label (toItem trim toLowerCase l)) /\
  (forall l, In l locales -> name l = "" ->
     textObs locales (code l) = code l) /\
  (forall localeCode,
     (forall l, In l locales -> code l <> localeCode) ->
     textObs locales localeCode = localeCode).
Proof.
  intros Hnodup. split; [|split].
  - intros l Hin Hname. unfold textObs.
    rewrite (find_by_code locales l Hnodup Hin). simpl.
    destruct (name l); [congruence|reflexivity].
  - intros l Hin Hname. unfold textObs.
    rewrite (find_by_code locales l Hnodup Hin). now rewrite Hname.
  - intros localeCode Hnone. unfold textObs.
    destruct (find _ locales) as [l|] eqn:Hfind; [|reflexivity].
    apply find_some in Hfind as (Hin & Heq).
    apply String.eqb_eq in Heq. now destruct (Hnone l Hin).
Qed.

Lemma textObs_shows_witness :
  let locales := [mkLocale "Deutschland (Deutsch)" "de-DE";
                  mkLocale "Canada (English)" "en-CA"] in
  (forall l, In l locales -> name l <> "" ->
     textObs locales (code l) = label (toItem (fun s => s) (fun s => s) l)) /\
  (forall l, In l locales -> name l = "" ->
     textObs locales (code l) = code l) /\
  (forall localeCode,
     (forall l, In l locales -> code l <> localeCode) ->
     textObs locales localeCode = localeCode).
Proof.
  apply (textObs_shows (fun s => s) (fun s => s) [mkLocale "Deutschland (Deutsch)" "de-DE";
                        mkLocale "Canada (English)" "en-CA"]).
  simpl. repeat constructor; simpl; intuition discriminate.
Defined.

End PickerFacts.
(* ===================================================================== *)
(** ** The lazily loaded [Range] *)
(* ===================================================================== *)

Section RangeFacts.

Import RangeLoader.

Variable constructors : nat -> nat.

Lemma makeRanges_loaded k n : forall calls,
  makeRanges constructors calls (mkLoader (Some k) n)
  = (map (fun '(a, b, c, d) => mkRange k a b c d) calls, mkLoader (Some k) n).
Proof.
  induction calls as [|[[[a b] c] d] more IH]; simpl; [reflexivity|].
  unfold makeRange. simpl. now rewrite IH.
Qed.

(** X21. [makeRange] loads the constructor on the first call and never again:
    whatever calls are made, [ace.acequire] is called once, or not at all when
    there is no call, and every range is made by the constructor that one call
    returned, from the arguments of its call. *)
Theorem makeRange_loads_once (calls : list (Z * Z * Z * Z)) :
  makeRanges constructors calls initial
  = (map (fun '(a, b, c, d) => mkRange (constructors 0) a b c d) calls,
     match calls with
     | [] => initial
     | _ :: _ => mkLoader (Some (constructors 0)) 1
     end).
Proof.
  destruct calls as [|[[[a b] c] d] more]; simpl; [reflexivity|].
  unfold makeRange, initial. simpl. now rewrite makeRanges_loaded.
Qed.

End RangeFacts.
